(** * Glossary batch validation and manifest merging

    A shallow embedding of the batch validator ([validate-batch]), the Zod
    schema of a glossary batch ([glossaryBatch.zod]) and the manifest merger
    ([update-manifest]), together with the properties of the validation
    pipeline and of the manifest upsert.

    Conventions.
    - A JavaScript string is a [string]; every character stands for one
      UTF-16 code unit in the range 0..255, and [String.length] is the
      [.length] of the source.
    - The [errors] and [warnings] arrays of the source hold template
      strings.  Here they hold values of [Message], one constructor per
      template, and [render] produces the text of the template.
    - File contents are modelled after [JSON.parse]: a file is absent,
      unparseable, or holds a document of the expected shape. *)

From Stdlib Require Import String Ascii ZArith List Bool Lia Sorting.Sorted Permutation.
From stdpp Require Import base decidable option list gmap sets strings pretty.

Import ListNotations.
Local Open Scope string_scope.
Local Open Scope list_scope.

(** ** Regular expressions

    The source uses JavaScript regular expressions only through
    [RegExp.prototype.test], so only the language of a pattern matters
    (a lazy quantifier accepts the same words as the greedy one). *)

(** Character classes that occur in the patterns of the source. *)
Inductive cclass : Type :=
| CDot                         (* .      any code unit but a line terminator *)
| CChar (c : ascii)            (* a literal character *)
| CRange (lo hi : ascii)       (* a-z    inside a bracket expression *)
| CDigit                       (* \d *)
| CSpace                       (* \s *)
| CEvery                       (* [\s\S] *)
| CUnion (a b : cclass).       (* juxtaposition inside a bracket expression *)

Definition is_line_terminator (c : ascii) : bool :=
  let n := nat_of_ascii c in (n =? 10)%nat || (n =? 13)%nat.

Definition is_white_space (c : ascii) : bool :=
  let n := nat_of_ascii c in
  ((9 <=? n)%nat && (n <=? 13)%nat) || (n =? 32)%nat || (n =? 160)%nat.

Fixpoint class_mem (k : cclass) (c : ascii) : bool :=
  match k with
  | CDot => negb (is_line_terminator c)
  | CChar d => Ascii.eqb c d
  | CRange lo hi =>
      (nat_of_ascii lo <=? nat_of_ascii c)%nat && (nat_of_ascii c <=? nat_of_ascii hi)%nat
  | CDigit => (48 <=? nat_of_ascii c)%nat && (nat_of_ascii c <=? 57)%nat
  | CSpace => is_white_space c
  | CEvery => true
  | CUnion a b => class_mem a c || class_mem b c
  end.

Inductive regex : Type :=
| Void
| Eps
| Cls (k : cclass)
| Seq (r s : regex)
| Alt (r s : regex)
| Star (r : regex).

Definition Lit (c : ascii) : regex := Cls (CChar c).
Definition Plus (r : regex) : regex := Seq r (Star r).
Definition Opt (r : regex) : regex := Alt r Eps.

(** [r{n}] *)
Fixpoint Times (n : nat) (r : regex) : regex :=
  match n with
  | O => Eps
  | S n' => Seq r (Times n' r)
  end.

(** [r{0,n}] *)
Fixpoint UpTo (n : nat) (r : regex) : regex :=
  match n with
  | O => Eps
  | S n' => Opt (Seq r (UpTo n' r))
  end.

(** [r{lo,hi}] for [lo <= hi] *)
Definition Between (lo hi : nat) (r : regex) : regex :=
  Seq (Times lo r) (UpTo (hi - lo) r).

(** The words of a pattern. *)
Inductive matches : regex -> list ascii -> Prop :=
| m_eps : matches Eps []
| m_cls k c : class_mem k c = true -> matches (Cls k) [c]
| m_seq r s u v : matches r u -> matches s v -> matches (Seq r s) (u ++ v)
| m_alt_l r s u : matches r u -> matches (Alt r s) u
| m_alt_r r s u : matches s u -> matches (Alt r s) u
| m_star_nil r : matches (Star r) []
| m_star_cons r u v : matches r u -> matches (Star r) v -> matches (Star r) (u ++ v).

Fixpoint nullable (r : regex) : bool :=
  match r with
  | Void => false
  | Eps => true
  | Cls _ => false
  | Seq r s => nullable r && nullable s
  | Alt r s => nullable r || nullable s
  | Star _ => true
  end.

Definition seq' (r s : regex) : regex :=
  match r, s with
  | Void, _ => Void
  | _, Void => Void
  | Eps, _ => s
  | _, _ => Seq r s
  end.

Definition alt' (r s : regex) : regex :=
  match r, s with
  | Void, _ => s
  | _, Void => r
  | _, _ => Alt r s
  end.

(** Brzozowski derivative: the words [w] with [c :: w] in the pattern. *)
Fixpoint deriv (c : ascii) (r : regex) : regex :=
  match r with
  | Void => Void
  | Eps => Void
  | Cls k => if class_mem k c then Eps else Void
  | Seq r s =>
      if nullable r then alt' (seq' (deriv c r) s) (deriv c s)
      else seq' (deriv c r) s
  | Alt r s => alt' (deriv c r) (deriv c s)
  | Star r => seq' (deriv c r) (Star r)
  end.

(** The whole word is in the pattern: [/^r$/.test(w)]. *)
Fixpoint full_match (r : regex) (w : list ascii) : bool :=
  match w with
  | [] => nullable r
  | c :: w' => full_match (deriv c r) w'
  end.

(** Some prefix of the word is in the pattern. *)
Fixpoint prefix_match (r : regex) (w : list ascii) : bool :=
  nullable r ||
  match w with
  | [] => false
  | c :: w' => prefix_match (deriv c r) w'
  end.

(** Some factor of the word is in the pattern: [/r/.test(w)]. *)
Fixpoint search (r : regex) (w : list ascii) : bool :=
  prefix_match r w ||
  match w with
  | [] => false
  | _ :: w' => search r w'
  end.

(** A pattern of the source: its body, and whether it is written [^...$]. *)
Record RegExp : Type := mkRegExp { anchored : bool; body : regex }.

Definition test (p : RegExp) (s : string) : bool :=
  if anchored p then full_match (body p) (list_ascii_of_string s)
  else search (body p) (list_ascii_of_string s).

(** ** Patterns of the source *)

Definition lower_or_digit : cclass := CUnion (CRange "a" "z") (CRange "0" "9").

(** [/^[a-z0-9]+(-[a-z0-9]+)*$/] *)
Definition KEBAB_CASE_REGEX : RegExp :=
  mkRegExp true
    (Seq (Plus (Cls lower_or_digit))
         (Star (Seq (Lit "-") (Plus (Cls lower_or_digit))))).

(** [/^[a-z0-9-]+$/] *)
Definition TAG_PATTERN : RegExp :=
  mkRegExp true (Plus (Cls (CUnion lower_or_digit (CChar "-")))).

(** [/^\d{4}-\d{2}-\d{2}T\d{2}:\d{2}:\d{2}(\.\d{3})?Z$/] *)
Definition ISO_DATE_REGEX : RegExp :=
  mkRegExp true
    (Seq (Times 4 (Cls CDigit)) (Seq (Lit "-")
    (Seq (Times 2 (Cls CDigit)) (Seq (Lit "-")
    (Seq (Times 2 (Cls CDigit)) (Seq (Lit "T")
    (Seq (Times 2 (Cls CDigit)) (Seq (Lit ":")
    (Seq (Times 2 (Cls CDigit)) (Seq (Lit ":")
    (Seq (Times 2 (Cls CDigit))
    (Seq (Opt (Seq (Lit ".") (Times 3 (Cls CDigit))))
         (Lit "Z"))))))))))))).

Definition dots : regex := Star (Cls CDot).

(** [/\*\*.*?\*\*/] *)
Definition re_bold : RegExp :=
  mkRegExp false (Seq (Lit "*") (Seq (Lit "*") (Seq dots (Seq (Lit "*") (Lit "*"))))).
(** [/\*.*?\*/] *)
Definition re_italic_star : RegExp :=
  mkRegExp false (Seq (Lit "*") (Seq dots (Lit "*"))).
(** [/_.*?_/] *)
Definition re_italic_underscore : RegExp :=
  mkRegExp false (Seq (Lit "_") (Seq dots (Lit "_"))).
(** [/#{1,6}\s/] *)
Definition re_header : RegExp :=
  mkRegExp false (Seq (Between 1 6 (Lit "#")) (Cls CSpace)).
(** [/\[.*?\]\(.*?\)/] *)
Definition re_link : RegExp :=
  mkRegExp false
    (Seq (Lit "[") (Seq dots (Seq (Lit "]") (Seq (Lit "(") (Seq dots (Lit ")")))))).
(** [/!\[.*?\]\(.*?\)/] *)
Definition re_image : RegExp :=
  mkRegExp false (Seq (Lit "!") (body re_link)).
(** [/```[\s\S]*?```/] *)
Definition re_code_block : RegExp :=
  mkRegExp false
    (Seq (Times 3 (Lit "`")) (Seq (Star (Cls CEvery)) (Times 3 (Lit "`")))).
(** [/`.*?`/] *)
Definition re_inline_code : RegExp :=
  mkRegExp false (Seq (Lit "`") (Seq dots (Lit "`"))).

(** [MARKDOWN_PATTERNS] of the Zod module. *)
Definition MARKDOWN_PATTERNS : list RegExp :=
  [ re_bold; re_italic_star; re_italic_underscore; re_header;
    re_link; re_image; re_code_block; re_inline_code ].

(** [containsMarkdown] *)
Definition containsMarkdown (text : string) : bool :=
  existsb (fun pattern => test pattern text) MARKDOWN_PATTERNS.

(** [VALID_CATEGORIES] *)
Definition VALID_CATEGORIES : list string :=
  [ "Navigation"; "Weather"; "Communication"; "Safety"; "Performance";
    "Flight Controls"; "Navigation Systems"; "Equipment"; "Procedures";
    "Electrical Systems"; "Electrical"; "Pneumatic Systems";
    "Environmental Systems"; "Ice Protection Systems"; "Cargo Systems";
    "Hydraulic Systems"; "Communication Systems"; "Lighting Systems";
    "Cabin Systems"; "Fire Protection Systems"; "Flight Instruments";
    "Engine Systems"; "System Controls"; "Safety Equipment";
    "Communications"; "Landing Gear" ].

(** [RELATIONSHIP_TYPES] *)
Definition RELATIONSHIP_TYPES : list string :=
  [ "broader"; "narrower"; "related"; "seeAlso" ].

(** [Array.prototype.includes] on strings. *)
Definition includes (xs : list string) (x : string) : bool :=
  existsb (String.eqb x) xs.

(** ** Data model ([glossary.generated]) *)

Record GlossarySection : Type := { content : string }.

Record SemanticRelationship : Type := {
  termId : string;
  type : string;
  description : option string
}.

(** [sections] is a JSON object; it is kept as the list of its entries in
    key order, as [Object.entries] enumerates them. *)
Record GlossaryTerm : Type := {
  id : string;
  title : string;
  category : string;
  sections : list (string * GlossarySection);
  synonyms : list string;
  tags : list string;
  relationships : list SemanticRelationship;
  createdAt : string;
  updatedAt : string
}.

Record GlossaryBatch : Type := { terms : list GlossaryTerm }.

Record BatchManifestEntry : Type := {
  entry_id : string;
  entry_path : string;
  entry_createdAt : string;
  entry_termCount : nat;
  entry_categories : list string
}.

Record BatchManifest : Type := { batches : list BatchManifestEntry }.

(** [[...new Set(xs)]]: the distinct elements in order of first occurrence. *)
Fixpoint unique (xs : list string) : list string :=
  match xs with
  | [] => []
  | x :: xs' => x :: List.filter (fun y => negb (String.eqb y x)) (unique xs')
  end.

(** ** The Zod schema ([glossaryBatch.zod])

    [GlossaryBatchSchema.parse] is modelled by the list of issues it
    collects, in the order Zod adds them: the checks of a string in the
    order they are chained, the keys of an object in the order of its
    shape followed by the unrecognised keys of a strict object, the
    elements of an array in order, and a refinement after the value it
    refines.  A value whose type or enumeration check fails is aborted;
    a refinement is not run on an aborted value.  Documents are typed
    here, so a field never has the wrong JSON type. *)

Record ZodIssue : Type := { issue_path : list string; issue_message : string }.

(** The issues for which the schema gives no message of its own. *)
Inductive ZodIssueCode : Type :=
| too_small (minimum : nat)
| too_big (maximum : nat)
| invalid_enum_value (options : list string) (received : string)
| invalid_type_required
| unrecognized_keys (keys : list string).

(** The outcome of parsing a value: whether it is aborted, and its issues. *)
Definition Parsed : Type := (bool * list ZodIssue)%type.

Definition parsed_ok : Parsed := (false, []).

Definition parsed_and (p q : Parsed) : Parsed := (fst p || fst q, snd p ++ snd q).

Definition parsed_all (ps : list Parsed) : Parsed :=
  fold_right parsed_and parsed_ok ps.

Inductive StringCheck : Type :=
| check_regex (p : RegExp) (msg : string)
| check_min (n : nat) (msg : option string)
| check_max (n : nat) (msg : option string)
| check_refine (ok : string -> bool) (msg : string).

(** [.get(key)] on the entries of a JSON object. *)
Fixpoint entry_get {A : Type} (key : string) (entries : list (string * A)) : option A :=
  match entries with
  | [] => None
  | (k, v) :: rest => if String.eqb k key then Some v else entry_get key rest
  end.

Section Zod.

(** Zod's default error map, for the issues without a message in the schema. *)
Variable defaultErrorMap : ZodIssueCode -> string.

Definition issue_at (path : list string) (msg : string) : ZodIssue :=
  {| issue_path := path; issue_message := msg |}.

Definition run_check (path : list string) (s : string) (ck : StringCheck) : list ZodIssue :=
  match ck with
  | check_regex p msg => if test p s then [] else [issue_at path msg]
  | check_min n msg =>
      if (String.length s <? n)%nat
      then [issue_at path (default (defaultErrorMap (too_small n)) msg)] else []
  | check_max n msg =>
      if (n <? String.length s)%nat
      then [issue_at path (default (defaultErrorMap (too_big n)) msg)] else []
  | check_refine ok msg => if ok s then [] else [issue_at path msg]
  end.

(** [z.string()] followed by a chain of checks. *)
Definition zstring (checks : list StringCheck) (path : list string) (s : string) : Parsed :=
  (false, flat_map (run_check path s) checks).

(** [z.enum(options)] *)
Definition zenum (options : list string) (path : list string) (s : string) : Parsed :=
  if includes options s then parsed_ok
  else (true, [issue_at path (defaultErrorMap (invalid_enum_value options s))]).

(** [z.array(elem)] *)
Definition zarray {A : Type} (elem : list string -> A -> Parsed)
    (path : list string) (xs : list A) : Parsed :=
  parsed_all (imap (fun i x => elem (path ++ [pretty i]) x) xs).

(** [schema.optional()] on a value that may be absent. *)
Definition zoptional {A : Type} (schema : list string -> A -> Parsed)
    (path : list string) (x : option A) : Parsed :=
  match x with
  | None => parsed_ok
  | Some a => schema path a
  end.

(** A required key of an object. *)
Definition zrequired {A : Type} (schema : list string -> A -> Parsed)
    (path : list string) (x : option A) : Parsed :=
  match x with
  | None => (true, [issue_at path (defaultErrorMap invalid_type_required)])
  | Some a => schema path a
  end.

(** [.strict()]: the keys of the object outside its shape. *)
Definition zstrict {A : Type} (shape : list string) (path : list string)
    (entries : list (string * A)) : Parsed :=
  let extraKeys := List.filter (fun k => negb (includes shape k)) (map fst entries) in
  match extraKeys with
  | [] => parsed_ok
  | _ => (false, [issue_at path (defaultErrorMap (unrecognized_keys extraKeys))])
  end.

(** ['ID must be in kebab-case format (e.g., "flight-level")'] *)
Definition id_format_message : string :=
  String.append "ID must be in kebab-case format (e.g., "
    (String.append (String (ascii_of_nat 34) "flight-level")
       (String (ascii_of_nat 34) ")")).

Definition plain_text_only_message : string :=
  "Content must be plain text only - no markdown or HTML formatting allowed".
Definition too_long_message : string := "Content must not exceed 2000 characters".
Definition min_terms_message : string := "Batch must contain at least 1 term".
Definition unique_ids_message : string := "All term IDs must be unique within a batch".

(** [plainTextRefinement] followed by [.min(10, ..)] and [.max(2000, ..)] *)
Definition content_checks : list StringCheck :=
  [ check_refine (fun text => negb (containsMarkdown text)) plain_text_only_message;
    check_min 10 (Some "Content must be at least 10 characters");
    check_max 2000 (Some too_long_message) ].

(** [GlossarySectionSchema] *)
Definition GlossarySectionSchema (path : list string) (s : GlossarySection) : Parsed :=
  zstring content_checks (path ++ ["content"]) (content s).

(** [SemanticRelationshipSchema] *)
Definition SemanticRelationshipSchema (path : list string) (r : SemanticRelationship) : Parsed :=
  parsed_all
    [ zstring
        [ check_regex KEBAB_CASE_REGEX "termId must be in kebab-case format";
          check_min 1 (Some "termId cannot be empty");
          check_max 100 (Some "termId must not exceed 100 characters") ]
        (path ++ ["termId"]) (termId r);
      zenum RELATIONSHIP_TYPES (path ++ ["type"]) (type r);
      zoptional
        (zstring
           [ check_min 10 (Some "Description must be at least 10 characters if provided");
             check_max 500 (Some "Description must not exceed 500 characters") ])
        (path ++ ["description"]) (description r) ].

Definition section_keys : list string :=
  [ "whatItIs"; "location"; "howItWorks"; "whatYouShouldDo"; "troubleshooting" ].

(** The [sections] object of [GlossaryTermSchema]. *)
Definition SectionsSchema (path : list string)
    (secs : list (string * GlossarySection)) : Parsed :=
  parsed_all
    [ zrequired GlossarySectionSchema (path ++ ["whatItIs"]) (entry_get "whatItIs" secs);
      zoptional GlossarySectionSchema (path ++ ["location"]) (entry_get "location" secs);
      zoptional GlossarySectionSchema (path ++ ["howItWorks"]) (entry_get "howItWorks" secs);
      zoptional GlossarySectionSchema (path ++ ["whatYouShouldDo"])
        (entry_get "whatYouShouldDo" secs);
      zoptional GlossarySectionSchema (path ++ ["troubleshooting"])
        (entry_get "troubleshooting" secs);
      zstrict section_keys path secs ].

(** [GlossaryTermSchema] *)
Definition GlossaryTermSchema (path : list string) (t : GlossaryTerm) : Parsed :=
  parsed_all
    [ zstring
        [ check_regex KEBAB_CASE_REGEX id_format_message;
          check_min 1 (Some "ID cannot be empty");
          check_max 100 (Some "ID must not exceed 100 characters") ]
        (path ++ ["id"]) (id t);
      zstring
        [ check_min 1 (Some "Title cannot be empty");
          check_max 200 (Some "Title must not exceed 200 characters") ]
        (path ++ ["title"]) (title t);
      zenum VALID_CATEGORIES (path ++ ["category"]) (category t);
      SectionsSchema (path ++ ["sections"]) (sections t);
      zarray (zstring [ check_min 1 None; check_max 100 None ])
        (path ++ ["synonyms"]) (synonyms t);
      zarray
        (zstring
           [ check_regex TAG_PATTERN "Tags must be lowercase with hyphens only";
             check_min 1 None;
             check_max 50 None ])
        (path ++ ["tags"]) (tags t);
      zarray SemanticRelationshipSchema (path ++ ["relationships"]) (relationships t);
      zstring
        [ check_regex ISO_DATE_REGEX
            (String.append "createdAt must be in ISO 8601 format (e.g., "
               (String.append (String (ascii_of_nat 34) "2024-01-01T00:00:00Z")
                  (String (ascii_of_nat 34) ")"))) ]
        (path ++ ["createdAt"]) (createdAt t);
      zstring
        [ check_regex ISO_DATE_REGEX
            (String.append "updatedAt must be in ISO 8601 format (e.g., "
               (String.append (String (ascii_of_nat 34) "2024-01-01T00:00:00Z")
                  (String (ascii_of_nat 34) ")"))) ]
        (path ++ ["updatedAt"]) (updatedAt t) ].

(** The refinement of the [terms] array:
    [ids.length === new Set(ids).size]. *)
Definition ids_unique (ts : list GlossaryTerm) : bool :=
  let ids := map id ts in
  let uniqueIds : gset string := list_to_set ids in
  (length ids =? size uniqueIds)%nat.

(** [GlossaryBatchSchema] *)
Definition GlossaryBatchSchema (b : GlossaryBatch) : Parsed :=
  let path := ["terms"] in
  let min1 :=
    if (length (terms b) <? 1)%nat
    then [issue_at path min_terms_message] else [] in
  let inner := parsed_and (false, min1) (zarray GlossaryTermSchema path (terms b)) in
  if fst inner then inner
  else if ids_unique (terms b) then inner
  else (false, snd inner ++ [issue_at path unique_ids_message]).

End Zod.

(** ** Messages of the validator ([validate-batch]) *)

(** One constructor per message template of the source.  [LoadError] is
    pushed to [errors] when the batch file cannot be loaded, the next
    four by the structural passes ([ZodError] and [ZodFailure] are the
    two branches of the handler of [validateZodSchema]),
    [UnknownReference] by the cross-reference pass; the last three are
    pushed to [warnings]. *)
Inductive Message : Type :=
| LoadError (detail : string)
| JsonSchemaError (path message : string)
| JsonSchemaFailure (detail : string)
| ZodError (path message : string)
| ZodFailure (detail : string)
| UnknownReference (term target : string)
| MarkdownWarning (term sectionName name : string)
| CategoryWarning (category : string) (count : nat)
| NewCategoryWarning (category : string) (count : nat).

Definition quoted (s : string) : string :=
  String (ascii_of_nat 34) (String.append s (String (ascii_of_nat 34) EmptyString)).

Definition render (m : Message) : string :=
  match m with
  | LoadError detail => String.concat EmptyString ["Failed to load file: "; detail]
  | JsonSchemaError path message =>
      String.concat EmptyString ["JSON Schema Error at "; path; ": "; message]
  | JsonSchemaFailure detail =>
      String.concat EmptyString ["Failed to validate JSON Schema: "; detail]
  | ZodError path message =>
      String.concat EmptyString ["Zod Error at "; path; ": "; message]
  | ZodFailure detail =>
      String.concat EmptyString ["Zod validation failed: "; detail]
  | UnknownReference term target =>
      String.concat EmptyString
        ["Term "; quoted term; " references unknown term "; quoted target;
         " in relationships"]
  | MarkdownWarning term sectionName name =>
      String.concat EmptyString
        ["Term "; quoted term; " section "; quoted sectionName; " contains "; name;
         " - plain text only!"]
  | CategoryWarning category count =>
      String.concat EmptyString
        ["Category "; quoted category; " has only "; pretty count;
         " term(s) - need 4+ for quiz generation. Add "; pretty (4 - count)%nat;
         " more term(s)."]
  | NewCategoryWarning category count =>
      String.concat EmptyString
        ["NEW category "; quoted category; " introduced with only "; pretty count;
         " term(s) - add "; pretty (4 - count)%nat; " more in this batch or next."]
  end.

(** The blocking kinds and the advisory kinds of the error taxonomy. *)
Definition is_structural (m : Message) : bool :=
  match m with
  | JsonSchemaError _ _ | JsonSchemaFailure _ | ZodError _ _ | ZodFailure _ => true
  | _ => false
  end.

Definition is_cross_reference (m : Message) : bool :=
  match m with UnknownReference _ _ => true | _ => false end.

Definition is_quiz_readiness (m : Message) : bool :=
  match m with CategoryWarning _ _ | NewCategoryWarning _ _ => true | _ => false end.

Definition is_markdown (m : Message) : bool :=
  match m with MarkdownWarning _ _ _ => true | _ => false end.

Record ValidationResult : Type := {
  valid : bool;
  errors : list Message;
  warnings : list Message;
  termCount : nat;
  categories : list string
}.

(** ** Files and effects

    The files the two scripts touch, after [JSON.parse], the reading of the
    clock and the working directory.  Console output is not modelled. *)

Inductive FileState (A : Type) : Type :=
| NoFile
| Garbled (detail : string)       (* reading or [JSON.parse] throws this message *)
| Holds (doc : A).
Arguments NoFile {A}.
Arguments Garbled {A} detail.
Arguments Holds {A} doc.

Record World : Type := {
  batch_files : string -> FileState GlossaryBatch;
  (* glossaryData.json; [data.terms] may be undefined *)
  glossaryData : FileState (option (list GlossaryTerm));
  (* data/manifest.json *)
  manifest_json : FileState BatchManifest;
  (* what [new Date().toISOString()] returns *)
  clock : string;
  (* [process.cwd()] *)
  cwd : string
}.

Definition IO (A : Type) : Type := World -> A * World.

Definition ret {A : Type} (a : A) : IO A := fun w => (a, w).

Definition bind {A B : Type} (m : IO A) (k : A -> IO B) : IO B :=
  fun w => let (a, w') := m w in k a w'.

Notation "'do' x <- m ; k" := (bind m (fun x => k))
  (at level 10, x name, m at level 100, k at level 200).

Definition gets {A : Type} (f : World -> A) : IO A := fun w => (f w, w).

Definition existsSync {A : Type} (file : World -> FileState A) : IO bool :=
  gets (fun w => match file w with NoFile => false | _ => true end).

Definition enoent (path : string) : string :=
  String.concat EmptyString ["ENOENT: no such file or directory, open '"; path; "'"].

(** [fs.readFileSync] followed by [JSON.parse]: the message thrown, or the
    document. *)
Definition readJson {A : Type} (path : string) (file : World -> FileState A)
    : IO (string + A) :=
  gets (fun w =>
    match file w with
    | NoFile => inl (enoent path)
    | Garbled detail => inl detail
    | Holds doc => inr doc
    end).

(** [fs.writeFileSync] of the manifest, in a working directory whose
    [data] directory exists and can be written: the world has no
    directories, and a write that throws is outside the model. *)
Definition saveManifest (m : BatchManifest) : IO unit :=
  fun w =>
    (tt, {| batch_files := batch_files w;
            glossaryData := glossaryData w;
            manifest_json := Holds m;
            clock := clock w;
            cwd := cwd w |}).

(** The world with another [glossaryData.json]. *)
Definition set_glossaryData (g : FileState (option (list GlossaryTerm))) (w : World)
    : World :=
  {| batch_files := batch_files w;
     glossaryData := g;
     manifest_json := manifest_json w;
     clock := clock w;
     cwd := cwd w |}.

(** The world at another reading of the clock. *)
Definition set_clock (now : string) (w : World) : World :=
  {| batch_files := batch_files w;
     glossaryData := glossaryData w;
     manifest_json := manifest_json w;
     clock := now;
     cwd := cwd w |}.

(** ** The validator ([validate-batch]) *)

(** One error of Ajv: [instancePath] and [message]. *)
Record AjvError : Type := { instancePath : string; ajv_message : option string }.

(** [x || fallback] on strings: the empty string is falsy. *)
Definition or_else (x fallback : string) : string :=
  if String.eqb x EmptyString then fallback else x.

(** The patterns [checkForMarkdown] declares, with their names. *)
Definition markdownPatterns : list (RegExp * string) :=
  [ (re_bold, "bold (**text**)");
    (re_italic_star, "italic (*text*)");
    (re_italic_underscore, "italic (_text_)");
    (re_header, "headers (#)");
    (re_link, "links ([text](url))");
    (re_image, "images (![alt](url))") ].

(** [checkForMarkdown] *)
Definition checkForMarkdown (batch : GlossaryBatch) : list Message :=
  flat_map (fun term =>
    flat_map (fun '(sectionName, section) =>
      if String.eqb (content section) EmptyString then []
      else
        flat_map (fun '(pattern, name) =>
          if test pattern (content section)
          then [MarkdownWarning (id term) sectionName name] else [])
          markdownPatterns)
      (sections term))
    (terms batch).

(** [validateCrossReferences] *)
Definition validateCrossReferences (batch : GlossaryBatch)
    (existingTerms : list GlossaryTerm) : list Message :=
  let batchTermIds : gset string := list_to_set (map id (terms batch)) in
  let existingTermIds : gset string := list_to_set (map id existingTerms) in
  let allTermIds : gset string := batchTermIds ∪ existingTermIds in
  let errors :=
    flat_map (fun term =>
      flat_map (fun rel =>
        if bool_decide (termId rel ∈ allTermIds) then []
        else [UnknownReference (id term) (termId rel)])
        (relationships term))
      (terms batch) in
  errors ++ [].

(** A JavaScript [Map] from strings to numbers: its entries in insertion
    order, which is the order [forEach] visits them in. *)
Definition CountMap : Type := list (string * nat).

Definition map_get (m : CountMap) (key : string) : option nat := entry_get key m.

Fixpoint map_set (m : CountMap) (key : string) (v : nat) : CountMap :=
  match m with
  | [] => [(key, v)]
  | (k, x) :: rest =>
      if String.eqb k key then (k, v) :: rest else (k, x) :: map_set rest key v
  end.

(** [categoryCounts.set(term.category, (categoryCounts.get(term.category) || 0) + 1)] *)
Definition count_term (categoryCounts : CountMap) (term : GlossaryTerm) : CountMap :=
  map_set categoryCounts (category term)
    (default 0%nat (map_get categoryCounts (category term)) + 1)%nat.

(** [checkQuizRequirements] *)
Definition checkQuizRequirements (batch : GlossaryBatch)
    (existingTerms : list GlossaryTerm) : list Message :=
  let categoryCounts := fold_left count_term existingTerms [] in
  let categoryCounts := fold_left count_term (terms batch) categoryCounts in
  let generic :=
    flat_map (fun '(category, count) =>
      if (count <? 4)%nat then [CategoryWarning category count] else [])
      categoryCounts in
  let newCategories :=
    List.filter (fun cat =>
      negb (existsb (fun t => String.eqb (category t) cat) existingTerms))
      (map category (terms batch)) in
  let uniqueNewCategories := unique newCategories in
  let introduced :=
    flat_map (fun category0 =>
      let newCategoryCount :=
        length (List.filter (fun t => String.eqb (category t) category0) (terms batch)) in
      if (newCategoryCount <? 4)%nat
      then [NewCategoryWarning category0 newCategoryCount] else [])
      uniqueNewCategories in
  generic ++ introduced.

(** The error object that [parse] throws: its [issues], its [errors]
    (a property of the errors of Zod 3 only) and its [message]. *)
Record ZodErrorObject : Type := {
  error_issues : list ZodIssue;
  error_errors : option (list ZodIssue);
  error_message : string
}.

Section Validator.

Variable defaultErrorMap : ZodIssueCode -> string.

(** The message of the [ZodError] thrown on a document: the JSON text
    that Zod makes of its issues. *)
Variable ZodError_message : GlossaryBatch -> string.

(** The JSON-Schema pass of Ajv over [schemas/batch.schema.json]: the
    message of what the [try] block throws ([None] when the thrown value
    is not an [Error]), or the errors Ajv reports for the document. *)
Variable ajv : GlossaryBatch -> option string + list AjvError.

(** [validateJsonSchema] *)
Definition validateJsonSchema (data : GlossaryBatch) : list Message :=
  match ajv data with
  | inr errs =>
      map (fun error =>
        JsonSchemaError (or_else (instancePath error) "/")
          (or_else (default EmptyString (ajv_message error)) "Unknown error"))
        errs
  | inl thrown => [JsonSchemaFailure (default "Unknown error" thrown)]
  end.

(** [GlossaryBatchSchema.parse(data)]: the error it throws, if any.  The
    schema module chains [.min] on the result of [.refine], which only
    the schemas of Zod 4 allow; the [ZodError] of Zod 4 carries the
    issues and, as its message, their JSON text, and has no [errors]
    property. *)
Definition GlossaryBatchSchema_parse (data : GlossaryBatch) : option ZodErrorObject :=
  match snd (GlossaryBatchSchema defaultErrorMap data) with
  | [] => None
  | issues =>
      Some {| error_issues := issues;
              error_errors := None;
              error_message := ZodError_message data |}
  end.

(** [validateZodSchema]: the handler pushes one message per element of
    [error.errors] when the error has that property, and otherwise a
    single message with [error.message]. *)
Definition validateZodSchema (data : GlossaryBatch) : list Message :=
  match GlossaryBatchSchema_parse data with
  | None => []
  | Some error =>
      match error_errors error with
      | Some errs =>
          map (fun err =>
                 ZodError (String.concat "." (issue_path err)) (issue_message err))
            errs
      | None => [ZodFailure (or_else (error_message error) "Unknown error")]
      end
  end.

(** [loadJsonFile] of the validator, which wraps what is thrown. *)
Definition loadJsonFile {A : Type} (path : string) (file : World -> FileState A)
    : IO (string + A) :=
  do r <- readJson path file;
  ret match r with
      | inl detail => inl (String.append "Failed to load JSON file: " detail)
      | inr doc => inr doc
      end.

(** [loadExistingTerms] *)
Definition loadExistingTerms : IO (list GlossaryTerm) :=
  do present <- existsSync glossaryData;
  if negb present then ret []
  else
    do r <- loadJsonFile "glossaryData.json" glossaryData;
    ret match r with
        | inl _ => []
        | inr data => default [] data
        end.

(** The corpus the validator sees in a world: what [loadExistingTerms]
    returns there. *)
Definition corpus (w : World) : list GlossaryTerm := fst (loadExistingTerms w).

(** The errors of the two structural passes, in the order they are pushed. *)
Definition structuralErrors (data : GlossaryBatch) : list Message :=
  validateJsonSchema data ++ validateZodSchema data.

(** [validateBatch] *)
Definition validateBatch (filePath : string) : IO ValidationResult :=
  do loaded <- loadJsonFile filePath (fun w => batch_files w filePath);
  match loaded with
  | inl detail =>
      ret {| valid := false; errors := [LoadError detail]; warnings := [];
             termCount := 0; categories := [] |}
  | inr data =>
      let jsonSchemaErrors := validateJsonSchema data in
      let zodErrors := validateZodSchema data in
      let errors1 := jsonSchemaErrors ++ zodErrors in
      if (0 <? length errors1)%nat then
        ret {| valid := false; errors := errors1; warnings := [];
               termCount := 0; categories := [] |}
      else
        let batch := data in
        let markdownWarnings := checkForMarkdown batch in
        do existingTerms <- loadExistingTerms;
        let crossRefErrors := validateCrossReferences batch existingTerms in
        let errors2 := errors1 ++ crossRefErrors in
        let quizWarnings := checkQuizRequirements batch existingTerms in
        let warnings2 := markdownWarnings ++ quizWarnings in
        ret {| valid := (length errors2 =? 0)%nat;
               errors := errors2;
               warnings := warnings2;
               termCount := length (terms batch);
               categories := unique (map category (terms batch)) |}
  end.

End Validator.

(** ** The manifest merger ([update-manifest]) *)

(** [Array.prototype.findIndex]; [None] stands for -1. *)
Fixpoint findIndex {A : Type} (p : A -> bool) (xs : list A) : option nat :=
  match xs with
  | [] => None
  | x :: xs' => if p x then Some 0%nat else option_map S (findIndex p xs')
  end.

(** [s.replace(/\\/g, '/')] *)
Fixpoint replace_backslashes (s : string) : string :=
  match s with
  | EmptyString => EmptyString
  | String c s' =>
      String (if Ascii.eqb c (ascii_of_nat 92) then ascii_of_nat 47 else c)
        (replace_backslashes s')
  end.

Section Manifest.

(** [path.basename(p, ext)] and [path.relative(from, to)] of Node. *)
Variable basename : string -> string -> string.
Variable relative : string -> string -> string.

(** [new Date(s).getTime()]; [None] stands for NaN. *)
Variable Date_getTime : string -> option Z.

(** [extractBatchId] *)
Definition extractBatchId (filePath : string) : string :=
  let filename := basename filePath ".json" in
  filename.

(** [createManifestEntry] *)
Definition createManifestEntry (batchPath : string) (batch : GlossaryBatch)
    : IO BatchManifestEntry :=
  let batchId := extractBatchId batchPath in
  let categories0 := unique (map category (terms batch)) in
  do dir <- gets cwd;
  do now <- gets clock;
  ret {| entry_id := batchId;
         entry_path := replace_backslashes (relative dir batchPath);
         entry_createdAt := now;
         entry_termCount := length (terms batch);
         entry_categories := categories0 |}.

(** The comparator of [sortManifest]:
    [new Date(b.createdAt).getTime() - new Date(a.createdAt).getTime()]. *)
Definition compareFn (a b : BatchManifestEntry) : option Z :=
  match Date_getTime (entry_createdAt b), Date_getTime (entry_createdAt a) with
  | Some tb, Some ta => Some (tb - ta)%Z
  | _, _ => None
  end.

(** [SortCompare] of [Array.prototype.sort]: a NaN result counts as +0. *)
Definition SortCompare (a b : BatchManifestEntry) : Z := default 0%Z (compareFn a b).

(** [Array.prototype.sort] is stable.  For a comparator that is a
    consistent ordering, which [compareFn] is when every date is valid,
    every stable sort yields the same array; it is computed here by
    insertion, an element staying in front of the later elements it does
    not compare greater than.  With an invalid date the comparator is not
    consistent and the order is left to the implementation: the function
    then gives one rearrangement of the entries, which need not be the
    one of every engine. *)
Fixpoint sort_insert (x : BatchManifestEntry) (sorted : list BatchManifestEntry)
    : list BatchManifestEntry :=
  match sorted with
  | [] => [x]
  | y :: rest =>
      if (SortCompare x y <=? 0)%Z then x :: y :: rest
      else y :: sort_insert x rest
  end.

Definition array_sort (xs : list BatchManifestEntry) : list BatchManifestEntry :=
  fold_right sort_insert [] xs.

(** [sortManifest] *)
Definition sortManifest (manifest : BatchManifest) : BatchManifest :=
  {| batches := array_sort (batches manifest) |}.

(** The upsert of [updateManifest]: replace at the index of the first
    entry with the id, or push. *)
Definition upsert (entry : BatchManifestEntry) (manifest : BatchManifest)
    : BatchManifest :=
  let existingIndex :=
    findIndex (fun b => String.eqb (entry_id b) (entry_id entry)) (batches manifest) in
  match existingIndex with
  | Some i => {| batches := <[i := entry]> (batches manifest) |}
  | None => {| batches := batches manifest ++ [entry] |}
  end.

(** [updateManifest]: [inl] is the message of the exception it throws,
    in which case nothing has been written. *)
Definition updateManifest (batchPath : string) : IO (string + unit) :=
  do loaded <- readJson batchPath (fun w => batch_files w batchPath);
  match loaded with
  | inl thrown => ret (inl thrown)
  | inr batch =>
      do present <- existsSync manifest_json;
      do current <-
        (if present then readJson "data/manifest.json" manifest_json
         else ret (inr {| batches := [] |}));
      match current with
      | inl thrown => ret (inl thrown)
      | inr manifest =>
          do entry <- createManifestEntry batchPath batch;
          let manifest1 := upsert entry manifest in
          let manifest2 := sortManifest manifest1 in
          do _ <- saveManifest manifest2;
          ret (inr tt)
      end
  end.

(** The manifest [updateManifest] starts from: the empty one when the
    file is absent, none when the file cannot be parsed. *)
Definition manifest_of (w : World) : option BatchManifest :=
  match manifest_json w with
  | NoFile => Some {| batches := [] |}
  | Garbled _ => None
  | Holds m => Some m
  end.

(** The entry [createManifestEntry] builds in a world. *)
Definition entry_for (batchPath : string) (batch : GlossaryBatch) (w : World)
    : BatchManifestEntry :=
  fst (createManifestEntry batchPath batch w).

(** [a] is not older than [b], both dates being valid. *)
Definition not_older (a b : BatchManifestEntry) : Prop :=
  match Date_getTime (entry_createdAt a), Date_getTime (entry_createdAt b) with
  | Some ta, Some tb => (tb <= ta)%Z
  | _, _ => False
  end.

(** Descending by [createdAt]. *)
Definition newest_first (entries : list BatchManifestEntry) : Prop :=
  StronglySorted not_older entries.

Definition dated (e : BatchManifestEntry) : Prop :=
  Date_getTime (entry_createdAt e) <> None.

(** The entry carries the time value [t]. *)
Definition has_time (t : Z) (e : BatchManifestEntry) : bool :=
  match Date_getTime (entry_createdAt e) with
  | Some u => (u =? t)%Z
  | None => false
  end.

End Manifest.

(** The dates of the manifest file, in the order of its entries. *)
Definition manifest_dates (w : World) : list string :=
  match manifest_json w with
  | Holds m => map entry_createdAt (batches m)
  | _ => []
  end.

(** The number of entries of a manifest with a batch id. *)
Definition idCount (i : string) (entries : list BatchManifestEntry) : nat :=
  length (List.filter (fun e => String.eqb (entry_id e) i) entries).

(** ** Time values of ISO timestamps

    The time value of a UTC timestamp [YYYY-MM-DDTHH:mm:ss(.sss)Z] whose
    fields are in range; this is the format [toISOString] produces and the
    manifest schema requires.  Other strings are left without a time value. *)

Definition digit_value (c : ascii) : option Z :=
  let n := nat_of_ascii c in
  if ((48 <=? n) && (n <=? 57))%nat then Some (Z.of_nat (n - 48)) else None.

Fixpoint number_from (acc : Z) (cs : list ascii) : option Z :=
  match cs with
  | [] => Some acc
  | c :: cs' =>
      match digit_value c with
      | Some d => number_from (10 * acc + d)%Z cs'
      | None => None
      end
  end.

Definition field (cs : list ascii) (from len : nat) : option Z :=
  let part := firstn len (skipn from cs) in
  if (length part =? len)%nat then number_from 0%Z part else None.

Definition is_leap (y : Z) : bool :=
  ((y mod 4 =? 0) && negb (y mod 100 =? 0) || (y mod 400 =? 0))%Z.

Definition days_in_month (y m : Z) : Z :=
  if (m =? 2)%Z then (if is_leap y then 29 else 28)%Z
  else if ((m =? 4) || (m =? 6) || (m =? 9) || (m =? 11))%Z then 30%Z
  else 31%Z.

(** Days from 1970-01-01 to the civil date [y-m-d]. *)
Definition days_from_civil (y m d : Z) : Z :=
  let y' := (if m <=? 2 then y - 1 else y)%Z in
  let era := (y' / 400)%Z in
  let yoe := (y' - era * 400)%Z in
  let mp := ((m + 9) mod 12)%Z in
  let doy := ((153 * mp + 2) / 5 + d - 1)%Z in
  let doe := (yoe * 365 + yoe / 4 - yoe / 100 + doy)%Z in
  (era * 146097 + doe - 719468)%Z.

Definition iso_getTime (s : string) : option Z :=
  if negb (test ISO_DATE_REGEX s) then None
  else
    let cs := list_ascii_of_string s in
    match field cs 0 4, field cs 5 2, field cs 8 2,
          field cs 11 2, field cs 14 2, field cs 17 2 with
    | Some y, Some mo, Some d, Some h, Some mi, Some sec =>
        let ms := (if (length cs =? 24)%nat then default 0%Z (field cs 20 3) else 0%Z) in
        if ((1 <=? mo) && (mo <=? 12) && (1 <=? d) && (d <=? days_in_month y mo)
            && (h <=? 23) && (mi <=? 59) && (sec <=? 59))%Z
        then Some ((((days_from_civil y mo d * 24 + h) * 60 + mi) * 60 + sec) * 1000 + ms)%Z
        else None
    | _, _, _, _, _, _ => None
    end.

(** [path.basename(p, ext)] on POSIX paths without a trailing separator:
    the part after the last [/], without the suffix [ext] when the name is
    longer than [ext]. *)
Fixpoint last_component (acc : list ascii) (cs : list ascii) : list ascii :=
  match cs with
  | [] => acc
  | c :: cs' =>
      if Ascii.eqb c "/" then last_component [] cs' else last_component (acc ++ [c]) cs'
  end.

Definition ascii_list_eqb (u v : list ascii) : bool :=
  String.eqb (string_of_list_ascii u) (string_of_list_ascii v).

Definition posix_basename (p ext : string) : string :=
  let name := last_component [] (list_ascii_of_string p) in
  let e := list_ascii_of_string ext in
  let n := (length name - length e)%nat in
  if ((length e <? length name)%nat && ascii_list_eqb (skipn n name) e)%bool
  then string_of_list_ascii (firstn n name)
  else string_of_list_ascii name.

(** [path.relative(from, to)] when [to] is already relative to [from]. *)
Definition relative_id (from to : string) : string := to.

(** ** Counting *)

(** The number of terms of a category in a list of terms. *)
Definition categoryCount (c : string) (ts : list GlossaryTerm) : nat :=
  length (List.filter (fun t => String.eqb (category t) c) ts).

(** ** Example documents *)

(** An error map for the examples; the texts of Zod's own map play no
    part in the properties, which hold for every map. *)
Definition example_error_map (code : ZodIssueCode) : string :=
  match code with
  | too_small n =>
      String.concat EmptyString ["String must contain at least "; pretty n; " character(s)"]
  | too_big n =>
      String.concat EmptyString ["String must contain at most "; pretty n; " character(s)"]
  | invalid_enum_value _ received =>
      String.concat EmptyString ["Invalid enum value, received '"; received; "'"]
  | invalid_type_required => "Required"
  | unrecognized_keys keys =>
      String.concat EmptyString
        ["Unrecognized key(s) in object: "; String.concat ", " keys]
  end.

(** A stand-in for the JSON text of the issues of a document. *)
Definition example_error_message (data : GlossaryBatch) : string :=
  String.concat EmptyString
    ["["; String.concat ", "
            (map (fun iss =>
                    String.concat EmptyString
                      [String.concat "." (issue_path iss); ": "; issue_message iss])
               (snd (GlossaryBatchSchema example_error_map data)));
     "]"].

(** A JSON-Schema pass that reports nothing. *)
Definition ajv_accepts (data : GlossaryBatch) : option string + list AjvError := inr [].

Fixpoint replicate_char (n : nat) (c : ascii) : string :=
  match n with
  | O => EmptyString
  | S n' => String c (replicate_char n' c)
  end.

Definition section_of (text : string) : GlossarySection := {| content := text |}.

Definition plain_text : string :=
  "A standard nominal altitude of an aircraft, in hundreds of feet.".

Definition related_to (target : string) : SemanticRelationship :=
  {| termId := target; type := "related"; description := None |}.

Definition make_term (i cat text : string) (rels : list SemanticRelationship)
    : GlossaryTerm :=
  {| id := i; title := i; category := cat;
     sections := [("whatItIs", section_of text)];
     synonyms := []; tags := []; relationships := rels;
     createdAt := "2025-01-01T00:00:00Z"; updatedAt := "2025-01-01T00:00:00Z" |}.

Definition only_file {A : Type} (path : string) (doc : A) : string -> FileState A :=
  fun p => if String.eqb p path then Holds doc else NoFile.

Definition make_world (path : string) (b : GlossaryBatch)
    (published : list GlossaryTerm) (manifest : FileState BatchManifest)
    (now : string) : World :=
  {| batch_files := only_file path b;
     glossaryData := Holds (Some published);
     manifest_json := manifest;
     clock := now;
     cwd := "/repo" |}.

(** Four published navigation terms. *)
Definition navigation_corpus : list GlossaryTerm :=
  [ make_term "vor" "Navigation" plain_text [];
    make_term "ndb" "Navigation" plain_text [];
    make_term "dme" "Navigation" plain_text [];
    make_term "ils" "Navigation" plain_text [] ].

(** A batch of one navigation term with the given definition text. *)
Definition batch_with_text (text : string) : GlossaryBatch :=
  {| terms := [make_term "flight-level" "Navigation" text []] |}.

Definition world_with_text (text : string) : World :=
  make_world "batch.json" (batch_with_text text) navigation_corpus NoFile
    "2025-02-01T00:00:00.000Z".

(** Plain texts of 241 and of 2001 characters. *)
Definition text_241 : string := replicate_char 241 "a".
Definition text_2001 : string := replicate_char 2001 "a".



(** A manifest with a January and a March entry, and a world in which the
    batch of the first of February is merged. *)
Definition manifest_entry (i now : string) : BatchManifestEntry :=
  {| entry_id := i;
     entry_path := String.concat EmptyString ["data/batches/"; i; ".json"];
     entry_createdAt := now;
     entry_termCount := 1;
     entry_categories := ["Navigation"] |}.

Definition january : string := "2025-01-01T00:00:00.000Z".
Definition february : string := "2025-02-01T00:00:00.000Z".
Definition march : string := "2025-03-01T00:00:00.000Z".

Definition winter_manifest : BatchManifest :=
  {| batches := [ manifest_entry "2025-01-01-batch-001" january;
                  manifest_entry "2025-03-01-batch-001" march ] |}.

(** A timestamp of the form the manifest schema asks for that is no
    date, and a manifest with such an entry between January and March. *)
Definition thirteenth_month : string := "2025-13-01T00:00:00Z".

Definition undated_manifest : BatchManifest :=
  {| batches := [ manifest_entry "2025-01-01-batch-001" january;
                  manifest_entry "2025-13-01-batch-001" thirteenth_month;
                  manifest_entry "2025-03-01-batch-001" march ] |}.

Definition february_path : string := "data/batches/2025-02-01-batch-001.json".

Definition february_world (manifest : FileState BatchManifest) : World :=
  make_world february_path (batch_with_text plain_text) navigation_corpus manifest february.

(** A term that refers to itself, to a published term and to an unknown one. *)
Definition reference_batch : GlossaryBatch :=
  {| terms :=
       [ make_term "flight-level" "Navigation" plain_text
           [ related_to "flight-level"; related_to "vor";
             related_to "transition-altitude" ] ] |}.

Definition reference_world : World :=
  make_world "batch.json" reference_batch navigation_corpus NoFile february.

(** A term that refers only to itself. *)
Definition self_reference_batch : GlossaryBatch :=
  {| terms := [ make_term "flight-level" "Navigation" plain_text
                  [ related_to "flight-level" ] ] |}.

(** A term whose id is not in kebab case. *)
Definition flight_level_batch : GlossaryBatch :=
  {| terms := [ make_term "Flight_Level" "Navigation" plain_text [] ] |}.

Definition flight_level_world : World :=
  make_world "batch.json" flight_level_batch navigation_corpus (Holds winter_manifest)
    february.

(** Two well-formed terms with the same id. *)
Definition duplicate_batch : GlossaryBatch :=
  {| terms := [ make_term "flight-level" "Navigation" plain_text [];
                make_term "flight-level" "Weather" plain_text [] ] |}.

Definition duplicate_world : World :=
  make_world "batch.json" duplicate_batch navigation_corpus NoFile february.

(** Five published navigation terms, and two terms of a category the
    corpus lacks. *)
Definition five_navigation_terms : list GlossaryTerm :=
  make_term "gps" "Navigation" plain_text [] :: navigation_corpus.

Definition weather_batch : GlossaryBatch :=
  {| terms := [ make_term "metar" "Weather" plain_text [];
                make_term "taf" "Weather" plain_text [] ] |}.

(** ** The command lines *)

Module ValidateBatch.

(** [main] of the validator, for the arguments after the script name: the
    exit code of the process. *)
Definition main (defaultErrorMap : ZodIssueCode -> string)
    (ZodError_message : GlossaryBatch -> string)
    (ajv : GlossaryBatch -> option string + list AjvError)
    (args : list string) : IO nat :=
  match args with
  | [] => ret 1%nat
  | filePath :: _ =>
      do present <- existsSync (fun w => batch_files w filePath);
      if negb present then ret 1%nat
      else
        do result <- validateBatch defaultErrorMap ZodError_message ajv filePath;
        if negb (valid result) then ret 1%nat
        else if (0 <? length (warnings result))%nat then ret 0%nat
        else ret 0%nat
  end.

End ValidateBatch.

Module UpdateManifest.

(** [main] of the manifest merger: the exit code of the process. *)
Definition main (basename relative : string -> string -> string)
    (Date_getTime : string -> option Z) (args : list string) : IO nat :=
  match args with
  | [] => ret 1%nat
  | batchPath :: _ =>
      do present <- existsSync (fun w => batch_files w batchPath);
      if negb present then ret 1%nat
      else
        do outcome <- updateManifest basename relative Date_getTime batchPath;
        match outcome with
        | inl _ => ret 1%nat
        | inr _ => ret 0%nat
        end
  end.

End UpdateManifest.

(** ** The Zod schema of the manifest ([glossaryBatch.zod]) *)

(** The issues of the manifest schema, none of which has a message of its
    own in the schema. *)
Inductive ManifestIssueCode : Type :=
| invalid_string_regex
| too_small_number (minimum : nat).

Section ManifestSchema.

Variable defaultErrorMap : ZodIssueCode -> string.
Variable manifestErrorMap : ManifestIssueCode -> string.

(** [z.number().int().min(n)] on a count. *)
Definition znumber_min (n : nat) (path : list string) (x : nat) : Parsed :=
  (false,
   if (x <? n)%nat then [issue_at path (manifestErrorMap (too_small_number n))] else []).

(** [BatchManifestEntrySchema] *)
Definition BatchManifestEntrySchema (path : list string) (e : BatchManifestEntry) : Parsed :=
  parsed_all
    [ zstring defaultErrorMap [ check_min 1 None ] (path ++ ["id"]) (entry_id e);
      zstring defaultErrorMap [ check_min 1 None ] (path ++ ["path"]) (entry_path e);
      zstring defaultErrorMap
        [ check_regex ISO_DATE_REGEX (manifestErrorMap invalid_string_regex) ]
        (path ++ ["createdAt"]) (entry_createdAt e);
      znumber_min 1 (path ++ ["termCount"]) (entry_termCount e);
      zarray (zenum defaultErrorMap VALID_CATEGORIES) (path ++ ["categories"])
        (entry_categories e) ].

(** [BatchManifestSchema] *)
Definition BatchManifestSchema (m : BatchManifest) : Parsed :=
  zarray BatchManifestEntrySchema ["batches"] (batches m).

End ManifestSchema.

(** ** What the batch schema asks of a document *)

Definition length_between (lo hi : nat) (s : string) : Prop :=
  lo <= String.length s /\ String.length s <= hi.

Definition section_ok (s : GlossarySection) : Prop :=
  containsMarkdown (content s) = false /\ length_between 10 2000 (content s).

Definition relationship_ok (r : SemanticRelationship) : Prop :=
  test KEBAB_CASE_REGEX (termId r) = true /\
  length_between 1 100 (termId r) /\
  includes RELATIONSHIP_TYPES (type r) = true /\
  (forall d, description r = Some d -> length_between 10 500 d).

Definition sections_ok (secs : list (string * GlossarySection)) : Prop :=
  (exists s, entry_get "whatItIs" secs = Some s) /\
  (forall k, In k (map fst secs) -> includes section_keys k = true) /\
  (forall k s, includes section_keys k = true -> entry_get k secs = Some s -> section_ok s).

Definition tag_ok (tag : string) : Prop :=
  test TAG_PATTERN tag = true /\ length_between 1 50 tag.

Definition term_ok (t : GlossaryTerm) : Prop :=
  test KEBAB_CASE_REGEX (id t) = true /\
  length_between 1 100 (id t) /\
  length_between 1 200 (title t) /\
  includes VALID_CATEGORIES (category t) = true /\
  sections_ok (sections t) /\
  Forall (length_between 1 100) (synonyms t) /\
  Forall tag_ok (tags t) /\
  Forall relationship_ok (relationships t) /\
  test ISO_DATE_REGEX (createdAt t) = true /\
  test ISO_DATE_REGEX (updatedAt t) = true.

Definition batch_ok (b : GlossaryBatch) : Prop :=
  terms b <> [] /\ List.NoDup (map id (terms b)) /\ Forall term_ok (terms b).

(** ** Words of segments *)

(** The segments joined by single hyphens. *)
Fixpoint join_hyphen (segments : list (list ascii)) : list ascii :=
  match segments with
  | [] => []
  | [seg] => seg
  | seg :: rest => seg ++ "-"%char :: join_hyphen rest
  end.

(** A non-empty word of lowercase letters and digits. *)
Definition alnum_segment (seg : list ascii) : Prop :=
  seg <> [] /\ Forall (fun c => class_mem lower_or_digit c = true) seg.

(** Two hyphens in a row somewhere in the word. *)
Fixpoint adjacent_hyphens (w : list ascii) : bool :=
  match w with
  | c :: ((d :: _) as w') =>
      (Ascii.eqb c "-" && Ascii.eqb d "-") || adjacent_hyphens w'
  | _ => false
  end.

(** ** What the manifest schema asks of an entry *)

Definition entry_ok (e : BatchManifestEntry) : Prop :=
  1 <= String.length (entry_id e) /\
  1 <= String.length (entry_path e) /\
  test ISO_DATE_REGEX (entry_createdAt e) = true /\
  1 <= entry_termCount e /\
  Forall (fun c => includes VALID_CATEGORIES c = true) (entry_categories e).

(** The entries of the other batches. *)
Definition other_entries (i : string) (entries : list BatchManifestEntry)
    : list BatchManifestEntry :=
  List.filter (fun e => negb (String.eqb (entry_id e) i)) entries.

(** A backslash somewhere in the string. *)
Fixpoint has_backslash (s : string) : bool :=
  match s with
  | EmptyString => false
  | String c s' => Ascii.eqb c (ascii_of_nat 92) || has_backslash s'
  end.

(** [n] decimal digits. *)
Definition digits (n : nat) (w : list ascii) : Prop :=
  length w = n /\ Forall (fun c => class_mem CDigit c = true) w.

(** ** More example documents *)

(** A JSON-Schema pass whose compilation throws. *)
Definition ajv_throws (data : GlossaryBatch) : option string + list AjvError :=
  inl (Some "schema is invalid").

Definition example_manifest_error_map (code : ManifestIssueCode) : string :=
  match code with
  | invalid_string_regex => "Invalid"
  | too_small_number n =>
      String.concat EmptyString ["Number must be greater than or equal to "; pretty n]
  end.

Definition weather_world : World :=
  make_world "batch.json" weather_batch navigation_corpus NoFile february.

(** A world whose generated glossary is missing. *)
Definition world_without_glossary : World :=
  set_glossaryData NoFile (world_with_text plain_text).

(** A batch file without terms. *)
Definition empty_batch : GlossaryBatch := {| terms := [] |}.

Definition empty_batch_world : World :=
  make_world "data/batches/empty.json" empty_batch navigation_corpus NoFile february.

(** * Properties *)

(** ** The matcher decides the words of a pattern *)

Lemma matches_Void (w : list ascii) : ~ matches Void w.
Proof. intros H. inversion H. Qed.

Lemma matches_Eps (w : list ascii) : matches Eps w <-> w = [].
Proof. split; [intros H; inversion H; reflexivity | intros ->; constructor]. Qed.

Lemma matches_Seq (r s : regex) (w : list ascii) :
  matches (Seq r s) w <-> exists u v, w = u ++ v /\ matches r u /\ matches s v.
Proof.
  split.
  - intros H. inversion H; subst. eauto.
  - intros (u & v & -> & Hu & Hv). constructor; assumption.
Qed.

Lemma matches_Alt (r s : regex) (w : list ascii) :
  matches (Alt r s) w <-> matches r w \/ matches s w.
Proof.
  split.
  - intros H. inversion H; subst; auto.
  - intros [H | H]; [apply m_alt_l | apply m_alt_r]; exact H.
Qed.

Lemma nullable_spec (r : regex) : nullable r = true <-> matches r [].
Proof.
  induction r as [| | k | r IHr s IHs | r IHr s IHs | r IHr]; simpl.
  - split; [discriminate | intros H; inversion H].
  - split; [constructor | reflexivity].
  - split; [discriminate | intros H; inversion H].
  - rewrite andb_true_iff, IHr, IHs, matches_Seq. split.
    + intros [Hr Hs]. exists [], []. auto.
    + intros (u & v & Huv & Hu & Hv). symmetry in Huv.
      apply app_eq_nil in Huv as [-> ->]. auto.
  - rewrite orb_true_iff, IHr, IHs, matches_Alt. reflexivity.
  - split; [constructor | reflexivity].
Qed.

Lemma seq'_spec (r s : regex) (w : list ascii) :
  matches (seq' r s) w <-> matches (Seq r s) w.
Proof.
  assert (forall a, matches Void w <-> matches (Seq Void a) w) as HvoidL.
  { intros a. split; intros H; [inversion H |].
    apply matches_Seq in H as (u & v & _ & Hu & _). inversion Hu. }
  assert (forall a, matches Void w <-> matches (Seq a Void) w) as HvoidR.
  { intros a. split; intros H; [inversion H |].
    apply matches_Seq in H as (u & v & _ & _ & Hv). inversion Hv. }
  assert (forall a, matches a w <-> matches (Seq Eps a) w) as Heps.
  { intros a. rewrite matches_Seq. split.
    - intros H. exists [], w. repeat split; [constructor | exact H].
    - intros (u & v & -> & Hu & Hv). apply matches_Eps in Hu as ->. exact Hv. }
  destruct r; destruct s; simpl; auto; reflexivity.
Qed.

Lemma alt'_spec (r s : regex) (w : list ascii) :
  matches (alt' r s) w <-> matches (Alt r s) w.
Proof.
  rewrite matches_Alt.
  destruct r; destruct s; simpl; rewrite ?matches_Alt;
    pose proof (matches_Void w); tauto.
Qed.

Lemma matches_Star_cons (r : regex) (c : ascii) (w : list ascii) :
  matches (Star r) (c :: w) <->
  exists u v, w = u ++ v /\ matches r (c :: u) /\ matches (Star r) v.
Proof.
  split.
  - intros H. remember (Star r) as sr eqn:Esr. remember (c :: w) as cw eqn:Ecw.
    revert w Ecw.
    induction H as [| | | | | | r0 u v Hu _ Hv IHv]; intros w Ecw; try discriminate.
    injection Esr as ->.
    destruct u as [|a u]; simpl in Ecw.
    + apply IHv; [reflexivity | exact Ecw].
    + injection Ecw as -> <-. exists u, v. auto.
  - intros (u & v & -> & Hu & Hv).
    change (c :: u ++ v) with ((c :: u) ++ v). apply m_star_cons; assumption.
Qed.

Lemma deriv_spec (c : ascii) (r : regex) (w : list ascii) :
  matches (deriv c r) w <-> matches r (c :: w).
Proof.
  revert w. induction r as [| | k | r IHr s IHs | r IHr s IHs | r IHr]; intros w; simpl.
  - split; intros H; inversion H.
  - split; intros H; inversion H.
  - destruct (class_mem k c) eqn:Hk.
    + rewrite matches_Eps. split.
      * intros ->. constructor. exact Hk.
      * intros H. inversion H. reflexivity.
    + split; intros H; inversion H; congruence.
  - assert (matches (Seq (deriv c r) s) w <->
            exists u v, w = u ++ v /\ matches r (c :: u) /\ matches s v) as Hhead.
    { rewrite matches_Seq. split; intros (u & v & Hw & Hu & Hv); exists u, v;
        (split; [exact Hw |]); (split; [apply IHr; exact Hu | exact Hv]). }
    rewrite matches_Seq.
    destruct (nullable r) eqn:Hn.
    + rewrite alt'_spec, matches_Alt, seq'_spec, Hhead, IHs. split.
      * intros [(u & v & -> & Hu & Hv) | Hs].
        -- exists (c :: u), v. auto.
        -- exists [], (c :: w). repeat split; [apply nullable_spec; exact Hn | exact Hs].
      * intros (u & v & Hw & Hu & Hv). destruct u as [|a u]; simpl in Hw.
        -- right. rewrite Hw. exact Hv.
        -- injection Hw as <- ->. left. exists u, v. auto.
    + rewrite seq'_spec, Hhead. split.
      * intros (u & v & -> & Hu & Hv). exists (c :: u), v. auto.
      * intros (u & v & Hw & Hu & Hv). destruct u as [|a u]; simpl in Hw.
        -- apply nullable_spec in Hu. congruence.
        -- injection Hw as <- ->. exists u, v. auto.
  - rewrite alt'_spec, !matches_Alt, IHr, IHs. reflexivity.
  - rewrite seq'_spec, matches_Seq, matches_Star_cons.
    split; intros (u & v & Hw & Hu & Hv); exists u, v;
      (split; [exact Hw |]); (split; [apply IHr; exact Hu | exact Hv]).
Qed.

(** [/^r$/.test(w)] holds exactly for the words of [r]. *)
Lemma full_match_spec (r : regex) (w : list ascii) :
  full_match r w = true <-> matches r w.
Proof.
  revert r. induction w as [|c w IH]; intros r; simpl.
  - apply nullable_spec.
  - rewrite IH. apply deriv_spec.
Qed.

Lemma prefix_match_spec (r : regex) (w : list ascii) :
  prefix_match r w = true <-> exists u v, w = u ++ v /\ matches r u.
Proof.
  revert r. induction w as [|c w IH]; intros r; simpl; rewrite orb_true_iff, nullable_spec.
  - split.
    + intros [H | H]; [| discriminate]. exists [], []. auto.
    + intros (u & v & Huv & Hu). left. symmetry in Huv.
      apply app_eq_nil in Huv as [-> _]. exact Hu.
  - rewrite IH. split.
    + intros [H | (u & v & -> & Hu)].
      * exists [], (c :: w). auto.
      * exists (c :: u), v. split; [reflexivity | apply deriv_spec; exact Hu].
    + intros (u & v & Huv & Hu). destruct u as [|a u]; simpl in Huv.
      * left. exact Hu.
      * injection Huv as <- ->. right. exists u, v.
        split; [reflexivity | apply deriv_spec; exact Hu].
Qed.

(** [/r/.test(w)] holds exactly when a factor of [w] is a word of [r]. *)
Lemma search_spec (r : regex) (w : list ascii) :
  search r w = true <-> exists p u v, w = p ++ u ++ v /\ matches r u.
Proof.
  induction w as [|c w IH]; cbn [search]; rewrite orb_true_iff, prefix_match_spec.
  - split.
    + intros [(u & v & Huv & Hu) | H]; [| discriminate]. exists [], u, v. auto.
    + intros (p & u & v & Hw & Hu). left. destruct p; [| discriminate].
      exists u, v. auto.
  - rewrite IH. split.
    + intros [(u & v & Huv & Hu) | (p & u & v & -> & Hu)].
      * exists [], u, v. auto.
      * exists (c :: p), u, v. auto.
    + intros (p & u & v & Hw & Hu). destruct p as [|a p]; simpl in Hw.
      * left. exists u, v. auto.
      * injection Hw as <- ->. right. exists p, u, v. auto.
Qed.

(** ** Generic facts about the list operations used by the model *)

Lemma in_flat_map_iff {A B : Type} (f : A -> list B) (l : list A) (y : B) :
  In y (flat_map f l) <-> exists x, In x l /\ In y (f x).
Proof. apply in_flat_map. Qed.

Lemma flat_map_nil_iff {A B : Type} (f : A -> list B) (l : list A) :
  flat_map f l = [] <-> forall x, In x l -> f x = [].
Proof.
  induction l as [|a l IH]; simpl.
  - split; [intros _ x [] | reflexivity].
  - split.
    + intros H. apply app_eq_nil in H as [Ha Hl].
      intros x [<- | Hx]; [exact Ha | apply IH; assumption].
    + intros H. rewrite (H a (or_introl eq_refl)).
      simpl. apply IH. intros x Hx. apply H. right; exact Hx.
Qed.

(** ** The validator reads files and writes none *)

Section Frame.

Variable defaultErrorMap : ZodIssueCode -> string.
Variable ZodError_message : GlossaryBatch -> string.
Variable ajv : GlossaryBatch -> option string + list AjvError.

Local Notation "'structuralErrors'" := (structuralErrors defaultErrorMap ZodError_message ajv).

Lemma loadExistingTerms_frame (w : World) : snd (loadExistingTerms w) = w.
Proof.
  unfold loadExistingTerms, loadJsonFile, readJson, existsSync, gets, bind, ret.
  destruct (glossaryData w) eqn:E; simpl; rewrite ?E; reflexivity.
Qed.

Lemma corpus_eq (w : World) :
  corpus w =
  match glossaryData w with
  | Holds (Some ts) => ts
  | _ => []
  end.
Proof.
  unfold corpus, loadExistingTerms, loadJsonFile, readJson, existsSync, gets, bind, ret.
  destruct (glossaryData w) as [| d | [ts|]] eqn:E; simpl; rewrite ?E; reflexivity.
Qed.

Lemma loadExistingTerms_run (w : World) : loadExistingTerms w = (corpus w, w).
Proof.
  rewrite (surjective_pairing (loadExistingTerms w)).
  rewrite loadExistingTerms_frame. reflexivity.
Qed.

(** The three ways [validateBatch] returns. *)
Lemma validateBatch_unloadable (filePath : string) (w : World) :
  (forall data, batch_files w filePath <> Holds data) ->
  exists detail,
    validateBatch defaultErrorMap ZodError_message ajv filePath w =
    ({| valid := false; errors := [LoadError detail]; warnings := [];
        termCount := 0; categories := [] |}, w).
Proof.
  intros Hno.
  unfold validateBatch, loadJsonFile, readJson, gets, bind, ret.
  destruct (batch_files w filePath) as [| d | data] eqn:E.
  - eexists; reflexivity.
  - eexists; reflexivity.
  - exfalso. apply (Hno data). reflexivity.
Qed.

Lemma validateBatch_rejected (filePath : string) (w : World) (data : GlossaryBatch) :
  batch_files w filePath = Holds data ->
  structuralErrors data <> [] ->
  validateBatch defaultErrorMap ZodError_message ajv filePath w =
  ({| valid := false; errors := structuralErrors data; warnings := [];
      termCount := 0; categories := [] |}, w).
Proof.
  intros Hfile Hne.
  unfold validateBatch, loadJsonFile, readJson, gets, bind, ret.
  rewrite Hfile. fold (structuralErrors data).
  destruct (structuralErrors data) as [|m ms]; [congruence | reflexivity].
Qed.

Lemma validateBatch_structurally_valid (filePath : string) (w : World)
    (data : GlossaryBatch) :
  batch_files w filePath = Holds data ->
  structuralErrors data = [] ->
  validateBatch defaultErrorMap ZodError_message ajv filePath w =
  ({| valid := (length (validateCrossReferences data (corpus w)) =? 0)%nat;
      errors := validateCrossReferences data (corpus w);
      warnings := checkForMarkdown data ++ checkQuizRequirements data (corpus w);
      termCount := length (terms data);
      categories := unique (map category (terms data)) |}, w).
Proof.
  intros Hfile Hnil.
  unfold validateBatch, loadJsonFile, readJson, gets, bind, ret.
  rewrite Hfile. fold (structuralErrors data). rewrite Hnil. simpl.
  rewrite loadExistingTerms_run. reflexivity.
Qed.

Lemma validateBatch_frame (filePath : string) (w : World) :
  snd (validateBatch defaultErrorMap ZodError_message ajv filePath w) = w.
Proof.
  destruct (batch_files w filePath) as [| d | data] eqn:E.
  - destruct (validateBatch_unloadable filePath w) as [detail ->]; [congruence | reflexivity].
  - destruct (validateBatch_unloadable filePath w) as [detail ->]; [congruence | reflexivity].
  - destruct (structuralErrors data) as [|m ms] eqn:Es.
    + rewrite (validateBatch_structurally_valid filePath w data E Es). reflexivity.
    + rewrite (validateBatch_rejected filePath w data E); [reflexivity | congruence].
Qed.

End Frame.

(** ** Cross-reference resolution *)

Section CrossReferences.

Variable batch : GlossaryBatch.
Variable existingTerms : list GlossaryTerm.

(** The identifier universe: batch ids and corpus ids. *)
Lemma universe_spec (x : string) :
  x ∈ (list_to_set (map id (terms batch)) ∪ list_to_set (map id existingTerms) : gset string)
  <-> In x (map id (terms batch)) \/ In x (map id existingTerms).
Proof.
  rewrite elem_of_union, !elem_of_list_to_set, !list_elem_of_In. reflexivity.
Qed.

Lemma validateCrossReferences_In (m : Message) :
  In m (validateCrossReferences batch existingTerms) <->
  exists term rel,
    In term (terms batch) /\ In rel (relationships term) /\
    ~ (In (termId rel) (map id (terms batch)) \/ In (termId rel) (map id existingTerms)) /\
    m = UnknownReference (id term) (termId rel).
Proof.
  unfold validateCrossReferences. rewrite app_nil_r.
  rewrite in_flat_map_iff. split.
  - intros (term & Hterm & Hm). apply in_flat_map_iff in Hm as (rel & Hrel & Hm).
    exists term, rel. case_bool_decide as Hin.
    + destruct Hm.
    + destruct Hm as [<- | []]. rewrite universe_spec in Hin. auto.
  - intros (term & rel & Hterm & Hrel & Hout & ->).
    exists term. split; [exact Hterm |]. apply in_flat_map_iff.
    exists rel. split; [exact Hrel |].
    case_bool_decide as Hin.
    + rewrite universe_spec in Hin. contradiction.
    + left; reflexivity.
Qed.

Lemma validateCrossReferences_kind :
  Forall (fun m => is_cross_reference m = true)
    (validateCrossReferences batch existingTerms).
Proof.
  apply List.Forall_forall. intros m Hm.
  apply validateCrossReferences_In in Hm as (term & rel & _ & _ & _ & ->).
  reflexivity.
Qed.

Lemma validateCrossReferences_nil :
  validateCrossReferences batch existingTerms = [] <->
  forall term rel, In term (terms batch) -> In rel (relationships term) ->
    In (termId rel) (map id (terms batch)) \/ In (termId rel) (map id existingTerms).
Proof.
  split.
  - intros Hnil term rel Hterm Hrel.
    destruct (in_dec string_dec (termId rel) (map id (terms batch) ++ map id existingTerms))
      as [Hin | Hout].
    + apply in_app_or in Hin. exact Hin.
    + exfalso.
      assert (In (UnknownReference (id term) (termId rel))
                (validateCrossReferences batch existingTerms)) as Hm.
      { apply validateCrossReferences_In. exists term, rel.
        repeat split; try assumption.
        intros H. apply Hout. apply in_or_app. exact H. }
      rewrite Hnil in Hm. destruct Hm.
  - intros Hall.
    destruct (validateCrossReferences batch existingTerms) as [|m ms] eqn:E; [reflexivity |].
    assert (In m (validateCrossReferences batch existingTerms)) as Hm
      by (rewrite E; left; reflexivity).
    apply validateCrossReferences_In in Hm as (term & rel & Hterm & Hrel & Hout & _).
    exfalso. apply Hout. apply Hall with term; assumption.
Qed.

End CrossReferences.

(** ** The cross-reference claims *)

Section CrossReferenceClaims.

Variable defaultErrorMap : ZodIssueCode -> string.
Variable ZodError_message : GlossaryBatch -> string.
Variable ajv : GlossaryBatch -> option string + list AjvError.

(** C3.  For every batch and corpus, a relationship of a batch term yields
    a cross-reference error, naming the term and the missing target,
    exactly when its [termId] is neither a batch id nor a corpus id, so
    that the error is gone once the target is in either; the resolver
    reports nothing else; and in the report of a structurally valid batch
    these errors are the errors, any of them making the batch invalid. *)
Theorem C3_cross_reference_errors
    (batch : GlossaryBatch) (existingTerms : list GlossaryTerm) :
  let found := validateCrossReferences batch existingTerms in
  (forall term rel, In term (terms batch) -> In rel (relationships term) ->
     (In (UnknownReference (id term) (termId rel)) found <->
      ~ (In (termId rel) (map id (terms batch)) \/
         In (termId rel) (map id existingTerms)))) /\
  (forall m, In m found ->
     exists term rel, In term (terms batch) /\ In rel (relationships term) /\
       m = UnknownReference (id term) (termId rel)) /\
  (forall filePath w,
     batch_files w filePath = Holds batch ->
     structuralErrors defaultErrorMap ZodError_message ajv batch = [] ->
     corpus w = existingTerms ->
     let report := fst (validateBatch defaultErrorMap ZodError_message ajv filePath w) in
     errors report = found /\
     (valid report = true <-> found = []) /\
     (forall m, In m found -> valid report = false)).
Proof.
  intros found. subst found. split; [| split].
  - intros term rel Hterm Hrel. split.
    + intros Hin. apply validateCrossReferences_In in Hin
        as (term' & rel' & _ & _ & Hout & Heq).
      injection Heq as _ Htarget. rewrite Htarget. exact Hout.
    + intros Hout. apply validateCrossReferences_In. exists term, rel. auto.
  - intros m Hm. apply validateCrossReferences_In in Hm
      as (term & rel & Hterm & Hrel & _ & ->). eauto.
  - intros filePath w Hfile Hvalid Hcorpus report. subst report.
    rewrite (validateBatch_structurally_valid defaultErrorMap ZodError_message ajv filePath w batch
               Hfile Hvalid).
    simpl. rewrite Hcorpus.
    destruct (validateCrossReferences batch existingTerms) as [|e es]; simpl.
    + split; [reflexivity |]. split; [tauto | intros m []].
    + split; [reflexivity |]. split; [split; discriminate | reflexivity].
Qed.

(** C10.  A relationship that points at the term carrying it is never
    reported, whatever the corpus; a batch with only such relationships
    passes cross-reference resolution. *)
Theorem C10_self_reference
    (batch : GlossaryBatch) (existingTerms : list GlossaryTerm)
    (term : GlossaryTerm) (rel : SemanticRelationship) :
  In term (terms batch) ->
  In rel (relationships term) ->
  termId rel = id term ->
  ~ In (UnknownReference (id term) (termId rel))
      (validateCrossReferences batch existingTerms) /\
  ((forall t r, In t (terms batch) -> In r (relationships t) -> termId r = id t) ->
   validateCrossReferences batch existingTerms = []).
Proof.
  intros Hterm Hrel Hself. split.
  - intros Hin. apply validateCrossReferences_In in Hin
      as (term' & rel' & _ & _ & Hout & Heq).
    injection Heq as _ Htarget. apply Hout. left.
    rewrite <- Htarget, Hself. apply in_map. exact Hterm.
  - intros Hall. apply validateCrossReferences_nil.
    intros t r Ht Hr. left. rewrite (Hall t r Ht Hr). apply in_map. exact Ht.
Qed.

End CrossReferenceClaims.

(** ** The Zod pass *)

Lemma size_list_to_set_le (l : list string) :
  size (list_to_set l : gset string) <= length l.
Proof.
  induction l as [|x l IH].
  - rewrite list_to_set_nil, size_empty. simpl. lia.
  - rewrite list_to_set_cons, size_union_alt, size_singleton.
    assert (size ((list_to_set l : gset string) ∖ {[x]}) <= size (list_to_set l : gset string))
      as Hle by (apply subseteq_size, subseteq_difference_l; reflexivity).
    simpl. lia.
Qed.

Lemma length_eq_size_NoDup (l : list string) :
  length l = size (list_to_set l : gset string) <-> List.NoDup l.
Proof.
  split.
  - induction l as [|x l IH]; intros Hsz.
    + constructor.
    + rewrite list_to_set_cons in Hsz. simpl in Hsz.
      destruct (in_dec string_dec x l) as [Hin | Hout].
      * exfalso.
        assert (({[x]} ∪ list_to_set l : gset string) = list_to_set l) as Heq.
        { apply set_eq. intros y. rewrite elem_of_union, elem_of_singleton.
          rewrite elem_of_list_to_set. split; [| auto].
          intros [-> | H]; [apply list_elem_of_In; exact Hin | exact H]. }
        rewrite Heq in Hsz. pose proof (size_list_to_set_le l). lia.
      * constructor; [exact Hout |]. apply IH.
        rewrite size_union in Hsz.
        -- rewrite size_singleton in Hsz. lia.
        -- apply disjoint_singleton_l. rewrite elem_of_list_to_set, list_elem_of_In.
           exact Hout.
  - intros Hnd. symmetry. apply size_list_to_set. apply NoDup_ListNoDup. exact Hnd.
Qed.

Lemma ids_unique_spec (ts : list GlossaryTerm) :
  ids_unique ts = true <-> List.NoDup (map id ts).
Proof.
  unfold ids_unique. rewrite Nat.eqb_eq. apply length_eq_size_NoDup.
Qed.

Lemma parsed_all_issues (ps : list Parsed) :
  snd (parsed_all ps) = flat_map snd ps.
Proof.
  induction ps as [|p ps IH]; simpl; [reflexivity | rewrite IH; reflexivity].
Qed.

Lemma parsed_all_aborted (ps : list Parsed) :
  fst (parsed_all ps) = existsb fst ps.
Proof.
  induction ps as [|p ps IH]; simpl; [reflexivity | rewrite IH; reflexivity].
Qed.

(** An aborted value has an issue. *)
Definition accounted (p : Parsed) : Prop := fst p = true -> snd p <> [].

Lemma accounted_all (ps : list Parsed) :
  Forall accounted ps -> accounted (parsed_all ps).
Proof.
  intros Hall. unfold accounted. rewrite parsed_all_aborted, parsed_all_issues.
  intros Hab. apply existsb_exists in Hab as (p & Hp & Hfst).
  intros Hnil. rewrite flat_map_nil_iff in Hnil.
  rewrite List.Forall_forall in Hall. apply (Hall p Hp Hfst). apply Hnil. exact Hp.
Qed.

Lemma In_imap {A B : Type} (f : nat -> A -> B) (l : list A) (y : B) :
  In y (imap f l) <-> exists i x, l !! i = Some x /\ y = f i x.
Proof.
  rewrite <- list_elem_of_In, elem_of_lookup_imap.
  split; intros (i & x & H1 & H2); exists i, x; auto.
Qed.

Section ZodFacts.

Variable defaultErrorMap : ZodIssueCode -> string.

Local Notation "'TermSchema'" := (GlossaryTermSchema defaultErrorMap).

Lemma zarray_issue {A : Type} (elem : list string -> A -> Parsed)
    (path : list string) (xs : list A) (i : nat) (x : A) (iss : ZodIssue) :
  xs !! i = Some x ->
  In iss (snd (elem (path ++ [pretty i]) x)) ->
  In iss (snd (zarray elem path xs)).
Proof.
  intros Hi Hin. unfold zarray. rewrite parsed_all_issues.
  apply in_flat_map_iff. exists (elem (path ++ [pretty i]) x). split; [| exact Hin].
  apply In_imap. exists i, x. auto.
Qed.

Lemma zarray_clean {A : Type} (elem : list string -> A -> Parsed)
    (path : list string) (xs : list A) :
  (forall i x, xs !! i = Some x -> elem (path ++ [pretty i]) x = parsed_ok) ->
  zarray elem path xs = parsed_ok.
Proof.
  intros Hall. unfold zarray.
  apply injective_projections.
  - rewrite parsed_all_aborted. simpl.
    apply not_true_is_false. intros Hex.
    apply existsb_exists in Hex as (p & Hp & Hfst).
    apply In_imap in Hp as (i & x & Hi & ->). rewrite (Hall i x Hi) in Hfst. discriminate.
  - rewrite parsed_all_issues. simpl. apply flat_map_nil_iff.
    intros p Hp. apply In_imap in Hp as (i & x & Hi & ->). rewrite (Hall i x Hi). reflexivity.
Qed.

Lemma zarray_accounted {A : Type} (elem : list string -> A -> Parsed)
    (path : list string) (xs : list A) :
  (forall p x, accounted (elem p x)) -> accounted (zarray elem path xs).
Proof.
  intros Hall. unfold zarray. apply accounted_all.
  apply List.Forall_forall. intros p Hp. apply In_imap in Hp as (i & x & _ & ->). apply Hall.
Qed.

Lemma zstring_accounted checks path s : accounted (zstring defaultErrorMap checks path s).
Proof. unfold accounted. simpl. discriminate. Qed.

Lemma zenum_accounted options path s : accounted (zenum defaultErrorMap options path s).
Proof. unfold accounted, zenum. destruct (includes options s); simpl; discriminate. Qed.

Lemma zoptional_accounted {A : Type} (schema : list string -> A -> Parsed) path x :
  (forall p a, accounted (schema p a)) -> accounted (zoptional schema path x).
Proof. intros H. destruct x; simpl; [apply H | unfold accounted; simpl; discriminate]. Qed.

Lemma zrequired_accounted {A : Type} (schema : list string -> A -> Parsed) path x :
  (forall p a, accounted (schema p a)) -> accounted (zrequired defaultErrorMap schema path x).
Proof. intros H. destruct x; simpl; [apply H | unfold accounted; simpl; discriminate]. Qed.

Lemma zstrict_accounted {A : Type} shape path (entries : list (string * A)) :
  accounted (zstrict defaultErrorMap shape path entries).
Proof.
  unfold accounted, zstrict.
  destruct (List.filter _ _); simpl; discriminate.
Qed.

Lemma GlossarySectionSchema_accounted path s :
  accounted (GlossarySectionSchema defaultErrorMap path s).
Proof. apply zstring_accounted. Qed.

Lemma SemanticRelationshipSchema_accounted path r :
  accounted (SemanticRelationshipSchema defaultErrorMap path r).
Proof.
  unfold SemanticRelationshipSchema. apply accounted_all.
  repeat constructor.
  - apply zstring_accounted.
  - apply zenum_accounted.
  - apply zoptional_accounted. intros; apply zstring_accounted.
Qed.

Lemma GlossaryTermSchema_accounted path t : accounted (TermSchema path t).
Proof.
  unfold GlossaryTermSchema. apply accounted_all.
  repeat constructor;
    try apply zstring_accounted; try apply zenum_accounted.
  - unfold SectionsSchema. apply accounted_all.
    repeat constructor;
      try (apply zoptional_accounted; intros; apply GlossarySectionSchema_accounted).
    + apply zrequired_accounted. intros; apply GlossarySectionSchema_accounted.
    + apply zstrict_accounted.
  - apply zarray_accounted. intros; apply zstring_accounted.
  - apply zarray_accounted. intros; apply zstring_accounted.
  - apply zarray_accounted. intros; apply SemanticRelationshipSchema_accounted.
Qed.

(** The issues of the terms are issues of the batch. *)
Lemma GlossaryBatchSchema_term_issue (b : GlossaryBatch) (i : nat) (t : GlossaryTerm)
    (iss : ZodIssue) :
  terms b !! i = Some t ->
  In iss (snd (TermSchema ["terms"; pretty i] t)) ->
  In iss (snd (GlossaryBatchSchema defaultErrorMap b)).
Proof.
  intros Hi Hin.
  assert (In iss (snd (zarray TermSchema ["terms"] (terms b)))) as Harr
    by (apply zarray_issue with i t; assumption).
  unfold GlossaryBatchSchema.
  set (inner := parsed_and _ _).
  assert (In iss (snd inner)) as Hinner by (subst inner; simpl; apply in_or_app; right; exact Harr).
  destruct (fst inner); [exact Hinner |].
  destruct (ids_unique (terms b)); [exact Hinner |].
  simpl. apply in_or_app. left. exact Hinner.
Qed.

Lemma GlossaryBatchSchema_empty (b : GlossaryBatch) :
  terms b = [] ->
  snd (GlossaryBatchSchema defaultErrorMap b) = [issue_at ["terms"] min_terms_message].
Proof.
  intros Hnil. unfold GlossaryBatchSchema. rewrite Hnil. reflexivity.
Qed.

Lemma GlossaryBatchSchema_duplicates (b : GlossaryBatch) :
  ~ List.NoDup (map id (terms b)) ->
  snd (GlossaryBatchSchema defaultErrorMap b) <> [].
Proof.
  intros Hdup. unfold GlossaryBatchSchema.
  set (inner := parsed_and _ _).
  assert (accounted inner) as Hacc.
  { subst inner. unfold accounted, parsed_and. simpl. intros Hab Hnil.
    apply app_eq_nil in Hnil as [_ Hnil].
    revert Hab Hnil. apply zarray_accounted. intros; apply GlossaryTermSchema_accounted. }
  destruct (fst inner) eqn:Hab; [apply Hacc; exact Hab |].
  destruct (ids_unique (terms b)) eqn:Hu.
  - exfalso. apply Hdup. apply ids_unique_spec. exact Hu.
  - simpl. intros Hnil. apply app_eq_nil in Hnil as [_ Hnil]. discriminate.
Qed.

Lemma GlossaryBatchSchema_only_duplicates (b : GlossaryBatch) :
  (forall i t, terms b !! i = Some t -> TermSchema ["terms"; pretty i] t = parsed_ok) ->
  ~ List.NoDup (map id (terms b)) ->
  snd (GlossaryBatchSchema defaultErrorMap b) = [issue_at ["terms"] unique_ids_message].
Proof.
  intros Hclean Hdup. unfold GlossaryBatchSchema.
  rewrite (zarray_clean TermSchema ["terms"] (terms b)) by exact Hclean.
  destruct (ids_unique (terms b)) eqn:Hu.
  - exfalso. apply Hdup. apply ids_unique_spec. exact Hu.
  - destruct (terms b) as [|t ts]; [| reflexivity].
    exfalso. apply Hdup. constructor.
Qed.

End ZodFacts.

(** ** The structural phase of the pipeline *)

Section Structural.

Variable defaultErrorMap : ZodIssueCode -> string.
Variable ZodError_message : GlossaryBatch -> string.
Variable ajv : GlossaryBatch -> option string + list AjvError.

Local Notation "'run'" := (validateBatch defaultErrorMap ZodError_message ajv).

Lemma validateJsonSchema_kind (data : GlossaryBatch) :
  Forall (fun m => is_structural m = true) (validateJsonSchema ajv data).
Proof.
  unfold validateJsonSchema. destruct (ajv data) as [thrown | errs].
  - repeat constructor.
  - apply List.Forall_forall. intros m Hm. apply in_map_iff in Hm as (e & <- & _). reflexivity.
Qed.

(** The Zod pass reports nothing exactly when [parse] collects no issue. *)
Lemma validateZodSchema_nil (data : GlossaryBatch) :
  validateZodSchema defaultErrorMap ZodError_message data = [] <->
  snd (GlossaryBatchSchema defaultErrorMap data) = [].
Proof.
  unfold validateZodSchema, GlossaryBatchSchema_parse.
  destruct (snd (GlossaryBatchSchema defaultErrorMap data)); simpl;
    split; intros H; discriminate || reflexivity.
Qed.

(** When [parse] collects issues it throws them in one error, of which
    the handler reports the message. *)
Lemma validateZodSchema_thrown (data : GlossaryBatch) :
  snd (GlossaryBatchSchema defaultErrorMap data) <> [] ->
  GlossaryBatchSchema_parse defaultErrorMap ZodError_message data =
    Some {| error_issues := snd (GlossaryBatchSchema defaultErrorMap data);
            error_errors := None;
            error_message := ZodError_message data |} /\
  validateZodSchema defaultErrorMap ZodError_message data =
    [ZodFailure (or_else (ZodError_message data) "Unknown error")].
Proof.
  intros Hne. unfold validateZodSchema, GlossaryBatchSchema_parse.
  destruct (snd (GlossaryBatchSchema defaultErrorMap data)) as [|iss rest];
    [congruence |].
  split; reflexivity.
Qed.

Lemma validateZodSchema_kind (data : GlossaryBatch) :
  Forall (fun m => is_structural m = true)
    (validateZodSchema defaultErrorMap ZodError_message data).
Proof.
  destruct (snd (GlossaryBatchSchema defaultErrorMap data)) as [|iss rest] eqn:E.
  - rewrite (proj2 (validateZodSchema_nil data) E). constructor.
  - destruct (validateZodSchema_thrown data) as [_ ->]; [congruence |].
    repeat constructor.
Qed.

Lemma structuralErrors_kind (data : GlossaryBatch) :
  Forall (fun m => is_structural m = true) (structuralErrors defaultErrorMap ZodError_message ajv data).
Proof.
  unfold structuralErrors. apply List.Forall_app. split.
  - apply validateJsonSchema_kind.
  - apply validateZodSchema_kind.
Qed.

(** An issue of [parse] makes the structural phase report the errors of
    the JSON-Schema pass followed by the one message of the Zod pass. *)
Lemma structuralErrors_thrown (data : GlossaryBatch) (iss : ZodIssue) :
  In iss (snd (GlossaryBatchSchema defaultErrorMap data)) ->
  structuralErrors defaultErrorMap ZodError_message ajv data =
    validateJsonSchema ajv data ++
    [ZodFailure (or_else (ZodError_message data) "Unknown error")] /\
  structuralErrors defaultErrorMap ZodError_message ajv data <> [] /\
  exists error,
    GlossaryBatchSchema_parse defaultErrorMap ZodError_message data = Some error /\
    error_errors error = None /\
    error_message error = ZodError_message data /\
    In iss (error_issues error).
Proof.
  intros Hin.
  assert (snd (GlossaryBatchSchema defaultErrorMap data) <> []) as Hne
    by (intros Hnil; rewrite Hnil in Hin; destruct Hin).
  destruct (validateZodSchema_thrown data Hne) as [Hparse Hzod].
  unfold structuralErrors. rewrite Hzod.
  split; [reflexivity |].
  split; [intros Hnil; apply app_eq_nil in Hnil as [_ Hnil]; discriminate |].
  eexists. split; [exact Hparse |]. simpl. auto.
Qed.

(** A document the structural phase rejects is reported the same way
    whatever the corpus file holds. *)
Lemma rejected_any_corpus (filePath : string) (w : World) (data : GlossaryBatch)
    (g : FileState (option (list GlossaryTerm))) :
  batch_files w filePath = Holds data ->
  structuralErrors defaultErrorMap ZodError_message ajv data <> [] ->
  fst (run filePath (set_glossaryData g w)) = fst (run filePath w).
Proof.
  intros Hfile Hne.
  rewrite (validateBatch_rejected defaultErrorMap ZodError_message ajv filePath w data Hfile Hne).
  rewrite (validateBatch_rejected defaultErrorMap ZodError_message ajv filePath
             (set_glossaryData g w) data Hfile Hne).
  reflexivity.
Qed.

(** C4.  When either structural pass reports a violation the report is
    the early one: invalid, with the structural errors of both passes and
    nothing else, no warning, whatever the corpus file holds. *)
Theorem C4_fail_fast (filePath : string) (w : World) (data : GlossaryBatch) :
  batch_files w filePath = Holds data ->
  validateJsonSchema ajv data <> [] \/ validateZodSchema defaultErrorMap ZodError_message data <> [] ->
  let report := fst (run filePath w) in
  report =
    {| valid := false;
       errors := validateJsonSchema ajv data ++ validateZodSchema defaultErrorMap ZodError_message data;
       warnings := []; termCount := 0; categories := [] |} /\
  Forall (fun m => is_structural m = true) (errors report) /\
  (forall m, In m (errors report ++ warnings report) ->
     is_markdown m = false /\ is_cross_reference m = false /\ is_quiz_readiness m = false) /\
  (forall g, fst (run filePath (set_glossaryData g w)) = report).
Proof.
  intros Hfile Hviol report.
  assert (structuralErrors defaultErrorMap ZodError_message ajv data <> []) as Hne.
  { unfold structuralErrors. intros Hnil. apply app_eq_nil in Hnil as [H1 H2].
    destruct Hviol; contradiction. }
  assert (report =
    {| valid := false; errors := structuralErrors defaultErrorMap ZodError_message ajv data;
       warnings := []; termCount := 0; categories := [] |}) as Hrep.
  { subst report.
    rewrite (validateBatch_rejected defaultErrorMap ZodError_message ajv filePath w data Hfile Hne).
    reflexivity. }
  split; [exact Hrep |].
  split; [rewrite Hrep; apply structuralErrors_kind |].
  split.
  - rewrite Hrep. simpl. rewrite app_nil_r. intros m Hm.
    pose proof (structuralErrors_kind data) as Hk.
    rewrite List.Forall_forall in Hk. specialize (Hk m Hm).
    destruct m; simpl in Hk; try discriminate; auto.
  - intros g. subst report. apply rejected_any_corpus with data; assumption.
Qed.

(** C8.  A term whose id is outside the kebab-case pattern makes
    validation fail: [parse] throws an error that carries the format
    issue of that id, and the report is invalid with the errors of the
    JSON-Schema pass followed by the one message of the Zod pass, all of
    them structural; and validation, whatever its outcome, leaves the
    files as they were, the manifest among them. *)
Theorem C8_kebab_case_ids
    (filePath : string) (w : World) (data : GlossaryBatch) (i : nat) (t : GlossaryTerm) :
  batch_files w filePath = Holds data ->
  terms data !! i = Some t ->
  test KEBAB_CASE_REGEX (id t) = false ->
  let report := fst (run filePath w) in
  valid report = false /\
  (exists error,
     GlossaryBatchSchema_parse defaultErrorMap ZodError_message data = Some error /\
     In (issue_at ["terms"; pretty i; "id"] id_format_message) (error_issues error)) /\
  errors report =
    validateJsonSchema ajv data ++
    [ZodFailure (or_else (ZodError_message data) "Unknown error")] /\
  Forall (fun m => is_structural m = true) (errors report) /\
  snd (run filePath w) = w /\
  (forall p w0, manifest_json (snd (run p w0)) = manifest_json w0) /\
  test KEBAB_CASE_REGEX "Flight_Level" = false.
Proof.
  intros Hfile Hi Hid report.
  assert (In (issue_at ["terms"; pretty i; "id"] id_format_message)
            (snd (GlossaryBatchSchema defaultErrorMap data))) as Hissue.
  { apply GlossaryBatchSchema_term_issue with i t; [exact Hi |].
    unfold GlossaryTermSchema. rewrite parsed_all_issues. simpl.
    rewrite Hid. left. reflexivity. }
  destruct (structuralErrors_thrown data _ Hissue)
    as (Herrors & Hne & error & Hparse & _ & _ & Hin).
  subst report.
  rewrite (validateBatch_rejected defaultErrorMap ZodError_message ajv filePath w data
             Hfile Hne).
  cbn [fst snd valid errors].
  split; [reflexivity |].
  split; [exists error; split; [exact Hparse | exact Hin] |].
  split; [exact Herrors |].
  split; [apply structuralErrors_kind |].
  split; [reflexivity |].
  split; [| reflexivity].
  intros p w0. rewrite validateBatch_frame. reflexivity.
Qed.

(** C9.  A batch without terms, or with two terms of the same id, fails
    the structural phase: the Zod pass reports an issue, validation is
    invalid with structural errors only, and the corpus plays no part.
    The error thrown on an empty batch carries exactly the
    at-least-one-term issue, and the one thrown on a batch whose terms
    each parse without issue but share an id carries exactly the
    uniqueness issue; in both cases the Zod pass reports the one message
    of that error. *)
Theorem C9_batch_constraints (filePath : string) (w : World) (data : GlossaryBatch) :
  batch_files w filePath = Holds data ->
  terms data = [] \/ ~ List.NoDup (map id (terms data)) ->
  let report := fst (run filePath w) in
  validateZodSchema defaultErrorMap ZodError_message data <> [] /\
  valid report = false /\
  Forall (fun m => is_structural m = true) (errors report) /\
  (forall g, fst (run filePath (set_glossaryData g w)) = report) /\
  (terms data = [] ->
     GlossaryBatchSchema_parse defaultErrorMap ZodError_message data =
       Some {| error_issues := [issue_at ["terms"] min_terms_message];
               error_errors := None;
               error_message := ZodError_message data |} /\
     validateZodSchema defaultErrorMap ZodError_message data =
       [ZodFailure (or_else (ZodError_message data) "Unknown error")]) /\
  ((forall j t, terms data !! j = Some t ->
      GlossaryTermSchema defaultErrorMap ["terms"; pretty j] t = parsed_ok) ->
   ~ List.NoDup (map id (terms data)) ->
   GlossaryBatchSchema_parse defaultErrorMap ZodError_message data =
     Some {| error_issues := [issue_at ["terms"] unique_ids_message];
             error_errors := None;
             error_message := ZodError_message data |} /\
   validateZodSchema defaultErrorMap ZodError_message data =
     [ZodFailure (or_else (ZodError_message data) "Unknown error")]).
Proof.
  intros Hfile Hbad report.
  assert (validateZodSchema defaultErrorMap ZodError_message data <> []) as Hzod.
  { intros Hnil. apply validateZodSchema_nil in Hnil.
    destruct Hbad as [Hempty | Hdup].
    - rewrite (GlossaryBatchSchema_empty defaultErrorMap data Hempty) in Hnil. discriminate.
    - revert Hnil. apply GlossaryBatchSchema_duplicates. exact Hdup. }
  assert (structuralErrors defaultErrorMap ZodError_message ajv data <> []) as Hne.
  { unfold structuralErrors. intros Hnil. apply app_eq_nil in Hnil as [_ H2]. contradiction. }
  subst report.
  rewrite (validateBatch_rejected defaultErrorMap ZodError_message ajv filePath w data
             Hfile Hne).
  cbn [fst valid errors].
  split; [| split; [| split; [| split; [| split]]]].
  - exact Hzod.
  - reflexivity.
  - apply structuralErrors_kind.
  - intros g. rewrite (rejected_any_corpus filePath w data g Hfile Hne).
    rewrite (validateBatch_rejected defaultErrorMap ZodError_message ajv filePath w data Hfile Hne).
    reflexivity.
  - intros Hempty.
    pose proof (GlossaryBatchSchema_empty defaultErrorMap data Hempty) as Hissues.
    destruct (validateZodSchema_thrown data) as [Hparse Hone];
      [rewrite Hissues; discriminate |].
    rewrite Hissues in Hparse. split; [exact Hparse | exact Hone].
  - intros Hclean Hdup.
    pose proof (GlossaryBatchSchema_only_duplicates defaultErrorMap data Hclean Hdup)
      as Hissues.
    destruct (validateZodSchema_thrown data) as [Hparse Hone];
      [rewrite Hissues; discriminate |].
    rewrite Hissues in Hparse. split; [exact Hparse | exact Hone].
Qed.

End Structural.

(** ** The quiz-readiness audit *)

Lemma map_get_set (m : CountMap) (key key' : string) (v : nat) :
  map_get (map_set m key v) key' =
  if String.eqb key key' then Some v else map_get m key'.
Proof.
  unfold map_get. induction m as [|[k x] m IH]; simpl.
  - destruct (String.eqb_spec key key'); reflexivity.
  - destruct (String.eqb_spec k key) as [-> | Hk]; simpl.
    + destruct (String.eqb_spec key key'); reflexivity.
    + destruct (String.eqb_spec k key') as [-> | Hk'].
      * destruct (String.eqb_spec key key'); [congruence | reflexivity].
      * exact IH.
Qed.

Lemma map_set_keys (m : CountMap) (key : string) (v : nat) (k : string) :
  In k (map fst (map_set m key v)) <-> k = key \/ In k (map fst m).
Proof.
  induction m as [|[k0 x] m IH]; simpl.
  - intuition.
  - destruct (String.eqb_spec k0 key) as [-> | Hk]; simpl.
    + intuition.
    + rewrite IH. intuition.
Qed.

Lemma map_set_NoDup (m : CountMap) (key : string) (v : nat) :
  List.NoDup (map fst m) -> List.NoDup (map fst (map_set m key v)).
Proof.
  induction m as [|[k0 x] m IH]; simpl; intros Hnd.
  - constructor; [intros [] | constructor].
  - inversion Hnd as [|? ? Hout Hnd']; subst.
    destruct (String.eqb_spec k0 key) as [-> | Hk]; simpl.
    + constructor; assumption.
    + constructor; [| apply IH; exact Hnd'].
      rewrite map_set_keys. intros [-> | Hin]; [apply Hk; reflexivity | contradiction].
Qed.

Lemma fold_count_NoDup (ts : list GlossaryTerm) (m : CountMap) :
  List.NoDup (map fst m) -> List.NoDup (map fst (fold_left count_term ts m)).
Proof.
  revert m. induction ts as [|t ts IH]; simpl; intros m Hnd; [exact Hnd |].
  apply IH. apply map_set_NoDup. exact Hnd.
Qed.

Lemma categoryCount_cons (c : string) (t : GlossaryTerm) (ts : list GlossaryTerm) :
  categoryCount c (t :: ts) =
  if String.eqb (category t) c then S (categoryCount c ts) else categoryCount c ts.
Proof.
  unfold categoryCount. simpl. destruct (String.eqb (category t) c); reflexivity.
Qed.

Lemma categoryCount_app (c : string) (ts us : list GlossaryTerm) :
  categoryCount c (ts ++ us) = categoryCount c ts + categoryCount c us.
Proof.
  unfold categoryCount. rewrite List.filter_app, length_app. reflexivity.
Qed.

Lemma categoryCount_zero (c : string) (ts : list GlossaryTerm) :
  categoryCount c ts = 0 <-> ~ In c (map category ts).
Proof.
  induction ts as [|t ts IH]; simpl.
  - split; [intros _ [] | reflexivity].
  - rewrite categoryCount_cons.
    destruct (String.eqb_spec (category t) c) as [-> | Hne].
    + split; [discriminate | intros H; exfalso; apply H; left; reflexivity].
    + rewrite IH. intuition.
Qed.

Lemma existsb_category (c : string) (ts : list GlossaryTerm) :
  existsb (fun t => String.eqb (category t) c) ts = false <-> categoryCount c ts = 0.
Proof.
  induction ts as [|t ts IH]; simpl.
  - split; reflexivity.
  - rewrite categoryCount_cons.
    destruct (String.eqb_spec (category t) c); simpl.
    + split; discriminate.
    + exact IH.
Qed.

(** The count a [Map] holds for a category after the terms are counted. *)
Lemma fold_count_get (ts : list GlossaryTerm) (m : CountMap) (c : string) :
  map_get (fold_left count_term ts m) c =
  if (categoryCount c ts =? 0)%nat then map_get m c
  else Some (default 0 (map_get m c) + categoryCount c ts).
Proof.
  revert m. induction ts as [|t ts IH]; intros m.
  - reflexivity.
  - simpl fold_left. rewrite IH. rewrite categoryCount_cons.
    unfold count_term. rewrite map_get_set.
    destruct (String.eqb_spec (category t) c) as [-> | Hne].
    + destruct (Nat.eqb_spec (categoryCount c ts) 0) as [Hz | Hnz]; simpl;
        try rewrite Hz; f_equal; lia.
    + reflexivity.
Qed.

Lemma counted_get (existingTerms ts : list GlossaryTerm) (c : string) (n : nat) :
  map_get (fold_left count_term ts (fold_left count_term existingTerms [])) c = Some n <->
  n = categoryCount c existingTerms + categoryCount c ts /\ 1 <= n.
Proof.
  rewrite !fold_count_get. simpl.
  destruct (Nat.eqb_spec (categoryCount c ts) 0) as [Hb | Hb];
    destruct (Nat.eqb_spec (categoryCount c existingTerms) 0) as [He | He]; simpl;
    split; intros H; try discriminate; try (injection H as <-); try lia;
    try (f_equal; lia).
Qed.

Lemma entries_get (m : CountMap) (k : string) (v : nat) :
  List.NoDup (map fst m) -> (In (k, v) m <-> map_get m k = Some v).
Proof.
  unfold map_get. induction m as [|[k0 x] m IH]; simpl; intros Hnd.
  - split; [intros [] | discriminate].
  - inversion Hnd as [|? ? Hout Hnd']; subst.
    destruct (String.eqb_spec k0 k) as [-> | Hne].
    + split.
      * intros [Heq | Hin]; [congruence |].
        exfalso. apply Hout. apply in_map_iff. exists (k, v). auto.
      * intros Heq. left. congruence.
    + rewrite <- (IH Hnd'). split; [intros [Heq | Hin]; [congruence | exact Hin] | auto].
Qed.

Lemma unique_In (x : string) (xs : list string) : In x (unique xs) <-> In x xs.
Proof.
  induction xs as [|y xs IH]; simpl; [reflexivity |].
  rewrite filter_In, IH.
  destruct (String.eqb_spec x y) as [-> | Hne]; simpl; intuition congruence.
Qed.

Lemma unique_NoDup (xs : list string) : List.NoDup (unique xs).
Proof.
  induction xs as [|y xs IH]; simpl; constructor.
  - rewrite filter_In. intros [_ H]. rewrite String.eqb_refl in H. discriminate.
  - apply List.NoDup_filter. exact IH.
Qed.

Section QuizAudit.

Variable batch : GlossaryBatch.
Variable existingTerms : list GlossaryTerm.

Lemma generic_warning (c : string) (n : nat) :
  In (CategoryWarning c n) (checkQuizRequirements batch existingTerms) <->
  n = categoryCount c existingTerms + categoryCount c (terms batch) /\ 1 <= n /\ n < 4.
Proof.
  unfold checkQuizRequirements. rewrite in_app_iff, !in_flat_map_iff.
  set (counts := fold_left count_term (terms batch) (fold_left count_term existingTerms [])).
  assert (List.NoDup (map fst counts)) as Hnd
    by (subst counts; do 2 apply fold_count_NoDup; constructor).
  split.
  - intros [([k v] & Hin & Hm) | (k & _ & Hm)].
    + destruct (Nat.ltb_spec v 4) as [Hlt | Hge]; [| destruct Hm].
      destruct Hm as [Heq | []]. injection Heq as -> ->.
      apply (entries_get counts c n Hnd) in Hin. subst counts.
      apply counted_get in Hin. lia.
    + destruct (_ <? 4)%nat; [destruct Hm as [Heq | []]; discriminate | destruct Hm].
  - intros (Hn & H1 & H4). left. exists (c, n). split.
    + apply (entries_get counts c n Hnd). subst counts. apply counted_get. lia.
    + destruct (Nat.ltb_spec n 4); [left; reflexivity | lia].
Qed.

Lemma new_category_warning (c : string) (n : nat) :
  In (NewCategoryWarning c n) (checkQuizRequirements batch existingTerms) <->
  n = categoryCount c (terms batch) /\ categoryCount c existingTerms = 0 /\
  1 <= n /\ n < 4.
Proof.
  unfold checkQuizRequirements. rewrite in_app_iff, !in_flat_map_iff.
  fold (categoryCount c (terms batch)).
  split.
  - intros [([k v] & _ & Hm) | (k & Hk & Hm)].
    + destruct (v <? 4)%nat; [destruct Hm as [Heq | []]; discriminate | destruct Hm].
    + fold (categoryCount k (terms batch)) in Hm.
      destruct (Nat.ltb_spec (categoryCount k (terms batch)) 4) as [Hlt | Hge];
        [| destruct Hm].
      destruct Hm as [Heq | []]. injection Heq as -> <-.
      apply (proj1 (unique_In _ _)) in Hk. apply filter_In in Hk as [Hin Hnew].
      apply negb_true_iff, existsb_category in Hnew.
      assert (categoryCount c (terms batch) <> 0)
        by (rewrite categoryCount_zero; tauto).
      lia.
  - intros (-> & Hnew & H1 & H4). right. exists c. split.
    + apply (proj2 (unique_In _ _)). apply filter_In. split.
      * destruct (in_dec string_dec c (map category (terms batch))) as [Hin | Hout];
          [exact Hin |].
        apply categoryCount_zero in Hout. lia.
      * apply negb_true_iff, existsb_category. exact Hnew.
    + fold (categoryCount c (terms batch)).
      destruct (Nat.ltb_spec (categoryCount c (terms batch)) 4); [left; reflexivity | lia].
Qed.

Lemma checkQuizRequirements_kind :
  Forall (fun m => is_quiz_readiness m = true)
    (checkQuizRequirements batch existingTerms).
Proof.
  unfold checkQuizRequirements. apply List.Forall_forall. intros m Hm.
  apply in_app_iff in Hm. rewrite !in_flat_map_iff in Hm.
  destruct Hm as [([k v] & _ & Hm) | (k & _ & Hm)].
  - destruct (v <? 4)%nat; [destruct Hm as [<- | []]; reflexivity | destruct Hm].
  - destruct (_ <? 4)%nat; [destruct Hm as [<- | []]; reflexivity | destruct Hm].
Qed.

End QuizAudit.

(** C5.  The audit warns about a category exactly when it occurs in the
    corpus or the batch with fewer than four terms in both together, the
    warning carrying that count and its text the number still needed; it
    adds a distinct new-category warning exactly for the categories of the
    batch that the corpus lacks and that have fewer than four terms in the
    batch; a category with four terms or more in corpus and batch together
    gets neither; and in the report these are warnings, not errors, the
    batch being valid exactly when cross-reference resolution finds
    nothing. *)
Theorem C5_quiz_readiness (batch : GlossaryBatch) (existingTerms : list GlossaryTerm) :
  let audit := checkQuizRequirements batch existingTerms in
  let total c := categoryCount c existingTerms + categoryCount c (terms batch) in
  (forall c n, In (CategoryWarning c n) audit <-> n = total c /\ 1 <= n /\ n < 4) /\
  (forall c n, In (NewCategoryWarning c n) audit <->
     n = categoryCount c (terms batch) /\ categoryCount c existingTerms = 0 /\
     1 <= n /\ n < 4) /\
  (forall c, 4 <= total c ->
     forall n, ~ In (CategoryWarning c n) audit /\ ~ In (NewCategoryWarning c n) audit) /\
  ((forall c, In c (map category (existingTerms ++ terms batch)) -> 4 <= total c) ->
   audit = []) /\
  (forall c n,
     render (CategoryWarning c n) =
     String.concat EmptyString
       ["Category "; quoted c; " has only "; pretty n;
        " term(s) - need 4+ for quiz generation. Add "; pretty (4 - n);
        " more term(s)."]) /\
  Forall (fun m => is_quiz_readiness m = true) audit /\
  (forall defaultErrorMap ZodError_message ajv filePath w,
     batch_files w filePath = Holds batch ->
     structuralErrors defaultErrorMap ZodError_message ajv batch = [] ->
     corpus w = existingTerms ->
     let report := fst (validateBatch defaultErrorMap ZodError_message ajv filePath w) in
     (forall m, In m audit -> In m (warnings report) /\ ~ In m (errors report)) /\
     (valid report = true <-> validateCrossReferences batch existingTerms = [])).
Proof.
  intros audit total. subst audit total. cbv beta.
  assert (forall c, 4 <= categoryCount c existingTerms + categoryCount c (terms batch) ->
     forall n, ~ In (CategoryWarning c n) (checkQuizRequirements batch existingTerms) /\
               ~ In (NewCategoryWarning c n) (checkQuizRequirements batch existingTerms))
    as Hfull.
  { intros c Hc n. split; intros Hin.
    - apply generic_warning in Hin. lia.
    - apply new_category_warning in Hin. lia. }
  split; [intros c n; apply generic_warning |].
  split; [intros c n; apply new_category_warning |].
  split; [exact Hfull |].
  split.
  { intros Hall.
    destruct (checkQuizRequirements batch existingTerms) as [|m ms] eqn:E; [reflexivity |].
    exfalso.
    assert (In m (checkQuizRequirements batch existingTerms)) as Hm
      by (rewrite E; left; reflexivity).
    pose proof (checkQuizRequirements_kind batch existingTerms) as Hk.
    rewrite List.Forall_forall in Hk. specialize (Hk m Hm).
    destruct m as [| | | | | | | c n | c n]; simpl in Hk; try discriminate.
    - pose proof Hm as Hm'. apply generic_warning in Hm' as (Hn & H1 & H4).
      assert (In c (map category (existingTerms ++ terms batch))) as Hc.
      { destruct (in_dec string_dec c (map category (existingTerms ++ terms batch)))
          as [Hin | Hout]; [exact Hin |].
        apply categoryCount_zero in Hout. rewrite categoryCount_app in Hout. lia. }
      specialize (Hall c Hc). lia.
    - pose proof Hm as Hm'. apply new_category_warning in Hm' as (Hn & H0 & H1 & H4).
      assert (In c (map category (existingTerms ++ terms batch))) as Hc.
      { destruct (in_dec string_dec c (map category (existingTerms ++ terms batch)))
          as [Hin | Hout]; [exact Hin |].
        apply categoryCount_zero in Hout. rewrite categoryCount_app in Hout. lia. }
      specialize (Hall c Hc). lia. }
  split.
  { intros c n. reflexivity. }
  split; [apply checkQuizRequirements_kind |].
  intros defaultErrorMap ZodError_message ajv filePath w Hfile Hvalid Hcorpus report. subst report.
  rewrite (validateBatch_structurally_valid defaultErrorMap ZodError_message ajv filePath w batch Hfile Hvalid).
  simpl. rewrite Hcorpus. split.
  - intros m Hm. split.
    + apply in_or_app. right. exact Hm.
    + intros Herr.
      pose proof (checkQuizRequirements_kind batch existingTerms) as Hk.
      pose proof (validateCrossReferences_kind batch existingTerms) as Hx.
      rewrite List.Forall_forall in Hk, Hx. specialize (Hk m Hm). specialize (Hx m Herr).
      destruct m; simpl in *; discriminate.
  - destruct (validateCrossReferences batch existingTerms); simpl; split; congruence.
Qed.

(** ** The markdown sweep *)

Lemma checkForMarkdown_In (batch : GlossaryBatch) (m : Message) :
  In m (checkForMarkdown batch) <->
  exists term sectionName section pattern name,
    In term (terms batch) /\ In (sectionName, section) (sections term) /\
    content section <> EmptyString /\
    In (pattern, name) markdownPatterns /\ test pattern (content section) = true /\
    m = MarkdownWarning (id term) sectionName name.
Proof.
  unfold checkForMarkdown. rewrite in_flat_map_iff. split.
  - intros (term & Hterm & Hm). apply in_flat_map_iff in Hm as ([k s] & Hs & Hm).
    destruct (String.eqb_spec (content s) EmptyString) as [He | Hne]; [destruct Hm |].
    apply in_flat_map_iff in Hm as ([p name] & Hp & Hm).
    destruct (test p (content s)) eqn:Ht; [| destruct Hm].
    destruct Hm as [<- | []]. exists term, k, s, p, name. auto 10.
  - intros (term & k & s & p & name & Hterm & Hs & Hne & Hp & Ht & ->).
    exists term. split; [exact Hterm |].
    apply in_flat_map_iff. exists (k, s). split; [exact Hs |].
    destruct (String.eqb_spec (content s) EmptyString) as [He | _]; [contradiction |].
    apply in_flat_map_iff. exists (p, name). split; [exact Hp |].
    rewrite Ht. left. reflexivity.
Qed.

Lemma checkForMarkdown_kind (batch : GlossaryBatch) :
  Forall (fun m => is_markdown m = true) (checkForMarkdown batch).
Proof.
  apply List.Forall_forall. intros m Hm.
  apply checkForMarkdown_In in Hm as (term & k & s & p & name & _ & _ & _ & _ & _ & ->).
  reflexivity.
Qed.

(** The patterns of the sweep are the first six of [MARKDOWN_PATTERNS]. *)
Lemma markdownPatterns_prefix :
  map fst markdownPatterns = firstn 6 MARKDOWN_PATTERNS.
Proof. reflexivity. Qed.

Lemma markdownPatterns_contained (pattern : RegExp) (name : string) (text : string) :
  In (pattern, name) markdownPatterns ->
  test pattern text = true ->
  containsMarkdown text = true.
Proof.
  intros Hin Ht. unfold containsMarkdown. apply existsb_exists.
  exists pattern. split; [| exact Ht].
  destruct Hin as [Hp | [Hp | [Hp | [Hp | [Hp | [Hp | []]]]]]];
    injection Hp as <- _; unfold MARKDOWN_PATTERNS; simpl; tauto.
Qed.

(** A sweep over plain contents finds nothing. *)
Lemma checkForMarkdown_plain (batch : GlossaryBatch) :
  (forall term sectionName section, In term (terms batch) ->
     In (sectionName, section) (sections term) ->
     containsMarkdown (content section) = false) ->
  checkForMarkdown batch = [].
Proof.
  intros Hplain.
  destruct (checkForMarkdown batch) as [|m ms] eqn:E; [reflexivity |].
  assert (In m (checkForMarkdown batch)) as Hm by (rewrite E; left; reflexivity).
  apply checkForMarkdown_In in Hm
    as (term & k & s & p & name & Hterm & Hs & _ & Hp & Ht & _).
  specialize (Hplain term k s Hterm Hs).
  rewrite (markdownPatterns_contained p name (content s) Hp Ht) in Hplain.
  discriminate.
Qed.

(** Every kind of markup the sweep declares is reported where it occurs. *)
Lemma checkForMarkdown_reports
    (batch : GlossaryBatch) (term : GlossaryTerm) (sectionName : string)
    (section : GlossarySection) (pattern : RegExp) (name : string) :
  In term (terms batch) ->
  In (sectionName, section) (sections term) ->
  In (pattern, name) markdownPatterns ->
  test pattern (content section) = true ->
  In (MarkdownWarning (id term) sectionName name) (checkForMarkdown batch).
Proof.
  intros Hterm Hs Hp Ht. apply checkForMarkdown_In.
  exists term, sectionName, section, pattern, name. repeat split; try assumption.
  intros He. rewrite He in Ht.
  destruct Hp as [Hp | [Hp | [Hp | [Hp | [Hp | [Hp | []]]]]]];
    injection Hp as <- _; vm_compute in Ht; discriminate.
Qed.

(** ** What the Zod pass guarantees about sections *)

Lemma entry_get_In {A : Type} (entries : list (string * A)) (k : string) (v : A) :
  entry_get k entries = Some v -> In (k, v) entries.
Proof.
  induction entries as [|[k0 x] entries IH]; simpl; [discriminate |].
  destruct (String.eqb_spec k0 k) as [-> | Hne].
  - intros Heq. left. congruence.
  - intros H. right. apply IH. exact H.
Qed.

Lemma entry_get_NoDup {A : Type} (entries : list (string * A)) (k : string) (v : A) :
  List.NoDup (map fst entries) -> In (k, v) entries -> entry_get k entries = Some v.
Proof.
  induction entries as [|[k0 x] entries IH]; simpl; intros Hnd Hin; [destruct Hin |].
  inversion Hnd as [|? ? Hout Hnd']; subst.
  destruct (String.eqb_spec k0 k) as [-> | Hne].
  - destruct Hin as [Heq | Hin]; [congruence |].
    exfalso. apply Hout. apply in_map_iff. exists (k, v). auto.
  - destruct Hin as [Heq | Hin]; [congruence |]. apply IH; assumption.
Qed.

Lemma section_keys_cases (k : string) :
  includes section_keys k = true ->
  k = "whatItIs" \/ k = "location" \/ k = "howItWorks" \/ k = "whatYouShouldDo" \/
  k = "troubleshooting".
Proof.
  unfold includes, section_keys. simpl.
  repeat match goal with
         | |- context [String.eqb k ?s] => destruct (String.eqb_spec k s); [tauto |]
         end.
  simpl. discriminate.
Qed.

Section SectionFacts.

Variable defaultErrorMap : ZodIssueCode -> string.
Variable ZodError_message : GlossaryBatch -> string.

Lemma GlossarySectionSchema_clean (path : list string) (s : GlossarySection) :
  snd (GlossarySectionSchema defaultErrorMap path s) = [] ->
  containsMarkdown (content s) = false /\
  10 <= String.length (content s) /\ String.length (content s) <= 2000.
Proof.
  unfold GlossarySectionSchema, zstring, content_checks. simpl.
  destruct (containsMarkdown (content s)); simpl; [discriminate |].
  destruct (Nat.ltb_spec (String.length (content s)) 10); simpl; [discriminate |].
  destruct (Nat.ltb_spec 2000 (String.length (content s))); simpl; [discriminate |].
  intros _. repeat split; assumption.
Qed.

Lemma GlossarySectionSchema_too_long (path : list string) (s : GlossarySection) :
  2000 < String.length (content s) ->
  In (issue_at (path ++ ["content"]) too_long_message)
     (snd (GlossarySectionSchema defaultErrorMap path s)).
Proof.
  intros Hlong. unfold GlossarySectionSchema, zstring, content_checks. simpl.
  apply in_or_app. right. apply in_or_app. right.
  destruct (Nat.ltb_spec 2000 (String.length (content s))); [left; reflexivity | lia].
Qed.

(** The issues of a recognised section are issues of [sections]. *)
Lemma SectionsSchema_section_issue (path : list string)
    (secs : list (string * GlossarySection)) (k : string) (s : GlossarySection)
    (iss : ZodIssue) :
  entry_get k secs = Some s ->
  includes section_keys k = true ->
  In iss (snd (GlossarySectionSchema defaultErrorMap (path ++ [k]) s)) ->
  In iss (snd (SectionsSchema defaultErrorMap path secs)).
Proof.
  intros Hget Hk Hin. unfold SectionsSchema. rewrite parsed_all_issues. simpl.
  apply section_keys_cases in Hk.
  destruct Hk as [-> | [-> | [-> | [-> | ->]]]]; rewrite Hget; simpl;
    repeat (apply in_or_app; first [left; exact Hin | right]).
Qed.

Lemma SectionsSchema_unrecognised (path : list string)
    (secs : list (string * GlossarySection)) (k : string) (s : GlossarySection) :
  entry_get k secs = Some s ->
  includes section_keys k = false ->
  snd (SectionsSchema defaultErrorMap path secs) <> [].
Proof.
  intros Hget Hk. unfold SectionsSchema. rewrite parsed_all_issues. simpl.
  intros Hnil. do 5 (apply app_eq_nil in Hnil as [_ Hnil]).
  apply app_eq_nil in Hnil as [Hnil _].
  unfold zstrict in Hnil.
  destruct (List.filter _ _) as [|x xs] eqn:Ef; [| discriminate].
  assert (In k (List.filter (fun k0 => negb (includes section_keys k0)) (map fst secs)))
    as Hin.
  { apply filter_In. split.
    - apply in_map_iff. exists (k, s). split; [reflexivity |].
      apply entry_get_In. exact Hget.
    - rewrite Hk. reflexivity. }
  rewrite Ef in Hin. destruct Hin.
Qed.

Lemma SectionsSchema_clean (path : list string) (secs : list (string * GlossarySection)) :
  snd (SectionsSchema defaultErrorMap path secs) = [] ->
  List.NoDup (map fst secs) ->
  forall k s, In (k, s) secs -> containsMarkdown (content s) = false.
Proof.
  intros Hnil Hnd k s Hin.
  pose proof (entry_get_NoDup secs k s Hnd Hin) as Hget.
  destruct (includes section_keys k) eqn:Hk.
  - destruct (containsMarkdown (content s)) eqn:Hmd; [| reflexivity].
    exfalso.
    destruct (snd (GlossarySectionSchema defaultErrorMap (path ++ [k]) s))
      as [|iss rest] eqn:Es.
    + apply GlossarySectionSchema_clean in Es as [Hplain _]. congruence.
    + assert (In iss (snd (SectionsSchema defaultErrorMap path secs))) as Hiss.
      { apply SectionsSchema_section_issue with k s; try assumption.
        rewrite Es. left. reflexivity. }
      rewrite Hnil in Hiss. destruct Hiss.
  - exfalso. revert Hnil. apply SectionsSchema_unrecognised with k s; assumption.
Qed.

(** The issues of [sections] are issues of the term. *)
Lemma GlossaryTermSchema_sections_issue (path : list string) (t : GlossaryTerm)
    (iss : ZodIssue) :
  In iss (snd (SectionsSchema defaultErrorMap (path ++ ["sections"]) (sections t))) ->
  In iss (snd (GlossaryTermSchema defaultErrorMap path t)).
Proof.
  intros Hin. unfold GlossaryTermSchema. rewrite parsed_all_issues.
  apply in_flat_map_iff. eexists. split; [| exact Hin].
  simpl. tauto.
Qed.

Lemma GlossaryBatchSchema_clean_term (b : GlossaryBatch) (i : nat) (t : GlossaryTerm) :
  snd (GlossaryBatchSchema defaultErrorMap b) = [] ->
  terms b !! i = Some t ->
  snd (GlossaryTermSchema defaultErrorMap ["terms"; pretty i] t) = [].
Proof.
  intros Hnil Hi.
  destruct (snd (GlossaryTermSchema defaultErrorMap ["terms"; pretty i] t))
    as [|iss rest] eqn:Et; [reflexivity |].
  assert (In iss (snd (GlossaryBatchSchema defaultErrorMap b))) as Hiss.
  { apply GlossaryBatchSchema_term_issue with i t; [exact Hi |].
    rewrite Et. left. reflexivity. }
  rewrite Hnil in Hiss. destruct Hiss.
Qed.

(** On a document the Zod pass accepts, the sweep finds nothing. *)
Lemma accepted_is_plain (b : GlossaryBatch) :
  validateZodSchema defaultErrorMap ZodError_message b = [] ->
  (forall t, In t (terms b) -> List.NoDup (map fst (sections t))) ->
  checkForMarkdown b = [].
Proof.
  intros Hzod Hkeys. apply validateZodSchema_nil in Hzod.
  apply checkForMarkdown_plain. intros term k s Hterm Hs.
  apply list_elem_of_In, list_elem_of_lookup in Hterm as (i & Hi).
  pose proof (GlossaryBatchSchema_clean_term b i term Hzod Hi) as Hclean.
  apply (fun H1 H2 => SectionsSchema_clean (["terms"; pretty i] ++ ["sections"])
                        (sections term) H1 H2 k s Hs).
  - destruct (snd (SectionsSchema defaultErrorMap (["terms"; pretty i] ++ ["sections"])
                     (sections term))) as [|iss rest] eqn:Es; [reflexivity |].
    assert (In iss (snd (GlossaryTermSchema defaultErrorMap ["terms"; pretty i] term)))
      as Hiss.
    { apply GlossaryTermSchema_sections_issue. rewrite Es. left. reflexivity. }
    rewrite Hclean in Hiss. destruct Hiss.
  - apply Hkeys. apply list_elem_of_In, list_elem_of_lookup. exists i. exact Hi.
Qed.

(** A section content over 2000 characters is an issue of the batch. *)
Lemma long_content_rejected (b : GlossaryBatch) (i : nat) (t : GlossaryTerm)
    (k : string) (s : GlossarySection) :
  terms b !! i = Some t ->
  entry_get k (sections t) = Some s ->
  2000 < String.length (content s) ->
  snd (GlossaryBatchSchema defaultErrorMap b) <> [] /\
  (includes section_keys k = true ->
   In (issue_at ["terms"; pretty i; "sections"; k; "content"] too_long_message)
      (snd (GlossaryBatchSchema defaultErrorMap b))).
Proof.
  intros Hi Hget Hlong.
  assert (includes section_keys k = true ->
    In (issue_at ["terms"; pretty i; "sections"; k; "content"] too_long_message)
       (snd (GlossaryBatchSchema defaultErrorMap b))) as Hknown.
  { intros Hk. apply GlossaryBatchSchema_term_issue with i t; [exact Hi |].
    apply GlossaryTermSchema_sections_issue.
    apply SectionsSchema_section_issue with k s; [exact Hget | exact Hk |].
    apply (GlossarySectionSchema_too_long
             ((["terms"; pretty i] ++ ["sections"]) ++ [k]) s Hlong). }
  split; [| exact Hknown].
  destruct (includes section_keys k) eqn:Hk.
  - intros Hnil. specialize (Hknown eq_refl). rewrite Hnil in Hknown. destruct Hknown.
  - intros Hnil.
    pose proof (GlossaryBatchSchema_clean_term b i t Hnil Hi) as Hclean.
    pose proof (SectionsSchema_unrecognised (["terms"; pretty i] ++ ["sections"])
                  (sections t) k s Hget Hk) as Hsec.
    destruct (snd (SectionsSchema defaultErrorMap (["terms"; pretty i] ++ ["sections"])
                     (sections t))) as [|iss rest] eqn:Es; [congruence |].
    assert (In iss (snd (GlossaryTermSchema defaultErrorMap ["terms"; pretty i] t)))
      as Hiss.
    { apply GlossaryTermSchema_sections_issue. rewrite Es. left. reflexivity. }
    rewrite Hclean in Hiss. destruct Hiss.
Qed.



End SectionFacts.

(** ** Section length in the report *)

Section Length.

Variable defaultErrorMap : ZodIssueCode -> string.
Variable ZodError_message : GlossaryBatch -> string.
Variable ajv : GlossaryBatch -> option string + list AjvError.

Local Notation "'run'" := (validateBatch defaultErrorMap ZodError_message ajv).

(** C1, as the code has it.  The warnings of a structurally valid batch
    are those of the markdown sweep followed by those of the
    quiz-readiness audit, and only the latter when the section objects
    have distinct keys: no warning comes from the length of a section.
    Such a batch is accepted exactly when its cross-references resolve.
    A section content of more than 2000 characters makes validation
    fail in the structural phase: the report is invalid with the errors
    of the JSON-Schema pass followed by the one message of the Zod pass,
    and the error that [parse] throws carries the length issue of that
    content when the section is one of the five recognised ones. *)
Theorem C1_no_length_advisory (filePath : string) (w : World) (data : GlossaryBatch) :
  batch_files w filePath = Holds data ->
  let report := fst (run filePath w) in
  (structuralErrors defaultErrorMap ZodError_message ajv data = [] ->
     warnings report = checkForMarkdown data ++ checkQuizRequirements data (corpus w) /\
     ((forall t, In t (terms data) -> List.NoDup (map fst (sections t))) ->
      warnings report = checkQuizRequirements data (corpus w)) /\
     (valid report = true <-> validateCrossReferences data (corpus w) = [])) /\
  (forall i t k s,
     terms data !! i = Some t ->
     entry_get k (sections t) = Some s ->
     2000 < String.length (content s) ->
     valid report = false /\
     Forall (fun m => is_structural m = true) (errors report) /\
     warnings report = [] /\
     errors report =
       validateJsonSchema ajv data ++
       [ZodFailure (or_else (ZodError_message data) "Unknown error")] /\
     (includes section_keys k = true ->
      exists error,
        GlossaryBatchSchema_parse defaultErrorMap ZodError_message data = Some error /\
        In (issue_at ["terms"; pretty i; "sections"; k; "content"] too_long_message)
           (error_issues error))).
Proof.
  intros Hfile report. split.
  - intros Hvalid. subst report.
    rewrite (validateBatch_structurally_valid defaultErrorMap ZodError_message ajv filePath w data
               Hfile Hvalid). simpl.
    split; [reflexivity |]. split.
    + intros Hkeys.
      rewrite (accepted_is_plain defaultErrorMap ZodError_message data); [reflexivity | | exact Hkeys].
      unfold structuralErrors in Hvalid. apply app_eq_nil in Hvalid as [_ Hz]. exact Hz.
    + destruct (validateCrossReferences data (corpus w)); simpl; split; congruence.
  - intros i t k s Hi Hget Hlong.
    destruct (long_content_rejected defaultErrorMap data i t k s Hi Hget Hlong)
      as [Hne Hknown].
    destruct (validateZodSchema_thrown defaultErrorMap ZodError_message data Hne)
      as [Hparse Hzod].
    assert (structuralErrors defaultErrorMap ZodError_message ajv data <> []) as Hstruct.
    { unfold structuralErrors. rewrite Hzod. intros Hnil.
      apply app_eq_nil in Hnil as [_ Hz]. discriminate. }
    subst report.
    rewrite (validateBatch_rejected defaultErrorMap ZodError_message ajv filePath w data
               Hfile Hstruct).
    cbn [fst valid errors warnings].
    split; [reflexivity |].
    split; [apply structuralErrors_kind |].
    split; [reflexivity |].
    split; [unfold structuralErrors; rewrite Hzod; reflexivity |].
    intros Hk. eexists. split; [exact Hparse |].
    cbn [error_issues]. apply Hknown. exact Hk.
Qed.


End Length.

(** A batch that the Zod pass accepts and whose only section has 241
    characters gets no warning, whatever the JSON-Schema pass reports; when
    that pass reports nothing the batch is accepted, without any warning. *)
Lemma C1_counterexample :
  String.length text_241 = 241 /\
  batch_files (world_with_text text_241) "batch.json" = Holds (batch_with_text text_241) /\
  validateZodSchema example_error_map example_error_message (batch_with_text text_241) = [] /\
  (forall ajv,
     warnings (fst (validateBatch example_error_map example_error_message ajv "batch.json"
                      (world_with_text text_241))) = []) /\
  fst (validateBatch example_error_map example_error_message ajv_accepts "batch.json" (world_with_text text_241)) =
    {| valid := true; errors := []; warnings := [];
       termCount := 1; categories := ["Navigation"] |}.
Proof.
  split; [vm_compute; reflexivity |].
  split; [reflexivity |].
  split; [vm_compute; reflexivity |].
  split; [| vm_compute; reflexivity].
  intros ajv.
  destruct (structuralErrors example_error_map example_error_message ajv (batch_with_text text_241)) eqn:Es.
  - rewrite (validateBatch_structurally_valid example_error_map example_error_message ajv "batch.json"
               (world_with_text text_241) (batch_with_text text_241) eq_refl Es).
    vm_compute. reflexivity.
  - rewrite (validateBatch_rejected example_error_map example_error_message ajv "batch.json"
               (world_with_text text_241) (batch_with_text text_241) eq_refl);
      [reflexivity | congruence].
Qed.


(** ** The manifest: sorting *)

Section Sorting.

Variable Date_getTime : string -> option Z.

Local Notation "'insert_sorted'" := (sort_insert Date_getTime).
Local Notation "'sorted'" := (array_sort Date_getTime).
Local Notation "'compare'" := (SortCompare Date_getTime).

Lemma sort_insert_Permutation (x : BatchManifestEntry) (l : list BatchManifestEntry) :
  Permutation (insert_sorted x l) (x :: l).
Proof.
  induction l as [|y l IH]; simpl.
  - apply Permutation_refl.
  - destruct (compare x y <=? 0)%Z.
    + apply Permutation_refl.
    + apply Permutation_trans with (y :: x :: l).
      * apply perm_skip. exact IH.
      * apply perm_swap.
Qed.

Lemma array_sort_Permutation (l : list BatchManifestEntry) : Permutation (sorted l) l.
Proof.
  induction l as [|x l IH]; simpl.
  - apply Permutation_refl.
  - apply Permutation_trans with (x :: sorted l).
    + apply sort_insert_Permutation.
    + apply perm_skip. exact IH.
Qed.

Lemma array_sort_length (l : list BatchManifestEntry) : length (sorted l) = length l.
Proof. apply Permutation_length. apply array_sort_Permutation. Qed.

Lemma compare_dated (x y : BatchManifestEntry) :
  dated Date_getTime x -> dated Date_getTime y ->
  exists tx ty,
    Date_getTime (entry_createdAt x) = Some tx /\
    Date_getTime (entry_createdAt y) = Some ty /\
    compare x y = (ty - tx)%Z.
Proof.
  unfold dated, SortCompare, compareFn. intros Hx Hy.
  destruct (Date_getTime (entry_createdAt x)) as [tx|]; [| congruence].
  destruct (Date_getTime (entry_createdAt y)) as [ty|]; [| congruence].
  exists tx, ty. auto.
Qed.

Lemma not_older_trans (x y z : BatchManifestEntry) :
  not_older Date_getTime x y -> not_older Date_getTime y z -> not_older Date_getTime x z.
Proof.
  unfold not_older.
  destruct (Date_getTime (entry_createdAt x)); [| tauto].
  destruct (Date_getTime (entry_createdAt y)); [| tauto].
  destruct (Date_getTime (entry_createdAt z)); [| tauto].
  lia.
Qed.

Lemma sort_insert_sorted (x : BatchManifestEntry) (l : list BatchManifestEntry) :
  dated Date_getTime x -> Forall (dated Date_getTime) l ->
  newest_first Date_getTime l -> newest_first Date_getTime (insert_sorted x l).
Proof.
  unfold newest_first. intros Hx Hl Hs.
  induction Hs as [|y l Hs IH Hy]; simpl.
  - constructor; constructor.
  - inversion Hl as [|? ? Hdy Hl']; subst.
    destruct (compare_dated x y Hx Hdy) as (tx & ty & Etx & Ety & Ecmp).
    destruct (Z.leb_spec (compare x y) 0) as [Hle | Hgt].
    + assert (not_older Date_getTime x y) as Hxy
        by (unfold not_older; rewrite Etx, Ety; lia).
      constructor; [constructor; assumption |].
      constructor; [exact Hxy |].
      eapply List.Forall_impl; [| exact Hy].
      intros z Hyz. simpl in Hyz. apply not_older_trans with y; assumption.
    + constructor; [apply IH; exact Hl' |].
      apply (Permutation_Forall (Permutation_sym (sort_insert_Permutation x l))).
      constructor; [| exact Hy].
      unfold not_older. rewrite Etx, Ety. lia.
Qed.

(** With valid dates the sorted array is in descending order of date. *)
Lemma array_sort_sorted (l : list BatchManifestEntry) :
  Forall (dated Date_getTime) l -> newest_first Date_getTime (sorted l).
Proof.
  induction l as [|x l IH]; simpl; intros Hl.
  - constructor.
  - inversion Hl as [|? ? Hx Hl']; subst.
    apply sort_insert_sorted; [exact Hx | | apply IH; exact Hl'].
    apply (Permutation_Forall (Permutation_sym (array_sort_Permutation l))). exact Hl'.
Qed.

Lemma sort_insert_stable (t : Z) (x : BatchManifestEntry) (l : list BatchManifestEntry) :
  List.filter (has_time Date_getTime t) (insert_sorted x l) =
  List.filter (has_time Date_getTime t) (x :: l).
Proof.
  induction l as [|y l IH]; [reflexivity |].
  simpl sort_insert.
  destruct (Z.leb_spec (compare x y) 0) as [Hle | Hgt]; [reflexivity |].
  cbn [List.filter]. rewrite IH. cbn [List.filter].
  destruct (has_time Date_getTime t x) eqn:Hx;
    destruct (has_time Date_getTime t y) eqn:Hy; try reflexivity.
  exfalso. unfold has_time in Hx, Hy. unfold SortCompare, compareFn in Hgt.
  destruct (Date_getTime (entry_createdAt x)) as [tx|]; [| discriminate].
  destruct (Date_getTime (entry_createdAt y)) as [ty|]; [| discriminate].
  simpl in Hgt. lia.
Qed.

(** An array in descending order of date is left as it is. *)
Lemma array_sort_fixed (l : list BatchManifestEntry) :
  newest_first Date_getTime l -> sorted l = l.
Proof.
  unfold newest_first. induction 1 as [|x l Hs IH Hx]; simpl; [reflexivity |].
  rewrite IH. destruct l as [|y l]; [reflexivity |]. simpl.
  inversion Hx as [|? ? Hxy _]; subst. unfold not_older in Hxy.
  unfold SortCompare, compareFn.
  destruct (Date_getTime (entry_createdAt x)) as [tx|]; [| tauto].
  destruct (Date_getTime (entry_createdAt y)) as [ty|]; [| tauto].
  simpl. destruct (Z.leb_spec (ty - tx) 0); [reflexivity | lia].
Qed.

(** The sort is stable: entries of the same date keep their order. *)
Lemma array_sort_stable (t : Z) (l : list BatchManifestEntry) :
  List.filter (has_time Date_getTime t) (sorted l) =
  List.filter (has_time Date_getTime t) l.
Proof.
  induction l as [|x l IH]; [reflexivity |].
  simpl array_sort. rewrite sort_insert_stable. simpl. rewrite IH. reflexivity.
Qed.

End Sorting.

(** ** The manifest: upsert *)

Lemma findIndex_None {A : Type} (p : A -> bool) (l : list A) :
  findIndex p l = None <-> forall x, In x l -> p x = false.
Proof.
  induction l as [|a l IH]; simpl.
  - split; [intros _ x [] | reflexivity].
  - destruct (p a) eqn:Ha.
    + split; [discriminate |]. intros H. rewrite (H a (or_introl eq_refl)) in Ha. discriminate.
    + destruct (findIndex p l) as [i|]; simpl.
      * split; [discriminate |]. intros H.
        assert (Some i = None) as Hn
          by (apply (proj2 IH); intros x Hx; apply H; right; exact Hx).
        discriminate.
      * split; [| reflexivity]. intros _ x [<- | Hx]; [exact Ha |].
        apply (proj1 IH); [reflexivity | exact Hx].
Qed.

Lemma findIndex_Some {A : Type} (p : A -> bool) (l : list A) (i : nat) :
  findIndex p l = Some i ->
  exists l1 x l2,
    l = l1 ++ x :: l2 /\ length l1 = i /\ p x = true /\ (forall y, In y l1 -> p y = false).
Proof.
  revert i. induction l as [|a l IH]; simpl; intros i; [discriminate |].
  destruct (p a) eqn:Ha.
  - intros Hi. injection Hi as <-. exists [], a, l. repeat split; [exact Ha | intros y []].
  - destruct (findIndex p l) as [j|]; simpl; [| discriminate].
    intros Hi. injection Hi as <-.
    destruct (IH j eq_refl) as (l1 & x & l2 & -> & Hlen & Hx & Hl1).
    exists (a :: l1), x, l2. repeat split; simpl; [congruence | exact Hx |].
    intros y [<- | Hy]; [exact Ha | apply Hl1; exact Hy].
Qed.

Lemma list_insert_middle {A : Type} (l1 l2 : list A) (x e : A) :
  <[length l1 := e]> (l1 ++ x :: l2) = l1 ++ e :: l2.
Proof.
  induction l1 as [|a l1 IH]; simpl; [reflexivity | rewrite IH; reflexivity].
Qed.

Lemma idCount_app (i : string) (l1 l2 : list BatchManifestEntry) :
  idCount i (l1 ++ l2) = idCount i l1 + idCount i l2.
Proof. unfold idCount. rewrite List.filter_app, length_app. reflexivity. Qed.

Lemma idCount_cons (i : string) (e : BatchManifestEntry) (l : list BatchManifestEntry) :
  idCount i (e :: l) = (if String.eqb (entry_id e) i then 1 else 0) + idCount i l.
Proof. unfold idCount. simpl. destruct (String.eqb (entry_id e) i); reflexivity. Qed.

Lemma idCount_absent (i : string) (l : list BatchManifestEntry) :
  (forall y, In y l -> entry_id y <> i) -> idCount i l = 0.
Proof.
  induction l as [|a l IH]; intros H; [reflexivity |].
  rewrite idCount_cons.
  destruct (String.eqb_spec (entry_id a) i) as [He | _].
  - exfalso. apply (H a); [left; reflexivity | exact He].
  - simpl. apply IH. intros y Hy. apply H. right. exact Hy.
Qed.

Lemma idCount_Permutation (i : string) (l l' : list BatchManifestEntry) :
  Permutation l l' -> idCount i l = idCount i l'.
Proof.
  induction 1 as [| x l l' _ IH | x y l | l l' l'' _ IH1 _ IH2].
  - reflexivity.
  - rewrite !idCount_cons, IH. reflexivity.
  - rewrite !idCount_cons. lia.
  - congruence.
Qed.

Lemma idCount_NoDup (i : string) (l : list BatchManifestEntry) :
  List.NoDup (map entry_id l) -> idCount i l <= 1.
Proof.
  induction l as [|a l IH]; simpl; intros Hnd; [unfold idCount; simpl; lia |].
  inversion Hnd as [|? ? Hout Hnd']; subst.
  rewrite idCount_cons.
  destruct (String.eqb_spec (entry_id a) i) as [<- | _].
  - rewrite idCount_absent; [lia |].
    intros y Hy Heq. apply Hout. rewrite <- Heq. apply in_map. exact Hy.
  - specialize (IH Hnd'). lia.
Qed.

Section Upsert.

Variable entry : BatchManifestEntry.
Variable manifest : BatchManifest.

Lemma upsert_append :
  (forall x, In x (batches manifest) -> entry_id x <> entry_id entry) ->
  batches (upsert entry manifest) = batches manifest ++ [entry].
Proof.
  intros Habsent. unfold upsert.
  assert (findIndex (fun b => String.eqb (entry_id b) (entry_id entry)) (batches manifest)
          = None) as ->; [| reflexivity].
  apply findIndex_None. intros x Hx.
  destruct (String.eqb_spec (entry_id x) (entry_id entry)); [| reflexivity].
  exfalso. apply (Habsent x); assumption.
Qed.

Lemma upsert_cases :
  ((forall x, In x (batches manifest) -> entry_id x <> entry_id entry) /\
   batches (upsert entry manifest) = batches manifest ++ [entry]) \/
  (exists l1 x l2,
     batches manifest = l1 ++ x :: l2 /\ entry_id x = entry_id entry /\
     (forall y, In y l1 -> entry_id y <> entry_id entry) /\
     batches (upsert entry manifest) = l1 ++ entry :: l2).
Proof.
  destruct (findIndex (fun b => String.eqb (entry_id b) (entry_id entry))
              (batches manifest)) as [i|] eqn:Ei.
  - right. destruct (findIndex_Some _ _ _ Ei) as (l1 & x & l2 & Hl & Hlen & Hx & Hl1).
    exists l1, x, l2. split; [exact Hl |].
    split; [apply String.eqb_eq; exact Hx |].
    split.
    + intros y Hy. apply String.eqb_neq. apply Hl1. exact Hy.
    + unfold upsert. rewrite Ei. simpl. rewrite Hl, <- Hlen. apply list_insert_middle.
  - left. assert (forall x, In x (batches manifest) -> entry_id x <> entry_id entry) as Ha.
    { intros x Hx. apply String.eqb_neq.
      apply (proj1 (findIndex_None _ _) Ei x Hx). }
    split; [exact Ha | apply upsert_append; exact Ha].
Qed.

(** The first entry with the id is replaced where it stands. *)
Lemma upsert_replace (l1 l2 : list BatchManifestEntry) (x : BatchManifestEntry) :
  batches manifest = l1 ++ x :: l2 ->
  entry_id x = entry_id entry ->
  (forall y, In y l1 -> entry_id y <> entry_id entry) ->
  batches (upsert entry manifest) = l1 ++ entry :: l2.
Proof.
  intros Hl Hx Hl1.
  destruct upsert_cases as [[Habsent _] | (k1 & y & k2 & Hk & Hy & Hk1 & Hup)].
  - exfalso. apply (Habsent x); [| exact Hx].
    rewrite Hl. apply in_or_app. right. left. reflexivity.
  - rewrite Hup.
    assert (l1 = k1 /\ l2 = k2) as [-> ->]; [| reflexivity].
    rewrite Hl in Hk. clear Hl Hup.
    revert k1 Hk Hk1. induction l1 as [|a l1 IH]; intros k1 Hk Hk1.
    + destruct k1 as [|b k1]; simpl in Hk.
      * injection Hk as _ <-. auto.
      * injection Hk as Hxb _. exfalso.
        apply (Hk1 b); [left; reflexivity | rewrite <- Hxb; exact Hx].
    + destruct k1 as [|b k1]; simpl in Hk.
      * injection Hk as Hay _. exfalso.
        apply (Hl1 a); [left; reflexivity | rewrite Hay; exact Hy].
      * injection Hk as <- Hk.
        destruct (IH (fun z Hz => Hl1 z (or_intror Hz)) k1 Hk
                    (fun z Hz => Hk1 z (or_intror Hz))) as [-> ->].
        auto.
Qed.

Lemma upsert_In (x : BatchManifestEntry) :
  In x (batches (upsert entry manifest)) -> x = entry \/ In x (batches manifest).
Proof.
  destruct upsert_cases as [[_ ->] | (l1 & y & l2 & -> & _ & _ & ->)];
    rewrite !in_app_iff; simpl; intuition.
Qed.

Lemma upsert_has_entry : In entry (batches (upsert entry manifest)).
Proof.
  destruct upsert_cases as [[_ ->] | (l1 & y & l2 & _ & _ & _ & ->)];
    apply in_or_app; right; left; reflexivity.
Qed.

Lemma upsert_idCount (j : string) :
  idCount j (batches (upsert entry manifest)) =
  if String.eqb j (entry_id entry) then Nat.max 1 (idCount j (batches manifest))
  else idCount j (batches manifest).
Proof.
  destruct upsert_cases as [[Ha ->] | (l1 & y & l2 & -> & Hy & Hl1 & ->)].
  - rewrite idCount_app, idCount_cons. unfold idCount at 2. simpl.
    destruct (String.eqb_spec j (entry_id entry)) as [-> | Hne].
    + rewrite String.eqb_refl. rewrite (idCount_absent _ _ Ha). reflexivity.
    + destruct (String.eqb_spec (entry_id entry) j); [congruence | lia].
  - rewrite !idCount_app, !idCount_cons. rewrite Hy.
    destruct (String.eqb_spec j (entry_id entry)) as [-> | Hne].
    + rewrite String.eqb_refl. rewrite (idCount_absent _ _ Hl1). lia.
    + reflexivity.
Qed.

Lemma upsert_NoDup :
  List.NoDup (map entry_id (batches manifest)) ->
  List.NoDup (map entry_id (batches (upsert entry manifest))).
Proof.
  destruct upsert_cases as [[Ha ->] | (l1 & y & l2 & -> & Hy & _ & ->)].
  - intros Hnd. rewrite map_app. simpl.
    apply (Permutation_NoDup (l := entry_id entry :: map entry_id (batches manifest))).
    + apply Permutation_cons_append.
    + constructor; [| exact Hnd].
      intros Hin. apply in_map_iff in Hin as (x & Hx & Hin). apply (Ha x); assumption.
  - rewrite !map_app. simpl. rewrite Hy. auto.
Qed.

(** Upserting an entry the manifest already holds changes nothing when
    ids are distinct. *)
Lemma upsert_same :
  List.NoDup (map entry_id (batches manifest)) ->
  In entry (batches manifest) ->
  batches (upsert entry manifest) = batches manifest.
Proof.
  intros Hnd Hin.
  destruct upsert_cases as [[Ha _] | (l1 & y & l2 & Hl & Hy & Hl1 & ->)].
  - exfalso. apply (Ha entry Hin). reflexivity.
  - rewrite Hl. f_equal. f_equal.
    rewrite Hl in Hin, Hnd. apply in_app_or in Hin as [Hin | [Heq | Hin]].
    + exfalso. apply (Hl1 entry Hin). reflexivity.
    + symmetry. exact Heq.
    + exfalso. rewrite map_app in Hnd. simpl in Hnd.
      apply NoDup_remove_2 in Hnd. apply Hnd. apply in_or_app. right.
      rewrite Hy. apply in_map. exact Hin.
Qed.

Lemma upsert_length_present (x : BatchManifestEntry) :
  In x (batches manifest) -> entry_id x = entry_id entry ->
  length (batches (upsert entry manifest)) = length (batches manifest).
Proof.
  intros Hx Hid.
  destruct upsert_cases as [[Ha _] | (l1 & y & l2 & -> & _ & _ & ->)].
  - exfalso. apply (Ha x); assumption.
  - rewrite !length_app. reflexivity.
Qed.

End Upsert.

(** ** The manifest: merging a batch *)

Section Merge.

Variable basename : string -> string -> string.
Variable relative : string -> string -> string.
Variable Date_getTime : string -> option Z.

Local Notation "'merge'" := (updateManifest basename relative Date_getTime).
Local Notation "'entryOf'" := (entry_for basename relative).

Lemma entry_for_eq (batchPath : string) (batch : GlossaryBatch) (w : World) :
  entryOf batchPath batch w =
  {| entry_id := basename batchPath ".json";
     entry_path := replace_backslashes (relative (cwd w) batchPath);
     entry_createdAt := clock w;
     entry_termCount := length (terms batch);
     entry_categories := unique (map category (terms batch)) |}.
Proof. reflexivity. Qed.

(** A merge that starts from a readable batch and manifest writes the
    upserted and sorted manifest, and nothing else. *)
Lemma updateManifest_run (batchPath : string) (w : World) (batch : GlossaryBatch)
    (m : BatchManifest) :
  batch_files w batchPath = Holds batch ->
  manifest_of w = Some m ->
  merge batchPath w =
  (inr tt,
   snd (saveManifest (sortManifest Date_getTime (upsert (entryOf batchPath batch w) m)) w)).
Proof.
  intros Hfile Hm.
  unfold updateManifest, readJson, existsSync, gets, bind, ret. rewrite Hfile.
  unfold manifest_of in Hm.
  destruct (manifest_json w) as [| d | m0] eqn:E; simpl; rewrite ?E; simpl.
  - injection Hm as <-. reflexivity.
  - discriminate.
  - injection Hm as <-. reflexivity.
Qed.

(** Otherwise the merge throws, having written nothing. *)
Lemma updateManifest_throws (batchPath : string) (w : World) :
  (forall batch, batch_files w batchPath <> Holds batch) \/ manifest_of w = None ->
  exists thrown, merge batchPath w = (inl thrown, w).
Proof.
  intros Hbad.
  unfold updateManifest, readJson, existsSync, gets, bind, ret.
  destruct (batch_files w batchPath) as [| d | batch] eqn:Ef.
  - eexists; reflexivity.
  - eexists; reflexivity.
  - destruct Hbad as [Hno | Hm]; [exfalso; apply (Hno batch); reflexivity |].
    unfold manifest_of in Hm.
    destruct (manifest_json w) as [| d | m0] eqn:E; simpl; rewrite ?E; simpl;
      try discriminate.
    eexists; reflexivity.
Qed.

(** C2.  A merge upserts by batch id: the manifest written is the sorted
    upsert of the entry of the batch, where the upsert replaces the
    first entry with the id where it stands and appends when there is
    none, so that the entry is in the manifest and every other id keeps
    its number of entries.  Merging the same file again, at any reading
    of the clock, leaves the number of entries of every id and the
    length of the manifest as they are; from an empty manifest the two
    merges leave exactly the one entry of the batch.  Over a manifest
    with distinct ids and valid dates the id of the batch has exactly one
    entry after the merge, and a second merge at the same reading of the
    clock changes nothing at all. *)
Theorem C2_idempotent_upsert
    (batchPath : string) (w : World) (batch : GlossaryBatch) (m : BatchManifest) :
  batch_files w batchPath = Holds batch ->
  manifest_of w = Some m ->
  let entry := entryOf batchPath batch w in
  let merged := sortManifest Date_getTime (upsert entry m) in
  let w1 := snd (merge batchPath w) in
  merge batchPath w = (inr tt, w1) /\
  manifest_json w1 = Holds merged /\
  ((forall x, In x (batches m) -> entry_id x <> entry_id entry) ->
   batches (upsert entry m) = batches m ++ [entry]) /\
  (forall l1 x l2,
     batches m = l1 ++ x :: l2 -> entry_id x = entry_id entry ->
     (forall y, In y l1 -> entry_id y <> entry_id entry) ->
     batches (upsert entry m) = l1 ++ entry :: l2) /\
  In entry (batches merged) /\
  (forall j, idCount j (batches merged) =
     if String.eqb j (entry_id entry) then Nat.max 1 (idCount j (batches m))
     else idCount j (batches m)) /\
  (forall now,
     let w2 := snd (merge batchPath (set_clock now w1)) in
     exists m2,
       merge batchPath (set_clock now w1) = (inr tt, w2) /\
       manifest_json w2 = Holds m2 /\
       (forall j, idCount j (batches m2) = idCount j (batches merged)) /\
       length (batches m2) = length (batches merged) /\
       (batches m = [] ->
        batches m2 = [entryOf batchPath batch (set_clock now w1)] /\
        idCount (entry_id entry) (batches m2) = 1)) /\
  (List.NoDup (map entry_id (batches m)) ->
   Forall (dated Date_getTime) (batches m) ->
   Date_getTime (clock w) <> None ->
   idCount (entry_id entry) (batches merged) = 1 /\
   merge batchPath w1 = (inr tt, w1)).
Proof.
  intros Hfile Hm entry merged w1.
  assert (merge batchPath w = (inr tt, snd (saveManifest merged w))) as Hrun
    by (apply updateManifest_run; assumption).
  assert (w1 = snd (saveManifest merged w)) as Hw1 by (subst w1; rewrite Hrun; reflexivity).
  assert (forall j, idCount j (batches merged) =
     if String.eqb j (entry_id entry) then Nat.max 1 (idCount j (batches m))
     else idCount j (batches m)) as Hcount.
  { intros j. subst merged. simpl.
    rewrite (idCount_Permutation j _ _ (array_sort_Permutation Date_getTime _)).
    apply upsert_idCount. }
  assert (In entry (batches merged)) as Hin.
  { subst merged. simpl.
    apply (Permutation_in _ (Permutation_sym (array_sort_Permutation Date_getTime _))).
    apply upsert_has_entry. }
  split; [rewrite Hrun, Hw1; reflexivity |].
  split; [rewrite Hw1; reflexivity |].
  split; [apply upsert_append |].
  split; [intros l1 x l2; apply upsert_replace |].
  split; [exact Hin |].
  split; [exact Hcount |].
  split; [| intros Hnd Hdated Hnow].
  2: {
    assert (List.NoDup (map entry_id (batches merged))) as Hnd1.
    { subst merged. simpl.
      apply (Permutation_NoDup (l := map entry_id (batches (upsert entry m)))).
      - apply Permutation_map, Permutation_sym, array_sort_Permutation.
      - apply upsert_NoDup. exact Hnd. }
    split.
    - pose proof (idCount_NoDup (entry_id entry) (batches merged) Hnd1) as Hle.
      pose proof (Hcount (entry_id entry)) as Hc. rewrite String.eqb_refl in Hc. lia.
    - assert (merge batchPath w1 =
              (inr tt, snd (saveManifest
                 (sortManifest Date_getTime (upsert (entryOf batchPath batch w1) merged)) w1)))
        as Hagain.
      { apply updateManifest_run; rewrite Hw1; [exact Hfile | reflexivity]. }
      rewrite Hagain. f_equal.
      assert (entryOf batchPath batch w1 = entry) as -> by (rewrite Hw1; reflexivity).
      assert (sortManifest Date_getTime (upsert entry merged) = merged) as ->.
      { unfold sortManifest at 1. rewrite (upsert_same entry merged Hnd1 Hin).
        unfold merged, sortManifest. cbn [batches]. f_equal.
        apply array_sort_fixed. apply array_sort_sorted.
        apply List.Forall_forall. intros x Hx. apply upsert_In in Hx as [-> | Hx].
        - exact Hnow.
        - rewrite List.Forall_forall in Hdated. apply Hdated. exact Hx. }
      rewrite Hw1. reflexivity. }
  intros now w2.
  set (entry2 := entryOf batchPath batch (set_clock now w1)).
  assert (entry_id entry2 = entry_id entry) as Hid by reflexivity.
  set (m2 := sortManifest Date_getTime (upsert entry2 merged)).
  assert (merge batchPath (set_clock now w1) =
          (inr tt, snd (saveManifest m2 (set_clock now w1)))) as Hrun2.
  { apply updateManifest_run; rewrite Hw1; [exact Hfile | reflexivity]. }
  exists m2.
  split; [subst w2; rewrite Hrun2; reflexivity |].
  split; [subst w2; rewrite Hrun2; reflexivity |].
  split.
  { intros j. subst m2. simpl.
    rewrite (idCount_Permutation j _ _ (array_sort_Permutation Date_getTime _)).
    rewrite upsert_idCount, Hid.
    destruct (String.eqb_spec j (entry_id entry)) as [-> | Hne]; [| reflexivity].
    pose proof (Hcount (entry_id entry)) as Hc. rewrite String.eqb_refl in Hc.
    change (array_sort Date_getTime (batches (upsert entry m))) with (batches merged).
    lia. }
  split.
  { subst m2. simpl. rewrite array_sort_length.
    apply upsert_length_present with entry; [exact Hin | symmetry; exact Hid]. }
  intros Hempty.
  assert (batches merged = [entry]) as Hone.
  { subst merged. simpl. rewrite upsert_append.
    - rewrite Hempty. reflexivity.
    - rewrite Hempty. intros x []. }
  assert (batches m2 = [entry2]) as Htwo.
  { subst m2. simpl.
    rewrite (upsert_replace entry2 merged [] [] entry Hone (eq_sym Hid)).
    - reflexivity.
    - intros y []. }
  split; [exact Htwo |].
  rewrite Htwo, idCount_cons, Hid, String.eqb_refl. reflexivity.
Qed.

(** C6, as the code has it.  After a merge over a manifest with valid
    dates, at a valid reading of the clock, the entries written are those
    of the upsert in descending order of [createdAt], and their dates are
    valid again, so that the next merge finds a manifest of the same
    kind; and merging a batch on the first of February into a manifest
    with a January and a March entry leaves March, February, January. *)
Theorem C6_sorted_newest_first
    (batchPath : string) (w : World) (batch : GlossaryBatch) (m : BatchManifest) :
  batch_files w batchPath = Holds batch ->
  manifest_of w = Some m ->
  Forall (dated Date_getTime) (batches m) ->
  Date_getTime (clock w) <> None ->
  let w1 := snd (merge batchPath w) in
  (exists m1,
     manifest_json w1 = Holds m1 /\
     newest_first Date_getTime (batches m1) /\
     Permutation (batches m1) (batches (upsert (entryOf batchPath batch w) m)) /\
     Forall (dated Date_getTime) (batches m1)) /\
  manifest_dates (february_world (Holds winter_manifest)) = [january; march] /\
  manifest_dates
    (snd (updateManifest posix_basename relative_id iso_getTime february_path
            (february_world (Holds winter_manifest))))
  = [march; february; january].
Proof.
  intros Hfile Hm Hdated Hnow w1. split; [| split; vm_compute; reflexivity].
  exists (sortManifest Date_getTime (upsert (entryOf batchPath batch w) m)).
  subst w1. rewrite (updateManifest_run batchPath w batch m Hfile Hm). simpl.
  assert (Forall (dated Date_getTime) (batches (upsert (entryOf batchPath batch w) m)))
    as Hall.
  { apply List.Forall_forall. intros x Hx.
    apply upsert_In in Hx as [-> | Hx].
    - exact Hnow.
    - rewrite List.Forall_forall in Hdated. apply Hdated. exact Hx. }
  split; [reflexivity |]. split; [| split].
  - apply array_sort_sorted. exact Hall.
  - apply array_sort_Permutation.
  - apply (Permutation_Forall (Permutation_sym (array_sort_Permutation _ _))).
    exact Hall.
Qed.

End Merge.

(** A manifest in which one [createdAt] has the form the manifest schema
    asks for and is not a date: after the merge of the February batch the
    January entry still stands before the March entry. *)
Lemma C6_counterexample :
  test ISO_DATE_REGEX thirteenth_month = true /\
  iso_getTime thirteenth_month = None /\
  snd (BatchManifestSchema example_error_map example_manifest_error_map undated_manifest)
    = [] /\
  manifest_dates
    (snd (updateManifest posix_basename relative_id iso_getTime february_path
            (february_world (Holds undated_manifest))))
    = [january; thirteenth_month; march; february] /\
  (exists tj tm,
     iso_getTime january = Some tj /\ iso_getTime march = Some tm /\ (tj < tm)%Z) /\
  (forall m1,
     manifest_json
       (snd (updateManifest posix_basename relative_id iso_getTime february_path
               (february_world (Holds undated_manifest)))) = Holds m1 ->
     ~ newest_first iso_getTime (batches m1)).
Proof.
  split; [vm_compute; reflexivity |].
  split; [vm_compute; reflexivity |].
  split; [vm_compute; reflexivity |].
  split; [vm_compute; reflexivity |].
  split.
  { eexists. eexists. split; [vm_compute; reflexivity |].
    split; [vm_compute; reflexivity |]. vm_compute. reflexivity. }
  intros m1 Hsaved.
  rewrite (updateManifest_run posix_basename relative_id iso_getTime february_path
             (february_world (Holds undated_manifest)) (batch_with_text plain_text)
             undated_manifest eq_refl eq_refl) in Hsaved.
  injection Hsaved as <-.
  intros Hsorted.
  assert (map entry_createdAt
            (batches (sortManifest iso_getTime
               (upsert (entry_for posix_basename relative_id february_path
                          (batch_with_text plain_text)
                          (february_world (Holds undated_manifest)))
                       undated_manifest)))
          = [january; thirteenth_month; march; february]) as Hdates
    by (vm_compute; reflexivity).
  destruct (batches _) as [|e1 [|e2 [|e3 rest]]]; try discriminate Hdates.
  injection Hdates as H1 H2 H3 _.
  inversion Hsorted as [|? ? _ Hfirst]; subst.
  inversion Hfirst as [|? ? _ Hrest]; subst.
  inversion Hrest as [|? ? Hcmp _]; subst.
  unfold not_older in Hcmp. rewrite H1, H3 in Hcmp.
  vm_compute in Hcmp. apply Hcmp. reflexivity.
Qed.

(** ** The claims at concrete documents *)

Lemma C3_witness :
  batch_files reference_world "batch.json" = Holds reference_batch /\
  structuralErrors example_error_map example_error_message ajv_accepts reference_batch = [] /\
  In (UnknownReference "flight-level" "transition-altitude")
     (errors (fst (validateBatch example_error_map example_error_message ajv_accepts "batch.json" reference_world))) /\
  ~ In (UnknownReference "flight-level" "vor")
       (validateCrossReferences reference_batch navigation_corpus) /\
  valid (fst (validateBatch example_error_map example_error_message ajv_accepts "batch.json" reference_world)) = false.
Proof.
  assert (batch_files reference_world "batch.json" = Holds reference_batch) as Hfile
    by reflexivity.
  assert (structuralErrors example_error_map example_error_message ajv_accepts reference_batch = []) as Hvalid
    by (vm_compute; reflexivity).
  pose proof (C3_cross_reference_errors example_error_map example_error_message ajv_accepts
                reference_batch navigation_corpus) as (Hiff & _ & Hreport).
  destruct (Hreport "batch.json" reference_world Hfile Hvalid eq_refl)
    as (Herrors & _ & Hinvalid).
  assert (In (UnknownReference "flight-level" "transition-altitude")
            (validateCrossReferences reference_batch navigation_corpus)) as Hunknown.
  { apply (proj2 (Hiff (make_term "flight-level" "Navigation" plain_text
                          [ related_to "flight-level"; related_to "vor";
                            related_to "transition-altitude" ])
                       (related_to "transition-altitude")
                       (or_introl eq_refl)
                       (or_intror (or_intror (or_introl eq_refl))))).
    vm_compute. intros [[H | []] | [H | [H | [H | [H | []]]]]]; discriminate. }
  split; [exact Hfile |]. split; [exact Hvalid |]. split; [| split].
  - rewrite Herrors. exact Hunknown.
  - intros Hvor.
    apply (proj1 (Hiff (make_term "flight-level" "Navigation" plain_text
                          [ related_to "flight-level"; related_to "vor";
                            related_to "transition-altitude" ])
                       (related_to "vor")
                       (or_introl eq_refl) (or_intror (or_introl eq_refl))) Hvor).
    right. vm_compute. left. reflexivity.
  - apply (Hinvalid _ Hunknown).
Defined.

Lemma C10_witness :
  In (make_term "flight-level" "Navigation" plain_text [ related_to "flight-level" ])
     (terms self_reference_batch) /\
  ~ In (UnknownReference "flight-level" "flight-level")
       (validateCrossReferences self_reference_batch []) /\
  validateCrossReferences self_reference_batch [] = [].
Proof.
  pose proof (C10_self_reference self_reference_batch []
                (make_term "flight-level" "Navigation" plain_text [ related_to "flight-level" ])
                (related_to "flight-level")
                (or_introl eq_refl) (or_introl eq_refl) eq_refl) as [Hnot Hall].
  split; [left; reflexivity |].
  split; [exact Hnot |].
  apply Hall. intros t r [<- | []] [<- | []]. reflexivity.
Defined.

Lemma C4_witness :
  batch_files flight_level_world "batch.json" = Holds flight_level_batch /\
  validateZodSchema example_error_map example_error_message flight_level_batch <> [] /\
  fst (validateBatch example_error_map example_error_message ajv_accepts "batch.json" flight_level_world) =
    {| valid := false;
       errors := [ZodFailure (example_error_message flight_level_batch)];
       warnings := []; termCount := 0; categories := [] |}.
Proof.
  assert (batch_files flight_level_world "batch.json" = Holds flight_level_batch) as Hfile
    by reflexivity.
  assert (validateZodSchema example_error_map example_error_message flight_level_batch <> []) as Hzod
    by (vm_compute; discriminate).
  pose proof (C4_fail_fast example_error_map example_error_message ajv_accepts "batch.json" flight_level_world
                flight_level_batch Hfile (or_intror Hzod)) as (Hreport & _).
  split; [exact Hfile |]. split; [exact Hzod |].
  rewrite Hreport. vm_compute. reflexivity.
Defined.

Lemma C8_witness :
  batch_files flight_level_world "batch.json" = Holds flight_level_batch /\
  test KEBAB_CASE_REGEX "Flight_Level" = false /\
  valid (fst (validateBatch example_error_map example_error_message ajv_accepts "batch.json" flight_level_world))
    = false /\
  (exists error,
     GlossaryBatchSchema_parse example_error_map example_error_message flight_level_batch
       = Some error /\
     In (issue_at ["terms"; "0"; "id"] id_format_message) (error_issues error)) /\
  errors (fst (validateBatch example_error_map example_error_message ajv_accepts "batch.json"
                 flight_level_world))
    = [ZodFailure (example_error_message flight_level_batch)] /\
  manifest_json
    (snd (validateBatch example_error_map example_error_message ajv_accepts "batch.json" flight_level_world))
    = Holds winter_manifest.
Proof.
  assert (batch_files flight_level_world "batch.json" = Holds flight_level_batch) as Hfile
    by reflexivity.
  assert (test KEBAB_CASE_REGEX "Flight_Level" = false) as Hid by reflexivity.
  pose proof (C8_kebab_case_ids example_error_map example_error_message ajv_accepts "batch.json" flight_level_world
                flight_level_batch 0
                (make_term "Flight_Level" "Navigation" plain_text [])
                Hfile eq_refl Hid) as (Hinvalid & Hthrown & Herrors & _ & Hframe & _).
  split; [exact Hfile |]. split; [exact Hid |]. split; [exact Hinvalid |].
  split; [exact Hthrown |].
  split; [rewrite Herrors; vm_compute; reflexivity |].
  rewrite Hframe. reflexivity.
Defined.

Lemma C9_witness :
  batch_files duplicate_world "batch.json" = Holds duplicate_batch /\
  ~ List.NoDup (map id (terms duplicate_batch)) /\
  GlossaryBatchSchema_parse example_error_map example_error_message duplicate_batch =
    Some {| error_issues := [issue_at ["terms"] unique_ids_message];
            error_errors := None;
            error_message := example_error_message duplicate_batch |} /\
  validateZodSchema example_error_map example_error_message duplicate_batch =
    [ZodFailure (example_error_message duplicate_batch)] /\
  valid (fst (validateBatch example_error_map example_error_message ajv_accepts "batch.json" duplicate_world)) = false.
Proof.
  assert (batch_files duplicate_world "batch.json" = Holds duplicate_batch) as Hfile
    by reflexivity.
  assert (~ List.NoDup (map id (terms duplicate_batch))) as Hdup.
  { intros Hnd. inversion Hnd as [|? ? Hout _]. apply Hout. left. reflexivity. }
  pose proof (C9_batch_constraints example_error_map example_error_message ajv_accepts "batch.json" duplicate_world
                duplicate_batch Hfile (or_intror Hdup)) as (_ & Hinvalid & _ & _ & _ & Honly).
  assert (forall j t, terms duplicate_batch !! j = Some t ->
            GlossaryTermSchema example_error_map ["terms"; pretty j] t = parsed_ok)
    as Hclean.
  { intros j t Ht. destruct j as [|[|j]].
    - injection Ht as <-. vm_compute. reflexivity.
    - injection Ht as <-. vm_compute. reflexivity.
    - cbn in Ht. discriminate Ht. }
  destruct (Honly Hclean Hdup) as [Hparse Hone].
  split; [exact Hfile |]. split; [exact Hdup |]. split; [exact Hparse |].
  split; [| exact Hinvalid].
  rewrite Hone. vm_compute. reflexivity.
Defined.

Lemma C5_witness :
  checkQuizRequirements weather_batch five_navigation_terms =
    [CategoryWarning "Weather" 2; NewCategoryWarning "Weather" 2] /\
  checkQuizRequirements (batch_with_text plain_text) five_navigation_terms = [].
Proof.
  pose proof (C5_quiz_readiness (batch_with_text plain_text) five_navigation_terms)
    as (_ & _ & _ & Hnone & _).
  split; [vm_compute; reflexivity |].
  apply Hnone. intros c Hc. vm_compute in Hc.
  destruct Hc as [<- | [<- | [<- | [<- | [<- | [<- | []]]]]]]; vm_compute; lia.
Defined.

Lemma C1_witness :
  batch_files (world_with_text text_241) "batch.json" = Holds (batch_with_text text_241) /\
  structuralErrors example_error_map example_error_message ajv_accepts (batch_with_text text_241) = [] /\
  warnings (fst (validateBatch example_error_map example_error_message ajv_accepts "batch.json"
                   (world_with_text text_241))) = [] /\
  2000 < String.length text_2001 /\
  valid (fst (validateBatch example_error_map example_error_message ajv_accepts "batch.json"
                (world_with_text text_2001))) = false /\
  errors (fst (validateBatch example_error_map example_error_message ajv_accepts "batch.json"
                 (world_with_text text_2001))) =
    [ZodFailure (or_else (example_error_message (batch_with_text text_2001))
                   "Unknown error")] /\
  exists error,
    GlossaryBatchSchema_parse example_error_map example_error_message
      (batch_with_text text_2001) = Some error /\
    In (issue_at ["terms"; "0"; "sections"; "whatItIs"; "content"] too_long_message)
       (error_issues error).
Proof.
  assert (structuralErrors example_error_map example_error_message ajv_accepts (batch_with_text text_241) = [])
    as Hvalid by (vm_compute; reflexivity).
  assert (2000 < String.length text_2001) as Hlong by (vm_compute; lia).
  pose proof (C1_no_length_advisory example_error_map example_error_message ajv_accepts "batch.json"
                (world_with_text text_241) (batch_with_text text_241) eq_refl)
    as (Hshort & _).
  destruct (Hshort Hvalid) as (_ & Hquiz & _).
  pose proof (C1_no_length_advisory example_error_map example_error_message ajv_accepts "batch.json"
                (world_with_text text_2001) (batch_with_text text_2001) eq_refl)
    as (_ & Hreject).
  destruct (Hreject 0 (make_term "flight-level" "Navigation" text_2001 [])
              "whatItIs" (section_of text_2001) eq_refl eq_refl Hlong)
    as (Hinvalid & _ & _ & Herrors & Hissue).
  split; [reflexivity |]. split; [exact Hvalid |]. split.
  - rewrite Hquiz; [vm_compute; reflexivity |].
    intros t [<- | []]. simpl. constructor; [intros [] | constructor].
  - split; [exact Hlong |]. split; [exact Hinvalid |].
    split; [exact Herrors | apply Hissue; reflexivity].
Defined.


Lemma C2_witness :
  batch_files (february_world NoFile) february_path = Holds (batch_with_text plain_text) /\
  manifest_of (february_world NoFile) = Some {| batches := [] |} /\
  manifest_json
    (snd (updateManifest posix_basename relative_id iso_getTime february_path
       (set_clock march
          (snd (updateManifest posix_basename relative_id iso_getTime february_path
                  (february_world NoFile)))))) =
  Holds {| batches := [ {| entry_id := "2025-02-01-batch-001";
                           entry_path := february_path;
                           entry_createdAt := march;
                           entry_termCount := 1;
                           entry_categories := ["Navigation"] |} ] |}.
Proof.
  pose proof (C2_idempotent_upsert posix_basename relative_id iso_getTime february_path
                (february_world NoFile) (batch_with_text plain_text) {| batches := [] |}
                eq_refl eq_refl) as (_ & _ & _ & _ & _ & _ & Htwice & _).
  destruct (Htwice march) as (m2 & _ & Hsaved & _ & _ & Hempty).
  destruct (Hempty eq_refl) as [Hone _].
  split; [reflexivity |]. split; [reflexivity |].
  rewrite Hsaved. destruct m2 as [entries]. simpl in Hone. rewrite Hone.
  vm_compute. reflexivity.
Defined.

Lemma C6_witness :
  batch_files (february_world (Holds winter_manifest)) february_path =
    Holds (batch_with_text plain_text) /\
  manifest_of (february_world (Holds winter_manifest)) = Some winter_manifest /\
  Forall (dated iso_getTime) (batches winter_manifest) /\
  iso_getTime (clock (february_world (Holds winter_manifest))) <> None /\
  exists m1,
    manifest_json
      (snd (updateManifest posix_basename relative_id iso_getTime february_path
              (february_world (Holds winter_manifest)))) = Holds m1 /\
    newest_first iso_getTime (batches m1).
Proof.
  assert (Forall (dated iso_getTime) (batches winter_manifest)) as Hdated
    by (repeat constructor; vm_compute; discriminate).
  assert (iso_getTime (clock (february_world (Holds winter_manifest))) <> None) as Hnow
    by (vm_compute; discriminate).
  pose proof (C6_sorted_newest_first posix_basename relative_id iso_getTime february_path
                (february_world (Holds winter_manifest)) (batch_with_text plain_text)
                winter_manifest eq_refl eq_refl Hdated Hnow) as ((m1 & Hsaved & Hsorted & _) & _).
  split; [reflexivity |]. split; [reflexivity |]. split; [exact Hdated |].
  split; [exact Hnow |].
  exists m1. split; assumption.
Defined.

(** * Further properties of the code *)

(** ** Words of the patterns *)

Lemma matches_Cls (k : cclass) (w : list ascii) :
  matches (Cls k) w <-> exists c, w = [c] /\ class_mem k c = true.
Proof.
  split.
  - intros H. inversion H; subst. eauto.
  - intros (c & -> & Hc). constructor. exact Hc.
Qed.

Lemma matches_Star_concat (r : regex) (w : list ascii) :
  matches (Star r) w <-> exists ws, w = concat ws /\ Forall (matches r) ws.
Proof.
  split.
  - intros H. remember (Star r) as sr eqn:Esr.
    induction H as [| | | | | r0 | r0 u v Hu _ Hv IHv]; try discriminate.
    + exists []. split; [reflexivity | constructor].
    + injection Esr as ->. destruct (IHv eq_refl) as (ws & -> & Hws).
      exists (u :: ws). split; [reflexivity | constructor; assumption].
  - intros (ws & -> & Hws). induction Hws as [|u ws Hu _ IH]; simpl.
    + constructor.
    + apply m_star_cons; assumption.
Qed.

Lemma matches_Star_Cls (k : cclass) (w : list ascii) :
  matches (Star (Cls k)) w <-> Forall (fun c => class_mem k c = true) w.
Proof.
  rewrite matches_Star_concat. split.
  - intros (ws & -> & Hws). induction Hws as [|u ws Hu _ IH]; simpl; [constructor |].
    apply matches_Cls in Hu as (c & -> & Hc). constructor; assumption.
  - intros Hw. exists (map (fun c => [c]) w). split.
    + induction w as [|c w IH]; simpl; [reflexivity |]. f_equal. apply IH.
      inversion Hw; assumption.
    + induction Hw as [|c w Hc _ IH]; simpl; constructor; [| exact IH].
      constructor. exact Hc.
Qed.

Lemma matches_Plus_Cls (k : cclass) (w : list ascii) :
  matches (Plus (Cls k)) w <-> w <> [] /\ Forall (fun c => class_mem k c = true) w.
Proof.
  unfold Plus. rewrite matches_Seq. split.
  - intros (u & v & -> & Hu & Hv). apply matches_Cls in Hu as (c & -> & Hc).
    apply matches_Star_Cls in Hv. split; [discriminate | constructor; assumption].
  - intros [Hne Hw]. destruct w as [|c w]; [congruence |].
    inversion Hw as [|? ? Hc Hrest]; subst.
    exists [c], w. repeat split.
    + constructor. exact Hc.
    + apply matches_Star_Cls. exact Hrest.
Qed.

Lemma matches_Lit (c : ascii) (w : list ascii) : matches (Lit c) w <-> w = [c].
Proof.
  unfold Lit. rewrite matches_Cls. simpl. split.
  - intros (d & -> & Hd). apply Ascii.eqb_eq in Hd. congruence.
  - intros ->. exists c. split; [reflexivity | apply Ascii.eqb_refl].
Qed.

Lemma join_hyphen_cons (seg : list ascii) (rest : list (list ascii)) :
  join_hyphen (seg :: rest) = seg ++ concat (map (fun u => "-"%char :: u) rest).
Proof.
  revert seg. induction rest as [|s rest IH]; intros seg.
  - simpl. rewrite app_nil_r. reflexivity.
  - change (join_hyphen (seg :: s :: rest)) with (seg ++ "-"%char :: join_hyphen (s :: rest)).
    rewrite IH. reflexivity.
Qed.

Lemma kebab_words (w : list ascii) :
  matches (body KEBAB_CASE_REGEX) w <->
  exists segments,
    segments <> [] /\ Forall alnum_segment segments /\ w = join_hyphen segments.
Proof.
  simpl body. rewrite matches_Seq. split.
  - intros (u & v & -> & Hu & Hv).
    apply matches_Plus_Cls in Hu.
    apply matches_Star_concat in Hv as (ws & -> & Hws).
    assert (exists rest, ws = map (fun s => "-"%char :: s) rest /\ Forall alnum_segment rest)
      as (rest & -> & Hrest).
    { induction Hws as [|x ws Hx _ IH].
      - exists []. split; [reflexivity | constructor].
      - destruct IH as (rest & -> & Hrest).
        apply matches_Seq in Hx as (a & b & -> & Ha & Hb).
        apply matches_Lit in Ha as ->. apply matches_Plus_Cls in Hb.
        exists (b :: rest). split; [reflexivity | constructor; assumption]. }
    exists (u :: rest). split; [discriminate |]. split; [constructor; assumption |].
    symmetry. apply join_hyphen_cons.
  - intros (segments & Hne & Hsegs & ->).
    destruct segments as [|seg rest]; [congruence |].
    inversion Hsegs as [|? ? Hseg Hrest]; subst.
    exists seg, (concat (map (fun s => "-"%char :: s) rest)).
    split; [apply join_hyphen_cons |]. split; [apply matches_Plus_Cls; exact Hseg |].
    apply matches_Star_concat. exists (map (fun s => "-"%char :: s) rest).
    split; [reflexivity |].
    clear Hsegs Hne Hseg. induction Hrest as [|s rest Hs _ IH]; simpl; constructor; [| exact IH].
    apply matches_Seq. exists ["-"%char], s. repeat split.
    + apply matches_Lit. reflexivity.
    + apply matches_Plus_Cls. exact Hs.
Qed.

Lemma hyphen_not_alnum : class_mem lower_or_digit "-" = false.
Proof. reflexivity. Qed.

Lemma adjacent_hyphens_cons2 (a b : ascii) (x : list ascii) :
  adjacent_hyphens (a :: b :: x) =
  (Ascii.eqb a "-" && Ascii.eqb b "-") || adjacent_hyphens (b :: x).
Proof. reflexivity. Qed.

Lemma adjacent_hyphens_alnum (u v : list ascii) :
  Forall (fun c => class_mem lower_or_digit c = true) u ->
  u <> [] ->
  adjacent_hyphens (u ++ v) = adjacent_hyphens v /\
  adjacent_hyphens ("-"%char :: u ++ v) = adjacent_hyphens v.
Proof.
  intros Hu Hne.
  assert (forall c, class_mem lower_or_digit c = true -> Ascii.eqb c "-" = false) as Hnot.
  { intros c Hc. destruct (Ascii.eqb_spec c "-") as [-> | _]; [| reflexivity].
    rewrite hyphen_not_alnum in Hc. discriminate. }
  assert (forall c x, class_mem lower_or_digit c = true ->
            adjacent_hyphens (c :: x) = adjacent_hyphens x) as Hstep.
  { intros c x Hc. destruct x as [|d x]; [reflexivity |].
    rewrite adjacent_hyphens_cons2, (Hnot c Hc). reflexivity. }
  assert (adjacent_hyphens (u ++ v) = adjacent_hyphens v) as Happ.
  { clear Hne. induction Hu as [|c u Hc _ IH]; [reflexivity |].
    simpl app. rewrite Hstep by exact Hc. exact IH. }
  split; [exact Happ |].
  destruct u as [|c u]; [congruence |]. inversion Hu as [|? ? Hc _]; subst.
  simpl app. rewrite adjacent_hyphens_cons2, (Hnot c Hc), andb_false_r.
  simpl orb. exact Happ.
Qed.

Lemma alnum_segment_ends (seg : list ascii) :
  alnum_segment seg ->
  (exists c x, seg = c :: x /\ c <> "-"%char) /\
  (exists d y, rev seg = d :: y /\ d <> "-"%char).
Proof.
  intros [Hne Hc]. rewrite List.Forall_forall in Hc.
  assert (forall c, In c seg -> c <> "-"%char) as Hnot.
  { intros c Hin ->. specialize (Hc _ Hin). rewrite hyphen_not_alnum in Hc. discriminate. }
  split.
  - destruct seg as [|c x]; [congruence |]. exists c, x. split; [reflexivity |].
    apply Hnot. left. reflexivity.
  - destruct (rev seg) as [|d y] eqn:Er.
    + apply (f_equal (@rev ascii)) in Er. rewrite rev_involutive in Er. simpl in Er. congruence.
    + exists d, y. split; [reflexivity |]. apply Hnot. apply in_rev. rewrite Er. left. reflexivity.
Qed.

Lemma join_hyphen_shape (segments : list (list ascii)) :
  segments <> [] -> Forall alnum_segment segments ->
  hd_error (join_hyphen segments) <> None /\
  hd_error (join_hyphen segments) <> Some "-"%char /\
  hd_error (rev (join_hyphen segments)) <> Some "-"%char /\
  adjacent_hyphens (join_hyphen segments) = false.
Proof.
  intros Hne Hsegs. destruct segments as [|seg rest]; [congruence |]. clear Hne.
  revert seg Hsegs. induction rest as [|s rest IH]; intros seg Hsegs;
    inversion Hsegs as [|? ? Hseg Hrest]; subst;
    destruct (alnum_segment_ends seg Hseg) as ((c & x & Ec & Hc) & (d & y & Ed & Hd)).
  - simpl join_hyphen. rewrite Ed. rewrite Ec at 1 2. simpl hd_error.
    split; [discriminate |]. split; [congruence |]. split; [congruence |].
    rewrite <- (app_nil_r seg).
    rewrite (proj1 (adjacent_hyphens_alnum seg [] (proj2 Hseg) (proj1 Hseg))). reflexivity.
  - destruct (IH s Hrest) as (Hnonempty & _ & Hlast & Hadj).
    change (join_hyphen (seg :: s :: rest))
      with (seg ++ "-"%char :: join_hyphen (s :: rest)).
    assert (adjacent_hyphens ("-"%char :: join_hyphen (s :: rest)) = false) as Hadj'.
    { inversion Hrest as [|? ? Hs _].
      rewrite join_hyphen_cons in Hadj |- *.
      rewrite (proj2 (adjacent_hyphens_alnum s _ (proj2 Hs) (proj1 Hs))).
      rewrite (proj1 (adjacent_hyphens_alnum s _ (proj2 Hs) (proj1 Hs))) in Hadj.
      exact Hadj. }
    generalize dependent (join_hyphen (s :: rest)). intros T Hnonempty Hlast Hadj Hadj'.
    split; [rewrite Ec; discriminate |].
    split; [rewrite Ec; simpl; congruence |].
    split.
    + rewrite rev_app_distr.
      change (rev ("-"%char :: T)) with (rev T ++ ["-"%char]).
      destruct (rev T) as [|e z] eqn:Er; [| exact Hlast].
      exfalso. apply Hnonempty.
      apply (f_equal (@rev ascii)) in Er. rewrite rev_involutive in Er. rewrite Er. reflexivity.
    + rewrite (proj1 (adjacent_hyphens_alnum seg _ (proj2 Hseg) (proj1 Hseg))).
      exact Hadj'.
Qed.

(** X1.  The id pattern accepts exactly the non-empty words of lowercase
    letters and digits joined by single hyphens; an accepted id is not
    empty, neither starts nor ends with a hyphen and has no two hyphens
    in a row. *)
Theorem kebab_case_segments (s : string) :
  (test KEBAB_CASE_REGEX s = true <->
   exists segments,
     segments <> [] /\ Forall alnum_segment segments /\
     list_ascii_of_string s = join_hyphen segments) /\
  (test KEBAB_CASE_REGEX s = true ->
   s <> EmptyString /\
   hd_error (list_ascii_of_string s) <> Some "-"%char /\
   hd_error (rev (list_ascii_of_string s)) <> Some "-"%char /\
   adjacent_hyphens (list_ascii_of_string s) = false).
Proof.
  assert (test KEBAB_CASE_REGEX s = true <->
          exists segments,
            segments <> [] /\ Forall alnum_segment segments /\
            list_ascii_of_string s = join_hyphen segments) as Hiff.
  { unfold test. simpl anchored. cbv iota. rewrite full_match_spec. apply kebab_words. }
  split; [exact Hiff |].
  intros Hk. apply Hiff in Hk as (segments & Hne & Hsegs & Hw).
  destruct (join_hyphen_shape segments Hne Hsegs) as (H0 & H1 & H2 & H3).
  rewrite Hw. repeat split; try assumption.
  intros ->. simpl in Hw. rewrite <- Hw in H0. apply H0. reflexivity.
Qed.

Lemma join_hyphen_tag_chars (segments : list (list ascii)) :
  Forall alnum_segment segments ->
  Forall (fun c => class_mem (CUnion lower_or_digit (CChar "-")) c = true)
    (join_hyphen segments).
Proof.
  intros Hsegs.
  assert (forall seg, alnum_segment seg ->
            Forall (fun c => class_mem (CUnion lower_or_digit (CChar "-")) c = true) seg)
    as Hseg.
  { intros seg [_ Hc]. eapply List.Forall_impl; [| exact Hc].
    intros c Hl. simpl in *. rewrite Hl. reflexivity. }
  induction Hsegs as [|seg rest Hs Hrest IH]; [constructor |].
  rewrite join_hyphen_cons. apply List.Forall_app. split; [apply Hseg; exact Hs |].
  clear IH. induction Hrest as [|s rest Hs' _ IH]; simpl; [constructor |].
  constructor; [reflexivity |]. apply List.Forall_app. split; [apply Hseg; exact Hs' | exact IH].
Qed.

(** X2.  The tag pattern accepts exactly the non-empty words of lowercase
    letters, digits and hyphens; so every id in kebab case is also a tag. *)
Theorem tag_pattern_words (s : string) :
  (test TAG_PATTERN s = true <->
   s <> EmptyString /\
   Forall (fun c => class_mem (CUnion lower_or_digit (CChar "-")) c = true)
     (list_ascii_of_string s)) /\
  (test KEBAB_CASE_REGEX s = true -> test TAG_PATTERN s = true).
Proof.
  assert (test TAG_PATTERN s = true <->
          list_ascii_of_string s <> [] /\
          Forall (fun c => class_mem (CUnion lower_or_digit (CChar "-")) c = true)
            (list_ascii_of_string s)) as Htag.
  { unfold test. simpl anchored. cbv iota. rewrite full_match_spec.
    apply matches_Plus_Cls. }
  split.
  - rewrite Htag. destruct s; simpl; split; intros [Hne Hall]; split; congruence.
  - intros Hk. apply Htag. unfold test in Hk. simpl anchored in Hk. cbv iota in Hk.
    apply full_match_spec, kebab_words in Hk as (segments & Hne & Hsegs & ->).
    split; [| apply join_hyphen_tag_chars; exact Hsegs].
    destruct segments as [|seg rest]; [congruence |].
    inversion Hsegs as [|? ? [Hseg _] _]; subst.
    rewrite join_hyphen_cons. destruct seg; [congruence | discriminate].
Qed.

(** ** Markup patterns *)

Lemma list_ascii_of_append (a b : string) :
  list_ascii_of_string (String.append a b) =
  list_ascii_of_string a ++ list_ascii_of_string b.
Proof. induction a as [|c a IH]; simpl; [reflexivity | rewrite IH; reflexivity]. Qed.

Lemma search_factor (r : regex) (p u q : list ascii) :
  search r u = true -> search r (p ++ u ++ q) = true.
Proof.
  rewrite !search_spec. intros (p' & w & q' & -> & Hw).
  exists (p ++ p'), w, (q' ++ q). split; [| exact Hw].
  rewrite <- !app_assoc. reflexivity.
Qed.

Lemma search_weaken (r s : regex) (w : list ascii) :
  (forall u, matches r u -> exists a v b, u = a ++ v ++ b /\ matches s v) ->
  search r w = true -> search s w = true.
Proof.
  intros Hsub. rewrite !search_spec. intros (p & u & q & -> & Hu).
  destruct (Hsub u Hu) as (a & v & b & -> & Hv).
  exists (p ++ a), v, (b ++ q). split; [| exact Hv].
  rewrite <- !app_assoc. reflexivity.
Qed.

Lemma bold_is_italic (w : list ascii) :
  search (body re_bold) w = true -> search (body re_italic_star) w = true.
Proof.
  apply search_weaken. intros u Hu. simpl body in *.
  apply matches_Seq in Hu as (a1 & r1 & -> & Ha1 & Hu).
  apply matches_Seq in Hu as (a2 & r2 & -> & Ha2 & Hu).
  apply matches_Seq in Hu as (d & r3 & -> & Hd & Hu).
  apply matches_Seq in Hu as (a3 & a4 & -> & Ha3 & Ha4).
  apply matches_Lit in Ha1 as ->, Ha2 as ->, Ha3 as ->, Ha4 as ->.
  exists [], (["*"%char] ++ (["*"%char] ++ d ++ ["*"%char]) ++ ["*"%char]), [].
  split; [simpl; rewrite app_nil_r, <- !app_assoc; reflexivity |].
  apply m_seq; [apply matches_Lit; reflexivity |].
  apply m_seq; [| apply matches_Lit; reflexivity].
  unfold dots in *. apply matches_Star_Cls. apply matches_Star_Cls in Hd.
  apply List.Forall_app. split; [repeat constructor |].
  apply List.Forall_app. split; [exact Hd | repeat constructor].
Qed.

Lemma image_is_link (w : list ascii) :
  search (body re_image) w = true -> search (body re_link) w = true.
Proof.
  apply search_weaken. intros u Hu. simpl body in Hu.
  apply matches_Seq in Hu as (a & v & -> & Ha & Hv).
  exists a, v, []. split; [rewrite app_nil_r; reflexivity | exact Hv].
Qed.

(** X3.  Whatever the bold pattern finds the starred italic pattern finds
    too, and whatever the image pattern finds the link pattern finds too:
    the sweep reports bold text also as italic and an image also as a
    link, for the same term and section. *)
Theorem markup_reported_twice (batch : GlossaryBatch) (term sectionName : string) :
  (forall text, test re_bold text = true -> test re_italic_star text = true) /\
  (forall text, test re_image text = true -> test re_link text = true) /\
  (In (MarkdownWarning term sectionName "bold (**text**)") (checkForMarkdown batch) ->
   In (MarkdownWarning term sectionName "italic (*text*)") (checkForMarkdown batch)) /\
  (In (MarkdownWarning term sectionName "images (![alt](url))") (checkForMarkdown batch) ->
   In (MarkdownWarning term sectionName "links ([text](url))") (checkForMarkdown batch)).
Proof.
  assert (forall text, test re_bold text = true -> test re_italic_star text = true) as Hbold
    by (intros text; apply bold_is_italic).
  assert (forall text, test re_image text = true -> test re_link text = true) as Himage
    by (intros text; apply image_is_link).
  split; [exact Hbold |]. split; [exact Himage |]. split.
  - intros Hin. apply checkForMarkdown_In in Hin
      as (t & k & s & p & name & Ht & Hs & Hne & Hp & Htest & Heq).
    injection Heq as Hid Hk Hname. subst term sectionName name.
    assert (p = re_bold) as ->.
    { destruct Hp as [Hp | [Hp | [Hp | [Hp | [Hp | [Hp | []]]]]]];
        inversion Hp; reflexivity. }
    apply checkForMarkdown_reports with s re_italic_star; try assumption.
    + right. left. reflexivity.
    + apply Hbold. exact Htest.
  - intros Hin. apply checkForMarkdown_In in Hin
      as (t & k & s & p & name & Ht & Hs & Hne & Hp & Htest & Heq).
    injection Heq as Hid Hk Hname. subst term sectionName name.
    assert (p = re_image) as ->.
    { destruct Hp as [Hp | [Hp | [Hp | [Hp | [Hp | [Hp | []]]]]]];
        inversion Hp; reflexivity. }
    apply checkForMarkdown_reports with s re_link; try assumption.
    + do 4 right. left. reflexivity.
    + apply Himage. exact Htest.
Qed.

(** X4.  Markup cannot be hidden by the text around it: a text that
    contains a text with markup has markup, so every part of a plain
    text is plain. *)
Theorem containsMarkdown_factor (before text after : string) :
  containsMarkdown text = true ->
  containsMarkdown (String.append before (String.append text after)) = true.
Proof.
  unfold containsMarkdown. rewrite !existsb_exists.
  intros (p & Hp & Ht). exists p. split; [exact Hp |].
  assert (anchored p = false) as Ha.
  { unfold MARKDOWN_PATTERNS in Hp. simpl in Hp.
    repeat (destruct Hp as [<- | Hp]; [reflexivity |]). destruct Hp. }
  unfold test in *. rewrite Ha in *.
  rewrite !list_ascii_of_append. apply search_factor. exact Ht.
Qed.

(** ** What the Zod pass accepts *)

Section Acceptance.

Variable defaultErrorMap : ZodIssueCode -> string.

Lemma zarray_issues_nil {A : Type} (elem : list string -> A -> Parsed)
    (path : list string) (xs : list A) (P : A -> Prop) :
  (forall p x, snd (elem p x) = [] <-> P x) ->
  (snd (zarray elem path xs) = [] <-> Forall P xs).
Proof.
  intros Helem. unfold zarray. rewrite parsed_all_issues, flat_map_nil_iff, Forall_lookup.
  split.
  - intros H i x Hi. apply (Helem (path ++ [pretty i])).
    apply (H (elem (path ++ [pretty i]) x)). apply In_imap. exists i, x. auto.
  - intros H q Hq. apply In_imap in Hq as (i & x & Hi & ->). apply Helem. apply (H i x Hi).
Qed.

Lemma zenum_issues_nil (options : list string) (path : list string) (s : string) :
  snd (zenum defaultErrorMap options path s) = [] <-> includes options s = true.
Proof.
  unfold zenum. destruct (includes options s); simpl; split; congruence.
Qed.

Lemma checks_min_max (lo hi : nat) (m1 m2 : option string) (path : list string) (s : string) :
  snd (zstring defaultErrorMap [check_min lo m1; check_max hi m2] path s) = [] <->
  length_between lo hi s.
Proof.
  unfold zstring, length_between. simpl.
  destruct (Nat.ltb_spec (String.length s) lo); destruct (Nat.ltb_spec hi (String.length s));
    simpl; split; try discriminate; try lia; reflexivity.
Qed.

Lemma checks_regex_min_max (p : RegExp) (msg : string) (lo hi : nat) (m1 m2 : option string)
    (path : list string) (s : string) :
  snd (zstring defaultErrorMap [check_regex p msg; check_min lo m1; check_max hi m2] path s)
    = [] <->
  test p s = true /\ length_between lo hi s.
Proof.
  unfold zstring, length_between. simpl.
  destruct (test p s); destruct (Nat.ltb_spec (String.length s) lo);
    destruct (Nat.ltb_spec hi (String.length s));
    simpl; split; try discriminate; try lia; try tauto; intros; repeat split; lia || reflexivity.
Qed.

Lemma checks_regex (p : RegExp) (msg : string) (path : list string) (s : string) :
  snd (zstring defaultErrorMap [check_regex p msg] path s) = [] <-> test p s = true.
Proof.
  unfold zstring. simpl. destruct (test p s); simpl; split; congruence.
Qed.

Lemma GlossarySectionSchema_nil (path : list string) (s : GlossarySection) :
  snd (GlossarySectionSchema defaultErrorMap path s) = [] <-> section_ok s.
Proof.
  unfold GlossarySectionSchema, zstring, content_checks, section_ok, length_between. simpl.
  destruct (containsMarkdown (content s)); simpl;
    destruct (Nat.ltb_spec (String.length (content s)) 10);
    destruct (Nat.ltb_spec 2000 (String.length (content s)));
    simpl; split; try discriminate; try lia; try tauto; intros; repeat split; lia || reflexivity.
Qed.

Lemma SemanticRelationshipSchema_nil (path : list string) (r : SemanticRelationship) :
  snd (SemanticRelationshipSchema defaultErrorMap path r) = [] <-> relationship_ok r.
Proof.
  unfold SemanticRelationshipSchema, relationship_ok.
  rewrite parsed_all_issues. cbn [flat_map]. rewrite app_nil_r, !app_nil.
  rewrite checks_regex_min_max, zenum_issues_nil.
  destruct (description r) as [d|]; cbn [zoptional].
  - rewrite checks_min_max. split.
    + intros ((Hk & Hl) & Hty & Hd).
      split; [exact Hk |]. split; [exact Hl |]. split; [exact Hty |].
      intros d' Hd'. injection Hd' as <-. exact Hd.
    + intros (Hk & Hl & Hty & Hd).
      split; [split; assumption |]. split; [exact Hty |]. apply (Hd d eq_refl).
  - split.
    + intros ((Hk & Hl) & Hty & _).
      split; [exact Hk |]. split; [exact Hl |]. split; [exact Hty |]. discriminate.
    + intros (Hk & Hl & Hty & _).
      split; [split; assumption |]. split; [exact Hty |]. reflexivity.
Qed.

Lemma zstrict_nil (path : list string) (secs : list (string * GlossarySection)) :
  snd (zstrict defaultErrorMap section_keys path secs) = [] <->
  forall k, In k (map fst secs) -> includes section_keys k = true.
Proof.
  unfold zstrict.
  destruct (List.filter _ _) as [|x xs] eqn:Ef; unfold parsed_ok; cbn [snd].
  - split; [| reflexivity]. intros _ k Hk.
    destruct (includes section_keys k) eqn:Hin; [reflexivity |].
    assert (In k (List.filter (fun k0 => negb (includes section_keys k0)) (map fst secs)))
      as Hf by (apply filter_In; rewrite Hin; auto).
    rewrite Ef in Hf. destruct Hf.
  - split; [discriminate |]. intros Hall.
    assert (In x (List.filter (fun k0 => negb (includes section_keys k0)) (map fst secs)))
      as Hf by (rewrite Ef; left; reflexivity).
    apply filter_In in Hf as [Hx Hn]. rewrite (Hall x Hx) in Hn. discriminate.
Qed.

Lemma optional_section_nil (path : list string) (x : option GlossarySection) :
  snd (zoptional (GlossarySectionSchema defaultErrorMap) path x) = [] <->
  forall s, x = Some s -> section_ok s.
Proof.
  destruct x as [s|]; cbn [zoptional].
  - rewrite GlossarySectionSchema_nil. split; [intros H s' Hs; congruence | auto].
  - split; [discriminate | reflexivity].
Qed.

Lemma SectionsSchema_nil (path : list string) (secs : list (string * GlossarySection)) :
  snd (SectionsSchema defaultErrorMap path secs) = [] <-> sections_ok secs.
Proof.
  unfold SectionsSchema, sections_ok.
  rewrite parsed_all_issues. cbn [flat_map]. rewrite app_nil_r, !app_nil.
  rewrite !optional_section_nil, zstrict_nil.
  split.
  - intros (Hreq & Hloc & Hhow & Hdo & Htrouble & Hkeys).
    destruct (entry_get "whatItIs" secs) as [s0|] eqn:E0; cbn [zrequired] in Hreq;
      [| discriminate].
    apply GlossarySectionSchema_nil in Hreq.
    split; [eauto |]. split; [exact Hkeys |].
    intros k s Hk Hget. apply section_keys_cases in Hk.
    destruct Hk as [-> | [-> | [-> | [-> | ->]]]]; auto. congruence.
  - intros ((s0 & E0) & Hkeys & Hsecs).
    rewrite E0. cbn [zrequired]. rewrite GlossarySectionSchema_nil.
    split; [apply (Hsecs "whatItIs" s0 eq_refl E0) |].
    do 4 (split; [intros s Hs; refine (Hsecs _ s _ Hs); reflexivity |]).
    exact Hkeys.
Qed.

Lemma GlossaryTermSchema_nil (path : list string) (t : GlossaryTerm) :
  snd (GlossaryTermSchema defaultErrorMap path t) = [] <-> term_ok t.
Proof.
  unfold GlossaryTermSchema, term_ok.
  rewrite parsed_all_issues. cbn [flat_map]. rewrite app_nil_r, !app_nil.
  rewrite checks_regex_min_max, checks_min_max, zenum_issues_nil, SectionsSchema_nil.
  rewrite (zarray_issues_nil _ _ (synonyms t) (length_between 1 100))
    by (intros; apply checks_min_max).
  rewrite (zarray_issues_nil _ _ (tags t) tag_ok)
    by (intros; apply checks_regex_min_max).
  rewrite (zarray_issues_nil _ _ (relationships t) relationship_ok)
    by (intros; apply SemanticRelationshipSchema_nil).
  rewrite !checks_regex. tauto.
Qed.

Lemma GlossaryBatchSchema_nil (b : GlossaryBatch) :
  snd (GlossaryBatchSchema defaultErrorMap b) = [] <-> batch_ok b.
Proof.
  unfold batch_ok.
  pose proof (zarray_issues_nil (GlossaryTermSchema defaultErrorMap) ["terms"] (terms b)
                term_ok (fun p x => GlossaryTermSchema_nil p x)) as Harr.
  pose proof (zarray_accounted (GlossaryTermSchema defaultErrorMap) ["terms"] (terms b)
                (fun p x => GlossaryTermSchema_accounted defaultErrorMap p x)) as Hacc.
  unfold accounted in Hacc.
  unfold GlossaryBatchSchema.
  set (arr := zarray (GlossaryTermSchema defaultErrorMap) ["terms"] (terms b)) in *.
  unfold parsed_and. cbn [fst snd orb].
  destruct (fst arr) eqn:Hab; cbn [snd].
  - split.
    + intros Hnil. apply app_nil in Hnil as [_ Hnil]. exfalso. apply Hacc; auto.
    + intros (_ & _ & Hall). apply Harr in Hall. exfalso. apply Hacc; auto.
  - destruct (ids_unique (terms b)) eqn:Hu; cbn [snd].
    + rewrite app_nil, Harr. apply ids_unique_spec in Hu.
      destruct (terms b) as [|t ts]; simpl.
      * split; [intros [H _]; discriminate | intros [H _]; congruence].
      * split; [intros [_ H]; repeat split; [discriminate | exact Hu | exact H]
               | intros (_ & _ & H); auto].
    + split.
      * intros Hnil. apply app_nil in Hnil as [_ Hnil]. discriminate.
      * intros (_ & Hnd & _). apply ids_unique_spec in Hnd. congruence.
Qed.

End Acceptance.

(** X5.  The Zod pass reports nothing exactly for the batches with at
    least one term, distinct ids and, in every term, a kebab-case id of 1
    to 100 characters, a title of 1 to 200, a category of the list, a
    [whatItIs] section, section keys among the five, plain section
    contents of 10 to 2000 characters, synonyms of 1 to 100, lowercase
    tags of 1 to 50, relationships with a kebab-case target of 1 to 100
    characters, a type of the list and a description, if any, of 10 to
    500, and ISO timestamps: no issue hides another. *)
Theorem zod_accepts_exactly (defaultErrorMap : ZodIssueCode -> string)
    (ZodError_message : GlossaryBatch -> string) (b : GlossaryBatch) :
  validateZodSchema defaultErrorMap ZodError_message b = [] <-> batch_ok b.
Proof.
  rewrite validateZodSchema_nil. apply GlossaryBatchSchema_nil.
Qed.

(** ** More of the validator *)

Section ValidatorFacts.

Variable defaultErrorMap : ZodIssueCode -> string.
Variable ZodError_message : GlossaryBatch -> string.
Variable ajv : GlossaryBatch -> option string + list AjvError.

Local Notation "'run'" := (validateBatch defaultErrorMap ZodError_message ajv).

(** X6.  When the batch file is absent or cannot be parsed, validation
    returns the load error alone, wrapped twice, with no warning and no
    metadata; neither pass and no other file is consulted, and nothing is
    written. *)
Theorem load_failure_report (filePath : string) (w : World) :
  (forall data, batch_files w filePath <> Holds data) ->
  exists detail,
    run filePath w =
      ({| valid := false;
          errors := [LoadError (String.append "Failed to load JSON file: " detail)];
          warnings := []; termCount := 0; categories := [] |}, w) /\
    (batch_files w filePath = NoFile -> detail = enoent filePath) /\
    (forall d, batch_files w filePath = Garbled d -> detail = d) /\
    render (LoadError (String.append "Failed to load JSON file: " detail)) =
      String.append "Failed to load file: Failed to load JSON file: " detail /\
    (forall g, fst (run filePath (set_glossaryData g w)) = fst (run filePath w)).
Proof.
  intros Hno.
  assert (forall g, batch_files (set_glossaryData g w) filePath = batch_files w filePath)
    as Hsame by reflexivity.
  unfold validateBatch, loadJsonFile, readJson, gets, bind, ret. simpl.
  destruct (batch_files w filePath) as [| d | data] eqn:E.
  - exists (enoent filePath). repeat split; try reflexivity; congruence.
  - exists d. repeat split; try reflexivity; congruence.
  - exfalso. apply (Hno data). reflexivity.
Qed.

(** X7.  When the JSON-Schema pass throws (the schema cannot be read or
    compiled), every document is rejected: the report is invalid, its
    first error is the failure of the pass, followed by the errors of the
    Zod pass only. *)
Theorem schema_failure_rejects (filePath : string) (w : World) (data : GlossaryBatch)
    (thrown : option string) :
  batch_files w filePath = Holds data ->
  ajv data = inl thrown ->
  fst (run filePath w) =
    {| valid := false;
       errors := JsonSchemaFailure (default "Unknown error" thrown)
                 :: validateZodSchema defaultErrorMap ZodError_message data;
       warnings := []; termCount := 0; categories := [] |}.
Proof.
  intros Hfile Hthrown.
  rewrite (validateBatch_rejected defaultErrorMap ZodError_message ajv filePath w data Hfile).
  - unfold structuralErrors, validateJsonSchema. rewrite Hthrown. reflexivity.
  - unfold structuralErrors, validateJsonSchema. rewrite Hthrown. discriminate.
Qed.

Lemma incl_VALID_CATEGORIES (b : GlossaryBatch) :
  batch_ok b -> forall c, In c (map category (terms b)) -> In c VALID_CATEGORIES.
Proof.
  intros (_ & _ & Hterms) c Hc. apply in_map_iff in Hc as (t & <- & Ht).
  rewrite List.Forall_forall in Hterms. destruct (Hterms t Ht) as (_ & _ & _ & Hcat & _).
  unfold includes in Hcat. apply existsb_exists in Hcat as (x & Hx & Heq).
  apply String.eqb_eq in Heq. subst. exact Hx.
Qed.

Lemma unique_length (xs : list string) : length (unique xs) <= length xs.
Proof.
  induction xs as [|x xs IH]; simpl; [lia |].
  pose proof (List.filter_length_le (fun y => negb (String.eqb y x)) (unique xs)). lia.
Qed.

(** X8.  The metadata of the report of a structurally valid batch: the
    term count is the number of terms and at least one; the categories
    are those of the terms, each once, all from the list of valid
    categories, so at most 26 and at most as many as the terms. *)
Theorem report_metadata (filePath : string) (w : World) (data : GlossaryBatch) :
  batch_files w filePath = Holds data ->
  structuralErrors defaultErrorMap ZodError_message ajv data = [] ->
  let report := fst (run filePath w) in
  termCount report = length (terms data) /\
  1 <= termCount report /\
  List.NoDup (categories report) /\
  (forall c, In c (categories report) <-> exists t, In t (terms data) /\ category t = c) /\
  (forall c, In c (categories report) -> In c VALID_CATEGORIES) /\
  length (categories report) <= termCount report /\
  length (categories report) <= 26.
Proof.
  intros Hfile Hvalid report. subst report.
  rewrite (validateBatch_structurally_valid defaultErrorMap ZodError_message ajv filePath w data Hfile Hvalid).
  simpl.
  assert (batch_ok data) as Hok.
  { apply GlossaryBatchSchema_nil with defaultErrorMap.
    unfold structuralErrors in Hvalid.
    apply app_eq_nil in Hvalid as [_ Hz]. apply validateZodSchema_nil in Hz. exact Hz. }
  assert (forall c, In c (unique (map category (terms data))) -> In c VALID_CATEGORIES)
    as Hincl.
  { intros c Hc. apply (incl_VALID_CATEGORIES data Hok). apply unique_In. exact Hc. }
  split; [reflexivity |]. split.
  { destruct Hok as (Hne & _). destruct (terms data); [congruence | simpl; lia]. }
  split; [apply unique_NoDup |]. split.
  { intros c. rewrite unique_In, in_map_iff. split; intros (t & H1 & H2); exists t; auto. }
  split; [exact Hincl |]. split.
  { pose proof (unique_length (map category (terms data))) as Hle.
    rewrite length_map in Hle. exact Hle. }
  change 26 with (length VALID_CATEGORIES).
  apply NoDup_incl_length; [apply unique_NoDup | exact Hincl].
Qed.

Lemma validate_main_run (filePath : string) (rest : list string) (w : World) :
  ValidateBatch.main defaultErrorMap ZodError_message ajv (filePath :: rest) w =
  (match batch_files w filePath with
   | NoFile => 1
   | _ => if valid (fst (run filePath w)) then 0 else 1
   end, w).
Proof.
  unfold ValidateBatch.main, bind, existsSync, gets, ret.
  destruct (batch_files w filePath) eqn:E; cbn [negb]; [reflexivity | |].
  all: pose proof (validateBatch_frame defaultErrorMap ZodError_message ajv filePath w) as Hframe;
    destruct (run filePath w) as [result w'] eqn:Er; cbn [fst snd] in *; subst w';
    destruct (valid result); cbn [negb];
    [destruct (0 <? _)%nat; reflexivity | reflexivity].
Qed.

(** X9.  The exit code of the validator is 0 or 1; it is 0 exactly when
    the first argument names a file that holds a document without
    structural error and with all references resolved, whatever the
    warnings; and the run writes no file. *)
Theorem validate_exit_code (args : list string) (w : World) :
  let outcome := ValidateBatch.main defaultErrorMap ZodError_message ajv args w in
  (fst outcome = 0 \/ fst outcome = 1) /\
  snd outcome = w /\
  (fst outcome = 0 <->
   exists filePath rest data,
     args = filePath :: rest /\
     batch_files w filePath = Holds data /\
     structuralErrors defaultErrorMap ZodError_message ajv data = [] /\
     validateCrossReferences data (corpus w) = []).
Proof.
  intros outcome. subst outcome.
  destruct args as [|filePath rest].
  { simpl. split; [auto |]. split; [reflexivity |].
    split; [discriminate | intros (f & r & d & H & _); discriminate]. }
  rewrite validate_main_run. cbn [fst snd].
  destruct (batch_files w filePath) as [| d | data] eqn:E.
  - split; [auto |]. split; [reflexivity |]. split; [discriminate |].
    intros (f & r & x & Hargs & Hf & _). injection Hargs as <- _. congruence.
  - destruct (validateBatch_unloadable defaultErrorMap ZodError_message ajv filePath w) as (detail & Hrun);
      [congruence |].
    rewrite Hrun. cbn [fst valid]. split; [auto |]. split; [reflexivity |].
    split; [discriminate |].
    intros (f & r & x & Hargs & Hf & _). injection Hargs as <- _. congruence.
  - destruct (structuralErrors defaultErrorMap ZodError_message ajv data) as [|m ms] eqn:Es.
    + rewrite (validateBatch_structurally_valid defaultErrorMap ZodError_message ajv filePath w data E Es).
      cbn [valid fst].
      destruct (validateCrossReferences data (corpus w)) as [|e es] eqn:Ex; cbn.
      * split; [auto |]. split; [reflexivity |].
        split; [| reflexivity]. intros _. exists filePath, rest, data. auto.
      * split; [auto |]. split; [reflexivity |]. split; [discriminate |].
        intros (f & r & x & Hargs & Hf & Hs & Hx). injection Hargs as <- _.
        rewrite E in Hf. injection Hf as <-. congruence.
    + rewrite (validateBatch_rejected defaultErrorMap ZodError_message ajv filePath w data E)
        by congruence.
      cbn. split; [auto |]. split; [reflexivity |]. split; [discriminate |].
      intros (f & r & x & Hargs & Hf & Hs & _). injection Hargs as <- _.
      rewrite E in Hf. injection Hf as <-. congruence.
Qed.

(** X10.  Without a usable [glossaryData.json] (absent, unparseable or
    without terms) validation runs against the empty corpus: the report
    is that of an empty corpus, and a structurally valid batch is valid
    exactly when every relationship points at a term of the batch. *)
Theorem degraded_corpus (filePath : string) (w : World) (data : GlossaryBatch) :
  (forall ts, glossaryData w <> Holds (Some ts)) ->
  batch_files w filePath = Holds data ->
  structuralErrors defaultErrorMap ZodError_message ajv data = [] ->
  let report := fst (run filePath w) in
  corpus w = [] /\
  report = fst (run filePath (set_glossaryData (Holds (Some [])) w)) /\
  (valid report = true <->
   forall t r, In t (terms data) -> In r (relationships t) ->
     In (termId r) (map id (terms data))).
Proof.
  intros Hno Hfile Hvalid report. subst report.
  assert (corpus w = []) as Hcorpus.
  { rewrite corpus_eq. destruct (glossaryData w) as [| d | [ts|]]; try reflexivity.
    exfalso. apply (Hno ts). reflexivity. }
  split; [exact Hcorpus |].
  rewrite (validateBatch_structurally_valid defaultErrorMap ZodError_message ajv filePath w data Hfile Hvalid).
  rewrite (validateBatch_structurally_valid defaultErrorMap ZodError_message ajv filePath
             (set_glossaryData (Holds (Some [])) w) data Hfile Hvalid).
  rewrite Hcorpus. split; [reflexivity |]. simpl.
  rewrite Nat.eqb_eq, length_zero_iff_nil, validateCrossReferences_nil.
  split.
  - intros H t r Ht Hr. destruct (H t r Ht Hr) as [Hin | []]. exact Hin.
  - intros H t r Ht Hr. left. apply (H t r Ht Hr).
Qed.

End ValidatorFacts.

(** ** More of the quiz-readiness audit *)

Lemma NoDup_flat_map_singletons {A B : Type} (f : A -> list B) (l : list A) :
  List.NoDup l ->
  (forall x, length (f x) <= 1) ->
  (forall x y b, In x l -> In y l -> In b (f x) -> In b (f y) -> x = y) ->
  List.NoDup (flat_map f l).
Proof.
  intros Hnd Hone Hinj. induction Hnd as [|a l Ha Hnd IH]; simpl; [constructor |].
  apply List.NoDup_app.
  - specialize (Hone a). destruct (f a) as [|b [|c r]]; simpl in Hone; try lia.
    + constructor.
    + constructor; [intros [] | constructor].
  - apply IH. intros x y b Hx Hy. apply Hinj; right; assumption.
  - intros b Hb Hb'. apply in_flat_map_iff in Hb' as (y & Hy & Hby).
    assert (a = y) as -> by (apply (Hinj a y b); simpl; auto).
    contradiction.
Qed.

(** X11.  A new-category warning never comes alone: the generic warning
    of the same category and count is reported too.  No warning of the
    audit is reported twice. *)
Theorem quiz_audit_shape (batch : GlossaryBatch) (existingTerms : list GlossaryTerm) :
  (forall c n,
     In (NewCategoryWarning c n) (checkQuizRequirements batch existingTerms) ->
     In (CategoryWarning c n) (checkQuizRequirements batch existingTerms)) /\
  List.NoDup (checkQuizRequirements batch existingTerms).
Proof.
  split.
  - intros c n Hnew. apply new_category_warning in Hnew as (-> & H0 & H1 & H4).
    apply generic_warning. lia.
  - unfold checkQuizRequirements. apply List.NoDup_app.
    + apply NoDup_flat_map_singletons.
      * apply NoDup_map_inv with (f := fst). do 2 apply fold_count_NoDup. constructor.
      * intros [c n]. destruct (n <? 4)%nat; simpl; lia.
      * intros [c n] [c' n'] b _ _ Hb Hb'.
        destruct (n <? 4)%nat; [| destruct Hb]. destruct (n' <? 4)%nat; [| destruct Hb'].
        destruct Hb as [<- | []]. destruct Hb' as [Heq | []]. congruence.
    + apply NoDup_flat_map_singletons.
      * apply unique_NoDup.
      * intros c. destruct (_ <? 4)%nat; simpl; lia.
      * intros c c' b _ _ Hb Hb'.
        destruct (length (List.filter _ (terms batch)) <? 4)%nat; [| destruct Hb].
        destruct (length (List.filter (fun t => String.eqb (category t) c') (terms batch)) <? 4)%nat;
          [| destruct Hb'].
        destruct Hb as [<- | []]. destruct Hb' as [Heq | []]. congruence.
    + intros b Hb Hb'.
      apply in_flat_map_iff in Hb as ([c n] & _ & Hb).
      apply in_flat_map_iff in Hb' as (c' & _ & Hb').
      destruct (n <? 4)%nat; [| destruct Hb]. destruct Hb as [<- | []].
      destruct (_ <? 4)%nat; [| destruct Hb']. destruct Hb' as [Heq | []]. discriminate.
Qed.

(** ** More of the manifest merger *)

Lemma replace_backslashes_length (s : string) :
  String.length (replace_backslashes s) = String.length s.
Proof. induction s as [|c s IH]; simpl; [reflexivity | rewrite IH; reflexivity]. Qed.

(** X12.  The path written to a manifest entry has no backslash and the
    length of the path it comes from; a path without backslash is kept as
    it is, so replacing twice is replacing once. *)
Theorem replace_backslashes_spec (s : string) :
  has_backslash (replace_backslashes s) = false /\
  String.length (replace_backslashes s) = String.length s /\
  (has_backslash s = false <-> replace_backslashes s = s) /\
  replace_backslashes (replace_backslashes s) = replace_backslashes s.
Proof.
  assert (has_backslash (replace_backslashes s) = false) as Hnone.
  { induction s as [|c s IH]; simpl; [reflexivity |].
    rewrite IH, orb_false_r.
    destruct (Ascii.eqb_spec c (ascii_of_nat 92)) as [-> | Hne]; [reflexivity |].
    apply Ascii.eqb_neq. exact Hne. }
  assert (forall t, has_backslash t = false <-> replace_backslashes t = t) as Hid.
  { intros t. induction t as [|c t IH]; simpl; [tauto |].
    rewrite orb_false_iff, IH.
    destruct (Ascii.eqb_spec c (ascii_of_nat 92)) as [-> | Hne].
    - split; [intros [H _]; discriminate | intros H; injection H as H _; discriminate].
    - split; [intros [_ ->]; reflexivity | intros H; injection H as H; auto]. }
  split; [exact Hnone |]. split; [apply replace_backslashes_length |].
  split; [apply Hid |]. apply Hid. exact Hnone.
Qed.

Lemma other_entries_Permutation (i : string) (l l' : list BatchManifestEntry) :
  Permutation l l' -> Permutation (other_entries i l) (other_entries i l').
Proof.
  unfold other_entries.
  induction 1 as [| x l l' _ IH | x y l | l l' l'' _ IH1 _ IH2]; simpl.
  - constructor.
  - destruct (negb _); [apply perm_skip |]; exact IH.
  - destruct (negb (String.eqb (entry_id x) i)); destruct (negb (String.eqb (entry_id y) i));
      try apply Permutation_refl. apply perm_swap.
  - apply Permutation_trans with (List.filter (fun e => negb (String.eqb (entry_id e) i)) l');
      assumption.
Qed.

Lemma other_entries_upsert (entry : BatchManifestEntry) (m : BatchManifest) :
  other_entries (entry_id entry) (batches (upsert entry m)) =
  other_entries (entry_id entry) (batches m).
Proof.
  unfold other_entries.
  destruct (upsert_cases entry m) as [[_ ->] | (l1 & x & l2 & -> & Hx & _ & ->)].
  - rewrite List.filter_app. simpl. rewrite String.eqb_refl. simpl. apply app_nil_r.
  - rewrite !List.filter_app. simpl. rewrite Hx, String.eqb_refl. reflexivity.
Qed.

Lemma upsert_length (entry : BatchManifestEntry) (m : BatchManifest) :
  length (batches (upsert entry m)) =
  length (batches m) + (if (idCount (entry_id entry) (batches m) =? 0)%nat then 1 else 0).
Proof.
  destruct (upsert_cases entry m) as [[Ha ->] | (l1 & x & l2 & -> & Hx & _ & ->)].
  - rewrite (idCount_absent _ _ Ha), length_app. reflexivity.
  - rewrite idCount_app, idCount_cons, Hx, String.eqb_refl, !length_app. simpl.
    destruct (Nat.eqb_spec (idCount (entry_id entry) l1 + S (idCount (entry_id entry) l2)) 0);
      lia.
Qed.

Section MergeFacts.

Variable basename : string -> string -> string.
Variable relative : string -> string -> string.
Variable Date_getTime : string -> option Z.

Local Notation "'merge'" := (updateManifest basename relative Date_getTime).
Local Notation "'entryOf'" := (entry_for basename relative).

(** X13.  When the batch file holds no batch document (it is absent or
    cannot be parsed), or the manifest file exists and cannot be parsed,
    the merge throws and writes nothing.  When the merge returns, the
    batch file held a document, the manifest was absent or parsed, and
    the one file written is the manifest, with the sorted upsert of the
    entry of the batch. *)
Theorem merge_outcome (batchPath : string) (w : World) :
  let outcome := merge batchPath w in
  ((forall batch, batch_files w batchPath <> Holds batch) \/ manifest_of w = None ->
   (exists thrown, fst outcome = inl thrown) /\ snd outcome = w) /\
  (batch_files w batchPath = NoFile -> fst outcome = inl (enoent batchPath)) /\
  (fst outcome = inr tt ->
   exists batch m,
     batch_files w batchPath = Holds batch /\
     manifest_of w = Some m /\
     manifest_json (snd outcome) =
       Holds (sortManifest Date_getTime (upsert (entryOf batchPath batch w) m)) /\
     batch_files (snd outcome) = batch_files w /\
     glossaryData (snd outcome) = glossaryData w).
Proof.
  intros outcome. subst outcome.
  split; [| split].
  - intros Hbad.
    destruct (updateManifest_throws basename relative Date_getTime batchPath w Hbad)
      as (thrown & ->).
    split; [exists thrown; reflexivity | reflexivity].
  - intros Hno. unfold updateManifest, readJson, gets, bind, ret. rewrite Hno. reflexivity.
  - intros Hdone.
    destruct (batch_files w batchPath) as [| d | batch] eqn:Ef.
    + destruct (updateManifest_throws basename relative Date_getTime batchPath w)
        as (thrown & Hrun); [left; congruence |].
      rewrite Hrun in Hdone. discriminate Hdone.
    + destruct (updateManifest_throws basename relative Date_getTime batchPath w)
        as (thrown & Hrun); [left; congruence |].
      rewrite Hrun in Hdone. discriminate Hdone.
    + destruct (manifest_of w) as [m|] eqn:Em.
      * exists batch, m.
        rewrite (updateManifest_run basename relative Date_getTime batchPath w batch m Ef Em).
        split; [reflexivity |]. split; [reflexivity |].
        split; [reflexivity |]. split; reflexivity.
      * destruct (updateManifest_throws basename relative Date_getTime batchPath w)
          as (thrown & Hrun); [right; exact Em |].
        rewrite Hrun in Hdone. discriminate Hdone.
Qed.

Lemma update_main_run (batchPath : string) (rest : list string) (w : World) :
  UpdateManifest.main basename relative Date_getTime (batchPath :: rest) w =
  match batch_files w batchPath with
  | NoFile => (1, w)
  | _ =>
      match fst (merge batchPath w) with
      | inl _ => (1, snd (merge batchPath w))
      | inr _ => (0, snd (merge batchPath w))
      end
  end.
Proof.
  unfold UpdateManifest.main, bind, existsSync, gets, ret.
  destruct (batch_files w batchPath) eqn:Ef; cbn [negb]; [reflexivity | |];
    destruct (merge batchPath w) as [[thrown | done] w']; reflexivity.
Qed.

(** X14.  The exit code of the merger is 0 or 1.  It is 1, and no file is
    written, when there is no argument, when the first argument names a
    file that holds no batch document, and when the manifest file exists
    and cannot be parsed.  When it is 0 the batch file held a document,
    the manifest was absent or parsed, and the manifest has been written
    with the sorted upsert of the entry of the batch. *)
Theorem update_exit_code (args : list string) (w : World) :
  let outcome := UpdateManifest.main basename relative Date_getTime args w in
  (fst outcome = 0 \/ fst outcome = 1) /\
  (args = [] -> fst outcome = 1 /\ snd outcome = w) /\
  (forall batchPath rest,
     args = batchPath :: rest ->
     (forall batch, batch_files w batchPath <> Holds batch) \/ manifest_of w = None ->
     fst outcome = 1 /\ snd outcome = w) /\
  (fst outcome = 0 ->
   exists batchPath rest batch m,
     args = batchPath :: rest /\
     batch_files w batchPath = Holds batch /\
     manifest_of w = Some m /\
     manifest_json (snd outcome) =
       Holds (sortManifest Date_getTime (upsert (entryOf batchPath batch w) m))).
Proof.
  intros outcome. subst outcome.
  destruct args as [|batchPath rest].
  { cbn. split; [auto |]. split; [auto |].
    split; [intros p r H; discriminate H | discriminate]. }
  rewrite update_main_run.
  split; [| split; [intros H; discriminate H | split]].
  - destruct (batch_files w batchPath); [auto | |];
      destruct (fst (merge batchPath w)); auto.
  - intros p r Hargs Hbad. injection Hargs as <- <-.
    destruct (updateManifest_throws basename relative Date_getTime batchPath w Hbad)
      as (thrown & Hrun).
    rewrite Hrun. cbn [fst snd]. destruct (batch_files w batchPath); auto.
  - intros Hzero.
    destruct (batch_files w batchPath) as [| d | batch] eqn:Ef.
    + discriminate Hzero.
    + destruct (updateManifest_throws basename relative Date_getTime batchPath w)
        as (thrown & Hrun); [left; congruence |].
      rewrite Hrun in Hzero. discriminate Hzero.
    + destruct (manifest_of w) as [m|] eqn:Em.
      * exists batchPath, rest, batch, m.
        rewrite (updateManifest_run basename relative Date_getTime batchPath w batch m Ef Em).
        split; [reflexivity |]. split; [exact Ef |]. split; reflexivity.
      * destruct (updateManifest_throws basename relative Date_getTime batchPath w)
          as (thrown & Hrun); [right; exact Em |].
        rewrite Hrun in Hzero. discriminate Hzero.
Qed.

(** X15.  A merge is append-only: the entries of the other batches are the
    same before and after, up to order; the manifest grows by one entry
    when the batch is new and keeps its length otherwise; and when the ids
    of the manifest are distinct they are still distinct afterwards. *)
Theorem merge_append_only
    (batchPath : string) (w : World) (batch : GlossaryBatch) (m : BatchManifest) :
  batch_files w batchPath = Holds batch ->
  manifest_of w = Some m ->
  let entry := entryOf batchPath batch w in
  exists merged,
    manifest_json (snd (merge batchPath w)) = Holds merged /\
    Permutation (other_entries (entry_id entry) (batches merged))
                (other_entries (entry_id entry) (batches m)) /\
    length (batches merged) =
      length (batches m) +
      (if (idCount (entry_id entry) (batches m) =? 0)%nat then 1 else 0) /\
    (forall i, In i (map entry_id (batches m)) -> In i (map entry_id (batches merged))) /\
    (List.NoDup (map entry_id (batches m)) -> List.NoDup (map entry_id (batches merged))).
Proof.
  intros Hfile Hm entry.
  exists (sortManifest Date_getTime (upsert entry m)).
  rewrite (updateManifest_run basename relative Date_getTime batchPath w batch m Hfile Hm).
  fold entry. cbn [snd saveManifest manifest_json sortManifest batches].
  pose proof (array_sort_Permutation Date_getTime (batches (upsert entry m))) as Hperm.
  split; [reflexivity |]. split; [| split; [| split]].
  - rewrite (other_entries_Permutation _ _ _ Hperm), other_entries_upsert.
    apply Permutation_refl.
  - rewrite (Permutation_length Hperm). apply upsert_length.
  - intros i Hi.
    apply (Permutation_in _ (Permutation_map entry_id (Permutation_sym Hperm))).
    destruct (upsert_cases entry m) as [[_ ->] | (l1 & x & l2 & Hl & Hx & _ & ->)].
    + rewrite map_app. apply in_or_app. left. exact Hi.
    + rewrite Hl in Hi. rewrite map_app in *. simpl in *. rewrite <- Hx. exact Hi.
  - intros Hnd.
    apply (Permutation_NoDup (Permutation_map entry_id (Permutation_sym Hperm))).
    apply upsert_NoDup. exact Hnd.
Qed.

(** X16.  Sorting the manifest only reorders it.  When every date is
    valid the result is in descending order, entries with the same time
    value keep their order, and sorting it again changes nothing. *)
Theorem sortManifest_spec (manifest : BatchManifest) :
  Permutation (batches (sortManifest Date_getTime manifest)) (batches manifest) /\
  (Forall (dated Date_getTime) (batches manifest) ->
   newest_first Date_getTime (batches (sortManifest Date_getTime manifest)) /\
   (forall t,
      List.filter (has_time Date_getTime t)
        (batches (sortManifest Date_getTime manifest)) =
      List.filter (has_time Date_getTime t) (batches manifest)) /\
   sortManifest Date_getTime (sortManifest Date_getTime manifest) =
   sortManifest Date_getTime manifest).
Proof.
  unfold sortManifest. cbn [batches].
  split; [apply array_sort_Permutation |].
  intros Hdated. pose proof (array_sort_sorted Date_getTime _ Hdated) as Hsorted.
  split; [exact Hsorted |]. split; [intros t; apply array_sort_stable |].
  f_equal. apply array_sort_fixed. exact Hsorted.
Qed.

End MergeFacts.

(** ** The manifest schema and the merger *)

Section ManifestSchemaFacts.

Variable defaultErrorMap : ZodIssueCode -> string.
Variable ZodError_message : GlossaryBatch -> string.
Variable manifestErrorMap : ManifestIssueCode -> string.
Variable basename : string -> string -> string.
Variable relative : string -> string -> string.
Variable Date_getTime : string -> option Z.

Local Notation "'merge'" := (updateManifest basename relative Date_getTime).
Local Notation "'entryOf'" := (entry_for basename relative).
Local Notation "'manifestIssues'" :=
  (fun m => snd (BatchManifestSchema defaultErrorMap manifestErrorMap m)).

Lemma check_min_only (n : nat) (path : list string) (s : string) :
  snd (zstring defaultErrorMap [check_min n None] path s) = [] <-> n <= String.length s.
Proof.
  unfold zstring. simpl.
  destruct (Nat.ltb_spec (String.length s) n); simpl; split; try discriminate; try lia;
    reflexivity.
Qed.

Lemma znumber_min_nil (n : nat) (path : list string) (x : nat) :
  snd (znumber_min manifestErrorMap n path x) = [] <-> n <= x.
Proof.
  unfold znumber_min. cbn [snd].
  destruct (Nat.ltb_spec x n); split; try discriminate; try lia; reflexivity.
Qed.

Lemma BatchManifestEntrySchema_nil (path : list string) (e : BatchManifestEntry) :
  snd (BatchManifestEntrySchema defaultErrorMap manifestErrorMap path e) = [] <-> entry_ok e.
Proof.
  unfold BatchManifestEntrySchema, entry_ok.
  rewrite parsed_all_issues. cbn [flat_map]. rewrite app_nil_r, !app_nil.
  rewrite !check_min_only, (checks_regex defaultErrorMap), znumber_min_nil.
  rewrite (zarray_issues_nil (zenum defaultErrorMap VALID_CATEGORIES) _ _
             (fun c => includes VALID_CATEGORIES c = true)
             (fun p x => zenum_issues_nil defaultErrorMap VALID_CATEGORIES p x)).
  tauto.
Qed.

Lemma BatchManifestSchema_nil (m : BatchManifest) :
  manifestIssues m = [] <-> Forall entry_ok (batches m).
Proof.
  unfold BatchManifestSchema.
  apply zarray_issues_nil. intros p x. apply BatchManifestEntrySchema_nil.
Qed.

Lemma nonempty_length (s : string) : s <> EmptyString -> 1 <= String.length s.
Proof. destruct s; [congruence | simpl; lia]. Qed.

(** X17.  When a batch that passes the Zod pass is merged into a manifest
    that passes the manifest schema, at a clock reading in ISO form and
    with a non-empty file stem and relative path, the manifest written
    passes the manifest schema. *)
Theorem merge_keeps_manifest_valid
    (batchPath : string) (w : World) (batch : GlossaryBatch) (m : BatchManifest) :
  batch_files w batchPath = Holds batch ->
  manifest_of w = Some m ->
  validateZodSchema defaultErrorMap ZodError_message batch = [] ->
  test ISO_DATE_REGEX (clock w) = true ->
  basename batchPath ".json" <> EmptyString ->
  relative (cwd w) batchPath <> EmptyString ->
  manifestIssues m = [] ->
  exists merged,
    manifest_json (snd (merge batchPath w)) = Holds merged /\
    manifestIssues merged = [].
Proof.
  intros Hfile Hm Hzod Hclock Hstem Hrel Hold.
  exists (sortManifest Date_getTime (upsert (entryOf batchPath batch w) m)).
  rewrite (updateManifest_run basename relative Date_getTime batchPath w batch m Hfile Hm).
  split; [reflexivity |].
  apply validateZodSchema_nil in Hzod. apply GlossaryBatchSchema_nil in Hzod.
  destruct Hzod as (Hne & _ & Hterms).
  apply BatchManifestSchema_nil in Hold. apply BatchManifestSchema_nil.
  assert (entry_ok (entryOf batchPath batch w)) as Hentry.
  { rewrite entry_for_eq. unfold entry_ok, extractBatchId.
    cbn [entry_id entry_path entry_createdAt entry_termCount entry_categories].
    split; [apply nonempty_length; exact Hstem |].
    split; [rewrite replace_backslashes_length; apply nonempty_length; exact Hrel |].
    split; [exact Hclock |].
    split; [destruct (terms batch); [congruence | simpl; lia] |].
    apply List.Forall_forall. intros c Hc. apply unique_In, in_map_iff in Hc as (t & <- & Ht).
    rewrite List.Forall_forall in Hterms. apply (Hterms t Ht). }
  unfold sortManifest. cbn [batches].
  apply (Permutation_Forall (Permutation_sym (array_sort_Permutation Date_getTime _))).
  apply List.Forall_forall. intros e He.
  apply upsert_In in He as [-> | He]; [exact Hentry |].
  rewrite List.Forall_forall in Hold. apply Hold. exact He.
Qed.

(** X18.  The merger validates nothing: a batch file with no terms is
    merged, and the manifest written has an entry with [termCount] 0, which
    the manifest schema rejects. *)
Theorem merge_does_not_validate
    (batchPath : string) (w : World) (batch : GlossaryBatch) (m : BatchManifest) :
  batch_files w batchPath = Holds batch ->
  manifest_of w = Some m ->
  terms batch = [] ->
  exists merged e,
    merge batchPath w = (inr tt, snd (saveManifest merged w)) /\
    In e (batches merged) /\
    entry_id e = extractBatchId basename batchPath /\
    entry_termCount e = 0 /\ entry_categories e = [] /\
    manifestIssues merged <> [].
Proof.
  intros Hfile Hm Hempty.
  set (entry := entryOf batchPath batch w).
  exists (sortManifest Date_getTime (upsert entry m)), entry.
  assert (In entry (batches (sortManifest Date_getTime (upsert entry m)))) as Hin.
  { unfold sortManifest. cbn [batches].
    apply (Permutation_in _ (Permutation_sym (array_sort_Permutation Date_getTime _))).
    apply upsert_has_entry. }
  assert (entry_termCount entry = 0) as Hcount.
  { subst entry. rewrite entry_for_eq. cbn [entry_termCount]. rewrite Hempty. reflexivity. }
  split; [apply (updateManifest_run basename relative Date_getTime batchPath w batch m Hfile Hm) |].
  split; [exact Hin |].
  split; [subst entry; rewrite entry_for_eq; reflexivity |].
  split; [exact Hcount |].
  split; [subst entry; rewrite entry_for_eq; cbn [entry_categories]; rewrite Hempty; reflexivity |].
  intros Hnil. apply BatchManifestSchema_nil in Hnil.
  rewrite List.Forall_forall in Hnil. destruct (Hnil entry Hin) as (_ & _ & _ & Hc & _). lia.
Qed.

End ManifestSchemaFacts.

(** ** The timestamp pattern *)

Lemma matches_Times_Cls (k : cclass) (n : nat) (w : list ascii) :
  matches (Times n (Cls k)) w <->
  length w = n /\ Forall (fun c => class_mem k c = true) w.
Proof.
  revert w. induction n as [|n IH]; intros w; cbn [Times].
  - rewrite matches_Eps. split.
    + intros ->. split; [reflexivity | constructor].
    + intros [H _]. destruct w; [reflexivity | discriminate].
  - rewrite matches_Seq. split.
    + intros (u & v & -> & Hu & Hv). apply matches_Cls in Hu as (c & -> & Hc).
      apply IH in Hv as [Hl Hv]. simpl. split; [congruence | constructor; assumption].
    + intros [Hl Hw]. destruct w as [|c w]; [discriminate |].
      inversion Hw as [|? ? Hc Hw']; subst. exists [c], w.
      split; [reflexivity |]. split; [constructor; exact Hc |].
      apply IH. split; [simpl in Hl; lia | exact Hw'].
Qed.

(** X19.  The timestamp pattern accepts exactly the strings made of a
    year of four digits, a month, day, hour, minute and second of two
    digits each, separated by [-], [-], [T], [:] and [:], an optional
    fraction of a dot and three digits, and a final [Z]; so an accepted
    string has 20 or 24 characters.  The values of the fields are not
    looked at. *)
Theorem iso_date_fields (s : string) :
  (test ISO_DATE_REGEX s = true <->
   exists year month day hour minute second fraction,
     list_ascii_of_string s =
       year ++ "-"%char :: month ++ "-"%char :: day ++ "T"%char ::
       hour ++ ":"%char :: minute ++ ":"%char :: second ++ fraction ++ ["Z"%char] /\
     digits 4 year /\ digits 2 month /\ digits 2 day /\
     digits 2 hour /\ digits 2 minute /\ digits 2 second /\
     (fraction = [] \/ exists millis, fraction = "."%char :: millis /\ digits 3 millis)) /\
  (test ISO_DATE_REGEX s = true -> String.length s = 20 \/ String.length s = 24).
Proof.
  assert (test ISO_DATE_REGEX s = true <->
   exists year month day hour minute second fraction,
     list_ascii_of_string s =
       year ++ "-"%char :: month ++ "-"%char :: day ++ "T"%char ::
       hour ++ ":"%char :: minute ++ ":"%char :: second ++ fraction ++ ["Z"%char] /\
     digits 4 year /\ digits 2 month /\ digits 2 day /\
     digits 2 hour /\ digits 2 minute /\ digits 2 second /\
     (fraction = [] \/ exists millis, fraction = "."%char :: millis /\ digits 3 millis))
    as Hshape.
  { unfold test, ISO_DATE_REGEX, digits. cbn [anchored body]. rewrite full_match_spec.
    generalize (list_ascii_of_string s) as w. intros w. split.
    - intros H.
      apply matches_Seq in H as (year & w1 & -> & Hy & H). apply matches_Times_Cls in Hy.
      apply matches_Seq in H as (x & w2 & -> & Hx & H). apply matches_Lit in Hx as ->.
      apply matches_Seq in H as (month & w3 & -> & Hmo & H). apply matches_Times_Cls in Hmo.
      apply matches_Seq in H as (x & w4 & -> & Hx & H). apply matches_Lit in Hx as ->.
      apply matches_Seq in H as (day & w5 & -> & Hd & H). apply matches_Times_Cls in Hd.
      apply matches_Seq in H as (x & w6 & -> & Hx & H). apply matches_Lit in Hx as ->.
      apply matches_Seq in H as (hour & w7 & -> & Hh & H). apply matches_Times_Cls in Hh.
      apply matches_Seq in H as (x & w8 & -> & Hx & H). apply matches_Lit in Hx as ->.
      apply matches_Seq in H as (minute & w9 & -> & Hmi & H). apply matches_Times_Cls in Hmi.
      apply matches_Seq in H as (x & w10 & -> & Hx & H). apply matches_Lit in Hx as ->.
      apply matches_Seq in H as (second & w11 & -> & Hs & H). apply matches_Times_Cls in Hs.
      apply matches_Seq in H as (fraction & z & -> & Hf & Hz). apply matches_Lit in Hz as ->.
      exists year, month, day, hour, minute, second, fraction.
      split; [reflexivity |]. do 6 (split; [assumption |]).
      unfold Opt in Hf. apply matches_Alt in Hf as [Hf | Hf].
      + right. apply matches_Seq in Hf as (x & millis & -> & Hx & Hms).
        apply matches_Lit in Hx as ->. apply matches_Times_Cls in Hms.
        exists millis. split; [reflexivity | exact Hms].
      + left. apply matches_Eps in Hf. exact Hf.
    - intros (year & month & day & hour & minute & second & fraction & -> &
              Hy & Hmo & Hd & Hh & Hmi & Hs & Hf).
      apply (m_seq _ _ year); [apply matches_Times_Cls; exact Hy |].
      apply (m_seq _ _ ["-"%char]); [apply matches_Lit; reflexivity |].
      apply (m_seq _ _ month); [apply matches_Times_Cls; exact Hmo |].
      apply (m_seq _ _ ["-"%char]); [apply matches_Lit; reflexivity |].
      apply (m_seq _ _ day); [apply matches_Times_Cls; exact Hd |].
      apply (m_seq _ _ ["T"%char]); [apply matches_Lit; reflexivity |].
      apply (m_seq _ _ hour); [apply matches_Times_Cls; exact Hh |].
      apply (m_seq _ _ [":"%char]); [apply matches_Lit; reflexivity |].
      apply (m_seq _ _ minute); [apply matches_Times_Cls; exact Hmi |].
      apply (m_seq _ _ [":"%char]); [apply matches_Lit; reflexivity |].
      apply (m_seq _ _ second); [apply matches_Times_Cls; exact Hs |].
      apply (m_seq _ _ fraction); [| apply matches_Lit; reflexivity].
      unfold Opt. apply matches_Alt. destruct Hf as [-> | (millis & -> & Hms)].
      + right. constructor.
      + left. apply (m_seq _ _ ["."%char]); [apply matches_Lit; reflexivity |].
        apply matches_Times_Cls. exact Hms. }
  split; [exact Hshape |].
  intros H. apply Hshape in H
    as (year & month & day & hour & minute & second & fraction & Hw &
        [Hy _] & [Hmo _] & [Hd _] & [Hh _] & [Hmi _] & [Hs _] & Hf).
  assert (String.length s = length (list_ascii_of_string s)) as ->.
  { clear. induction s as [|c s IH]; simpl; [reflexivity | rewrite IH; reflexivity]. }
  rewrite Hw.
  repeat (rewrite ?length_app; cbn [length]).
  destruct Hf as [-> | (millis & -> & [Hms _])]; cbn [length]; lia.
Qed.

(** ** Cross-references and the corpus *)

(** X20.  Publishing more terms never adds a cross-reference error: with
    a corpus that has at least the ids of another, every error reported
    is reported with the smaller corpus too, and a batch that resolves
    with the smaller corpus resolves with the larger one. *)
Theorem cross_references_monotone
    (batch : GlossaryBatch) (existing existing' : list GlossaryTerm) :
  (forall i, In i (map id existing) -> In i (map id existing')) ->
  (forall m, In m (validateCrossReferences batch existing') ->
             In m (validateCrossReferences batch existing)) /\
  (validateCrossReferences batch existing = [] ->
   validateCrossReferences batch existing' = []).
Proof.
  intros Hgrow.
  assert (forall m, In m (validateCrossReferences batch existing') ->
                    In m (validateCrossReferences batch existing)) as Hsub.
  { intros m Hm. apply validateCrossReferences_In in Hm as (t & r & Ht & Hr & Hun & ->).
    apply validateCrossReferences_In. exists t, r.
    split; [exact Ht |]. split; [exact Hr |]. split; [| reflexivity].
    intros [Hb | He]; apply Hun; [left; exact Hb | right; apply Hgrow; exact He]. }
  split; [exact Hsub |].
  intros Hnil. destruct (validateCrossReferences batch existing') as [|m ms] eqn:E;
    [reflexivity |].
  exfalso. specialize (Hsub m (or_introl eq_refl)). rewrite Hnil in Hsub. destruct Hsub.
Qed.

(** ** Instances *)

Lemma containsMarkdown_factor_witness :
  containsMarkdown "**TEST**" = true /\
  containsMarkdown (String.append "Press the " (String.append "**TEST**" " button.")) = true.
Proof.
  split; [reflexivity |]. apply containsMarkdown_factor. reflexivity.
Defined.

Lemma load_failure_report_witness :
  (forall data, batch_files (world_with_text plain_text) "missing.json" <> Holds data) /\
  fst (validateBatch example_error_map example_error_message ajv_accepts "missing.json" (world_with_text plain_text)) =
    {| valid := false;
       errors := [LoadError (String.append "Failed to load JSON file: "
                               (enoent "missing.json"))];
       warnings := []; termCount := 0; categories := [] |}.
Proof.
  assert (forall data, batch_files (world_with_text plain_text) "missing.json" <> Holds data)
    as Hno by (intros data H; discriminate H).
  destruct (load_failure_report example_error_map example_error_message ajv_accepts "missing.json"
              (world_with_text plain_text) Hno) as (detail & Hrun & Habsent & _).
  split; [exact Hno |].
  rewrite Hrun. cbn [fst]. rewrite (Habsent eq_refl). reflexivity.
Defined.

Lemma schema_failure_rejects_witness :
  batch_files (world_with_text plain_text) "batch.json" = Holds (batch_with_text plain_text) /\
  ajv_throws (batch_with_text plain_text) = inl (Some "schema is invalid") /\
  fst (validateBatch example_error_map example_error_message ajv_throws "batch.json" (world_with_text plain_text)) =
    {| valid := false;
       errors := [JsonSchemaFailure "schema is invalid"];
       warnings := []; termCount := 0; categories := [] |}.
Proof.
  split; [reflexivity |]. split; [reflexivity |].
  rewrite (schema_failure_rejects example_error_map example_error_message ajv_throws "batch.json"
             (world_with_text plain_text) (batch_with_text plain_text)
             (Some "schema is invalid") eq_refl eq_refl).
  vm_compute. reflexivity.
Defined.

Lemma report_metadata_witness :
  batch_files weather_world "batch.json" = Holds weather_batch /\
  structuralErrors example_error_map example_error_message ajv_accepts weather_batch = [] /\
  termCount (fst (validateBatch example_error_map example_error_message ajv_accepts "batch.json" weather_world)) = 2 /\
  length (categories
            (fst (validateBatch example_error_map example_error_message ajv_accepts "batch.json" weather_world))) <= 2.
Proof.
  assert (structuralErrors example_error_map example_error_message ajv_accepts weather_batch = []) as Hvalid
    by (vm_compute; reflexivity).
  pose proof (report_metadata example_error_map example_error_message ajv_accepts "batch.json" weather_world
                weather_batch eq_refl Hvalid) as H.
  cbv zeta in H. destruct H as (Hcount & _ & _ & _ & _ & Hle & _).
  split; [reflexivity |]. split; [exact Hvalid |].
  split; [rewrite Hcount; reflexivity |].
  rewrite Hcount in Hle. exact Hle.
Defined.

Lemma degraded_corpus_witness :
  (forall ts, glossaryData world_without_glossary <> Holds (Some ts)) /\
  batch_files world_without_glossary "batch.json" = Holds (batch_with_text plain_text) /\
  structuralErrors example_error_map example_error_message ajv_accepts (batch_with_text plain_text) = [] /\
  corpus world_without_glossary = [] /\
  valid (fst (validateBatch example_error_map example_error_message ajv_accepts "batch.json"
                world_without_glossary)) = true.
Proof.
  assert (forall ts, glossaryData world_without_glossary <> Holds (Some ts)) as Hno
    by (intros ts H; discriminate H).
  assert (structuralErrors example_error_map example_error_message ajv_accepts (batch_with_text plain_text) = [])
    as Hvalid by (vm_compute; reflexivity).
  pose proof (degraded_corpus example_error_map example_error_message ajv_accepts "batch.json"
                world_without_glossary (batch_with_text plain_text) Hno eq_refl Hvalid) as H.
  cbv zeta in H. destruct H as (Hcorpus & _ & Hiff).
  split; [exact Hno |]. split; [reflexivity |]. split; [exact Hvalid |].
  split; [exact Hcorpus |].
  apply (proj2 Hiff). intros t r [<- | []] Hr. destruct Hr.
Defined.

Lemma merge_append_only_witness :
  batch_files (february_world (Holds winter_manifest)) february_path =
    Holds (batch_with_text plain_text) /\
  manifest_of (february_world (Holds winter_manifest)) = Some winter_manifest /\
  exists merged,
    manifest_json
      (snd (updateManifest posix_basename relative_id iso_getTime february_path
              (february_world (Holds winter_manifest)))) = Holds merged /\
    length (batches merged) = 3.
Proof.
  pose proof (merge_append_only posix_basename relative_id iso_getTime february_path
                (february_world (Holds winter_manifest)) (batch_with_text plain_text)
                winter_manifest eq_refl eq_refl) as H.
  cbv zeta in H. destruct H as (merged & Hsaved & _ & Hlen & _).
  split; [reflexivity |]. split; [reflexivity |].
  exists merged. split; [exact Hsaved |].
  rewrite Hlen. vm_compute. reflexivity.
Defined.

Lemma merge_keeps_manifest_valid_witness :
  batch_files (february_world (Holds winter_manifest)) february_path =
    Holds (batch_with_text plain_text) /\
  manifest_of (february_world (Holds winter_manifest)) = Some winter_manifest /\
  validateZodSchema example_error_map example_error_message (batch_with_text plain_text) = [] /\
  test ISO_DATE_REGEX (clock (february_world (Holds winter_manifest))) = true /\
  posix_basename february_path ".json" <> EmptyString /\
  relative_id (cwd (february_world (Holds winter_manifest))) february_path <> EmptyString /\
  snd (BatchManifestSchema example_error_map example_manifest_error_map winter_manifest) = [] /\
  exists merged,
    manifest_json
      (snd (updateManifest posix_basename relative_id iso_getTime february_path
              (february_world (Holds winter_manifest)))) = Holds merged /\
    snd (BatchManifestSchema example_error_map example_manifest_error_map merged) = [].
Proof.
  assert (validateZodSchema example_error_map example_error_message (batch_with_text plain_text) = []) as Hzod
    by (vm_compute; reflexivity).
  assert (test ISO_DATE_REGEX (clock (february_world (Holds winter_manifest))) = true)
    as Hclock by (vm_compute; reflexivity).
  assert (posix_basename february_path ".json" <> EmptyString) as Hstem
    by (vm_compute; discriminate).
  assert (relative_id (cwd (february_world (Holds winter_manifest))) february_path
            <> EmptyString) as Hrel by (vm_compute; discriminate).
  assert (snd (BatchManifestSchema example_error_map example_manifest_error_map
                 winter_manifest) = []) as Hold by (vm_compute; reflexivity).
  split; [reflexivity |]. split; [reflexivity |]. split; [exact Hzod |].
  split; [exact Hclock |]. split; [exact Hstem |]. split; [exact Hrel |].
  split; [exact Hold |].
  exact (merge_keeps_manifest_valid example_error_map example_error_message
           example_manifest_error_map
           posix_basename relative_id iso_getTime february_path
           (february_world (Holds winter_manifest)) (batch_with_text plain_text)
           winter_manifest eq_refl eq_refl Hzod Hclock Hstem Hrel Hold).
Defined.

Lemma merge_does_not_validate_witness :
  batch_files empty_batch_world "data/batches/empty.json" = Holds empty_batch /\
  manifest_of empty_batch_world = Some {| batches := [] |} /\
  terms empty_batch = [] /\
  fst (updateManifest posix_basename relative_id iso_getTime "data/batches/empty.json"
         empty_batch_world) = inr tt /\
  exists merged,
    manifest_json
      (snd (updateManifest posix_basename relative_id iso_getTime "data/batches/empty.json"
              empty_batch_world)) = Holds merged /\
    snd (BatchManifestSchema example_error_map example_manifest_error_map merged) <> [].
Proof.
  destruct (merge_does_not_validate example_error_map example_manifest_error_map
              posix_basename relative_id iso_getTime "data/batches/empty.json"
              empty_batch_world empty_batch {| batches := [] |} eq_refl eq_refl eq_refl)
    as (merged & e & Hrun & _ & _ & _ & _ & Hbad).
  split; [reflexivity |]. split; [reflexivity |]. split; [reflexivity |].
  rewrite Hrun. split; [reflexivity |].
  exists merged. split; [reflexivity | exact Hbad].
Defined.

Lemma cross_references_monotone_witness :
  (forall i, In i (map id (@nil GlossaryTerm)) -> In i (map id navigation_corpus)) /\
  forall m, In m (validateCrossReferences reference_batch navigation_corpus) ->
            In m (validateCrossReferences reference_batch []).
Proof.
  assert (forall i, In i (map id (@nil GlossaryTerm)) -> In i (map id navigation_corpus))
    as Hgrow by (intros i []).
  split; [exact Hgrow |].
  exact (proj1 (cross_references_monotone reference_batch [] navigation_corpus Hgrow)).
Defined.
